(** * A shallow embedding of the nebius2api relay

    The development follows the TypeScript sources: the key pool manager
    (services/keyPool.ts), the error transformer (middleware/error.ts with
    config/error.ts) and the chat-completions route (routes/chat.ts).

    JavaScript strings are sequences of UTF-16 code units, numbers that the
    program only counts with are integers, the Redis pool namespace is a
    finite map from the credential identifier to its record, and code that
    awaits, throws and reads the clock becomes a state-and-exception monad
    over an explicit world. *)

From Stdlib Require Import ZArith String Ascii List Lia Bool.
From stdpp Require Import base option list gmap pretty.

Local Open Scope Z_scope.

(** ** JavaScript strings *)

(** A string is the list of its UTF-16 code units. *)
Abbreviation jsstring := (list Z).

(** Code units of an ASCII literal. *)
Definition lit (s : string) : jsstring :=
  map (fun a => Z.of_N (N_of_ascii a)) (list_ascii_of_string s).

(** [s.startsWith(p)]. *)
Fixpoint startsWith (p s : jsstring) : bool :=
  match p, s with
  | [], _ => true
  | _ :: _, [] => false
  | a :: p', b :: s' => (a =? b) && startsWith p' s'
  end.

(** [s.indexOf(p)], [None] standing for -1. *)
Fixpoint indexOf (p s : jsstring) : option nat :=
  if startsWith p s then Some 0%nat
  else match s with
       | [] => None
       | _ :: s' => S <$> indexOf p s'
       end.

(** [s.includes(p)]. *)
Definition includes (p s : jsstring) : bool :=
  match indexOf p s with Some _ => true | None => false end.

(** [s.split(sep)] for a non-empty separator: cut at every occurrence,
    scanning from the left and resuming after the separator.  The fuel
    bounds the number of cuts; [length s] always suffices. *)
Fixpoint split_fuel (n : nat) (sep s : jsstring) : list jsstring :=
  match n with
  | O => [s]
  | S n' =>
      match indexOf sep s with
      | None => [s]
      | Some i => take i s :: split_fuel n' sep (drop (i + length sep) s)
      end
  end.

Definition split (sep s : jsstring) : list jsstring :=
  split_fuel (length s) sep s.

(** White space and line terminators removed by [String.prototype.trim]. *)
Definition is_ws (c : Z) : bool :=
  ((9 <=? c) && (c <=? 13)) || (c =? 32) || (c =? 160) || (c =? 5760)
  || ((8192 <=? c) && (c <=? 8202)) || (c =? 8232) || (c =? 8233)
  || (c =? 8239) || (c =? 8287) || (c =? 12288) || (c =? 65279).

Fixpoint trimStart (s : jsstring) : jsstring :=
  match s with
  | [] => []
  | c :: s' => if is_ws c then trimStart s' else s
  end.

Definition trimEnd (s : jsstring) : jsstring := rev (trimStart (rev s)).

Definition trim (s : jsstring) : jsstring := trimEnd (trimStart s).

(** ** The key pool (types/keyPool.ts) *)

Record RateLimit := mkRateLimit {
  rpm : Z;
  current : Z;
  lastReset : Z
}.

Record KeyUsage := mkKeyUsage {
  totalTokens : Z;
  promptTokens : Z;
  completionTokens : Z;
  totalRequests : Z;
  lastUsed : Z
}.

Record ApiKey := mkApiKey {
  key : jsstring;
  rateLimit : RateLimit;
  usage : KeyUsage;
  algorithm : jsstring;
  enabled : bool;
  disabledReason : option jsstring;
  disabledAt : option Z
}.

Record KeyPoolConfig := mkKeyPoolConfig {
  currentAlgorithm : jsstring;
  defaultRpm : Z
}.

(** ** Exceptions, the world and the monad *)

(** [Error m] is [new Error(m)]; the other two are the built-in errors
    raised by the runtime (a property read or call on a value that has
    none, a body that is not JSON). *)
Inductive Exn :=
| Error (message : jsstring)
| TypeError
| SyntaxError.

Inductive Res (A : Type) :=
| Ok (a : A)
| Throw (e : Exn).
Arguments Ok {A} a.
Arguments Throw {A} e.

(** The world a request runs in: the pool namespace of the store
    ([<prefix>:pool:<identifier>]), the number of clock readings made so
    far, and the credentials of the upstream calls made so far, latest
    last. *)
Record World := mkWorld {
  pool : gmap jsstring ApiKey;
  ticks : nat;
  fetched : list jsstring
}.

(** What the program cannot decide: the clock, read by [Date.now()]. *)
Record Clock := mkClock { clock : nat -> Z }.

Definition M (A : Type) : Type := World -> Res A * World.

Definition ret {A} (a : A) : M A := fun w => (Ok a, w).

Definition bind {A B} (m : M A) (f : A -> M B) : M B :=
  fun w => match m w with
           | (Ok a, w') => f a w'
           | (Throw e, w') => (Throw e, w')
           end.

Definition throw {A} (e : Exn) : M A := fun w => (Throw e, w).

(** [try { m } catch (e) { h e }]. *)
Definition try_catch {A} (m : M A) (h : Exn -> M A) : M A :=
  fun w => match m w with
           | (Ok a, w') => (Ok a, w')
           | (Throw e, w') => h e w'
           end.

Declare Scope relay_scope.
Delimit Scope relay_scope with relay.
Notation "x <- c1 ;; c2" := (bind c1 (fun x => c2))
  (at level 100, c1 at next level, right associativity) : relay_scope.
Notation "c1 ;;; c2" := (bind c1 (fun _ => c2))
  (at level 100, right associativity) : relay_scope.
Local Open Scope relay_scope.

(** [Date.now()]. *)
Definition date_now (ck : Clock) : M Z :=
  fun w => (Ok (clock ck (ticks w)),
            mkWorld (pool w) (S (ticks w)) (fetched w)).

(** [redis.get], [redis.set] and [redis.keys] on the pool namespace. *)
Definition redis_get (k : jsstring) : M (option ApiKey) :=
  fun w => (Ok (pool w !! k), w).

Definition redis_set (k : jsstring) (v : ApiKey) : M unit :=
  fun w => (Ok tt, mkWorld (<[k := v]> (pool w)) (ticks w) (fetched w)).

(** ** KeyPoolManager (services/keyPool.ts) *)

(** [listKeys]: every record of the namespace, in the store's iteration
    order. *)
Definition listKeys : M (list ApiKey) :=
  fun w => (Ok ((map_to_list (pool w)).*2), w).

(** The error messages of the manager. *)
Definition msg_no_keys : jsstring := lit "No API keys available in the pool".
Definition msg_none_enabled : jsstring :=
  lit "No enabled API keys available in the pool".
Definition msg_select_failed : jsstring := lit "Failed to select an API key".
Definition msg_rate_limit : jsstring :=
  lit "Rate limit exceeded for all available keys".

(** [Array.prototype.sort] is stable; with the comparators below (a
    difference of integers) it is the stable sort by that field. *)
Fixpoint sort_insert {A} (cmp : A -> A -> Z) (x : A) (l : list A) : list A :=
  match l with
  | [] => [x]
  | y :: l' => if cmp x y <=? 0 then x :: y :: l' else y :: sort_insert cmp x l'
  end.

Fixpoint sort {A} (cmp : A -> A -> Z) (l : list A) : list A :=
  match l with
  | [] => []
  | x :: l' => sort_insert cmp x (sort cmp l')
  end.

Definition jsstring_eqb (a b : jsstring) : bool := bool_decide (a = b).

(** [this.config?.currentAlgorithm || "round-robin"]. *)
Definition algorithm_of (cfg : option KeyPoolConfig) : jsstring :=
  match cfg with
  | Some c => match currentAlgorithm c with
              | [] => lit "round-robin"
              | a => a
              end
  | None => lit "round-robin"
  end.

(** The [switch (algorithm)] of [getKey] and [retryWithFreshKey]. *)
Definition select (alg : jsstring) (enabledKeys : list ApiKey) : option ApiKey :=
  if jsstring_eqb alg (lit "round-robin") then
    head (sort (fun a b => lastUsed (usage a) - lastUsed (usage b)) enabledKeys)
  else if jsstring_eqb alg (lit "least-used") then
    head (sort (fun a b => totalRequests (usage a) - totalRequests (usage b)) enabledKeys)
  else if jsstring_eqb alg (lit "token-balanced") then
    head (sort (fun a b => totalTokens (usage a) - totalTokens (usage b)) enabledKeys)
  else head enabledKeys.

(** The record written back by a successful selection. *)
Definition mark_used (now : Z) (k : ApiKey) : ApiKey :=
  mkApiKey (key k)
    (mkRateLimit (rpm (rateLimit k)) (current (rateLimit k) + 1)
       (lastReset (rateLimit k)))
    (mkKeyUsage (totalTokens (usage k)) (promptTokens (usage k))
       (completionTokens (usage k)) (totalRequests (usage k) + 1) now)
    (algorithm k) (enabled k) (disabledReason k) (disabledAt k).

(** The common tail of [getKey] and [retryWithFreshKey]: the rate-limit
    test, the bookkeeping and the write-back. *)
Definition take_key (ck : Clock) (msg_failed msg_limited : jsstring)
    (selectedKey : option ApiKey) : M jsstring :=
  match selectedKey with
  | None => throw (Error msg_failed)
  | Some k =>
      if current (rateLimit k) >=? rpm (rateLimit k)
      then throw (Error msg_limited)
      else now <- date_now ck ;;
           redis_set (key k) (mark_used now k) ;;;
           ret (key k)
  end.

Definition getKey (ck : Clock) (cfg : option KeyPoolConfig)
    (userKey : option jsstring) : M jsstring :=
  match userKey with
  | Some (c :: u) => ret (c :: u)
  | _ =>
      keys <- listKeys ;;
      match keys with
      | [] => throw (Error msg_no_keys)
      | _ =>
          let enabledKeys := filter (fun k => enabled k = true) keys in
          match enabledKeys with
          | [] => throw (Error msg_none_enabled)
          | _ =>
              take_key ck msg_select_failed msg_rate_limit
                (select (algorithm_of cfg) enabledKeys)
          end
      end
  end.

(** The messages of [retryWithFreshKey], as UTF-16 code units:
    "没有可用的 API keys", "无法选择 API key" and
    "所有可用 key 的速率限制已超出". *)
Definition msg_retry_none : jsstring :=
  [27809; 26377; 21487; 29992; 30340] ++ lit " API keys".
Definition msg_retry_failed : jsstring :=
  [26080; 27861; 36873; 25321] ++ lit " API key".
Definition msg_retry_limit : jsstring :=
  [25152; 26377; 21487; 29992] ++ lit " key " ++
  [30340; 36895; 29575; 38480; 21046; 24050; 36229; 20986].

Definition retryWithFreshKey (ck : Clock) (cfg : option KeyPoolConfig)
    (excludeKey : jsstring) : M jsstring :=
  keys <- listKeys ;;
  let enabledKeys :=
    filter (fun k => enabled k = true /\ key k <> excludeKey) keys in
  match enabledKeys with
  | [] => throw (Error msg_retry_none)
  | _ =>
      take_key ck msg_retry_failed msg_retry_limit
        (select (algorithm_of cfg) enabledKeys)
  end.

(** The record written by the sweep for a credential whose window has
    elapsed. *)
Definition reset_window (now : Z) (k : ApiKey) : ApiKey :=
  mkApiKey (key k) (mkRateLimit (rpm (rateLimit k)) 0 now) (usage k)
    (algorithm k) (enabled k) (disabledReason k) (disabledAt k).

(** The [for (const key of keys)] loop of [resetRateLimits]. *)
Fixpoint reset_loop (now : Z) (keys : list ApiKey) : M unit :=
  match keys with
  | [] => ret tt
  | k :: rest =>
      (if now - lastReset (rateLimit k) >=? 60000
       then redis_set (key k) (reset_window now k)
       else ret tt) ;;;
      reset_loop now rest
  end.

Definition resetRateLimits (ck : Clock) : M unit :=
  keys <- listKeys ;;
  now <- date_now ck ;;
  reset_loop now keys.

(** [a || b] on an optional number: undefined and 0 are falsy. *)
Definition num_or (a : option Z) (b : Z) : Z :=
  match a with
  | Some z => if z =? 0 then b else z
  | None => b
  end.

Definition addKey (ck : Clock) (cfg : option KeyPoolConfig)
    (k : jsstring) (rpm_arg : option Z) : M unit :=
  now <- date_now ck ;;
  let newKey :=
    mkApiKey k
      (mkRateLimit (num_or rpm_arg (num_or (defaultRpm <$> cfg) 60)) 0 now)
      (mkKeyUsage 0 0 0 0 0)
      (algorithm_of cfg) true None None in
  redis_set k newKey.

(** [addKeys]: one [addKey] per item, failures collected, never aborted. *)
Fixpoint addKeys_loop (ck : Clock) (cfg : option KeyPoolConfig)
    (keys : list (jsstring * option Z)) (success failed : list jsstring)
    : M (list jsstring * list jsstring) :=
  match keys with
  | [] => ret (success, failed)
  | (k, r) :: rest =>
      ok <- try_catch (addKey ck cfg k r ;;; ret true) (fun _ => ret false) ;;
      if ok : bool
      then addKeys_loop ck cfg rest (success ++ [k]) failed
      else addKeys_loop ck cfg rest success (failed ++ [k])
  end.

Definition addKeys (ck : Clock) (cfg : option KeyPoolConfig)
    (keys : list (jsstring * option Z)) : M (list jsstring * list jsstring) :=
  addKeys_loop ck cfg keys [] [].

(** The token counters of a response, as [updateKeyStats] receives them. *)
Record Usage := mkUsage {
  u_totalTokens : Z;
  u_promptTokens : Z;
  u_completionTokens : Z
}.

Definition updateKeyStats (k : jsstring) (u : Usage) : M unit :=
  keyData <- redis_get k ;;
  match keyData with
  | None => ret tt
  | Some d =>
      redis_set k
        (mkApiKey (key d) (rateLimit d)
           (mkKeyUsage (totalTokens (usage d) + u_totalTokens u)
              (promptTokens (usage d) + u_promptTokens u)
              (completionTokens (usage d) + u_completionTokens u)
              (totalRequests (usage d)) (lastUsed (usage d)))
           (algorithm d) (enabled d) (disabledReason d) (disabledAt d))
  end.

Definition disableKey (ck : Clock) (k reason : jsstring) : M unit :=
  keyData <- redis_get k ;;
  match keyData with
  | None => ret tt
  | Some d =>
      now <- date_now ck ;;
      redis_set k
        (mkApiKey (key d) (rateLimit d) (usage d) (algorithm d)
           false (Some reason) (Some now))
  end.

(** A store is well formed when every record sits under its own
    identifier, as [addKey] writes it. *)
Definition pool_wf (p : gmap jsstring ApiKey) : Prop :=
  forall k v, p !! k = Some v -> key v = k.

(** The enabled records of a store, as [getKey] filters them. *)
Definition enabledKeys_of (p : gmap jsstring ApiKey) : list ApiKey :=
  filter (fun k => enabled k = true) ((map_to_list p).*2).

(** ** Sample stores, used to run the definitions *)

Definition sample_clock : Clock := mkClock (fun n => 100000 + Z.of_nat n).

Definition sample_key (id : string) (limit count reset used : Z) (en : bool)
    : ApiKey :=
  mkApiKey (lit id) (mkRateLimit limit count reset)
    (mkKeyUsage 0 0 0 0 used) (lit "round-robin") en None None.

(** Credential A is enabled and used last at 5; B is disabled and used last
    at 1. *)
Definition sample_world : World :=
  mkWorld (<[lit "A" := sample_key "A" 2 0 0 5 true]>
             (<[lit "B" := sample_key "B" 2 0 0 1 false]> ∅)) 0 [].

(** No credential at all, and a single disabled one. *)
Definition sample_world_empty : World := mkWorld ∅ 0 [].

Definition sample_world_disabled : World :=
  mkWorld (<[lit "B" := sample_key "B" 2 0 0 1 false]> ∅) 0 [].

(** Both credentials enabled; A, the oldest used, has spent its quota. *)
Definition sample_world_limited : World :=
  mkWorld (<[lit "A" := sample_key "A" 2 2 0 1 true]>
             (<[lit "B" := sample_key "B" 2 0 0 5 true]> ∅)) 0 [].

(** A's window started at 0, B's at 90000. *)
Definition sample_world_windows : World :=
  mkWorld (<[lit "A" := sample_key "A" 2 2 0 1 true]>
             (<[lit "B" := sample_key "B" 2 1 90000 5 true]> ∅)) 0 [].

(** What the sweep at time [now] makes of one record. *)
Definition sweep_record (now : Z) (v : ApiKey) : ApiKey :=
  if now - lastReset (rateLimit v) >=? 60000 then reset_window now v else v.

(** ** JavaScript values *)

Set Warnings "-register-all".

(** Values as [JSON.parse] and object literals produce them.  An array
    carries, after its elements, the named properties assigned to it. *)
Inductive value :=
| VUndefined
| VNull
| VBool (b : bool)
| VNum (n : Z)
| VStr (s : jsstring)
| VArr (elems : list value) (named : list (jsstring * value))
| VObj (props : list (jsstring * value)).

(** Truthiness, as [if (v)], [v && ...] and [v || ...] test it. *)
Definition truthy (v : value) : bool :=
  match v with
  | VUndefined | VNull => false
  | VBool b => b
  | VNum n => negb (n =? 0)
  | VStr s => match s with [] => false | _ => true end
  | VArr _ _ | VObj _ => true
  end.

(** [typeof v === 'object']: true of objects, arrays and [null]. *)
Definition typeof_object (v : value) : bool :=
  match v with
  | VNull | VArr _ _ | VObj _ => true
  | _ => false
  end.

Fixpoint assoc_get (name : jsstring) (props : list (jsstring * value))
    : option value :=
  match props with
  | [] => None
  | (n, v) :: rest => if jsstring_eqb n name then Some v else assoc_get name rest
  end.

(** An assignment keeps the position of a property that exists and
    appends one that does not. *)
Fixpoint assoc_set (name : jsstring) (x : value)
    (props : list (jsstring * value)) : list (jsstring * value) :=
  match props with
  | [] => [(name, x)]
  | (n, v) :: rest =>
      if jsstring_eqb n name then (n, x) :: rest
      else (n, v) :: assoc_set name x rest
  end.

Fixpoint assoc_del (name : jsstring) (props : list (jsstring * value))
    : list (jsstring * value) :=
  match props with
  | [] => []
  | (n, v) :: rest =>
      if jsstring_eqb n name then assoc_del name rest
      else (n, v) :: assoc_del name rest
  end.

(** [v.name]: a read on [undefined] or [null] throws; a value without the
    property reads as [undefined]. *)
Definition get_prop (v : value) (name : jsstring) : Res value :=
  match v with
  | VUndefined | VNull => Throw TypeError
  | VObj props => Ok (default VUndefined (assoc_get name props))
  | VArr _ named => Ok (default VUndefined (assoc_get name named))
  | _ => Ok VUndefined
  end.

(** [v?.name]. *)
Definition get_opt (v : value) (name : jsstring) : value :=
  match get_prop v name with
  | Ok x => x
  | Throw _ => VUndefined
  end.

(** [v.name = x], in strict mode (modules are strict): only objects and
    arrays take the property. *)
Definition set_prop (v : value) (name : jsstring) (x : value) : Res value :=
  match v with
  | VObj props => Ok (VObj (assoc_set name x props))
  | VArr elems named => Ok (VArr elems (assoc_set name x named))
  | _ => Throw TypeError
  end.

(** [delete v.name], for a value [v] that is not [undefined] or [null]. *)
Definition delete_prop (v : value) (name : jsstring) : value :=
  match v with
  | VObj props => VObj (assoc_del name props)
  | VArr elems named => VArr elems (assoc_del name named)
  | _ => v
  end.

(** ** ErrorTransformer (types/error.ts, middleware/error.ts) *)

(** [statusCode: number | number[] | '*']. *)
Inductive StatusCode :=
| StatusExact (n : Z)
| StatusList (l : list Z)
| StatusAny.

Record ErrorTransformRule := mkRule {
  statusCode : StatusCode;
  message : option jsstring;
  transformedStatusCode : option Z;
  transform : option (value -> Res value)
}.

Record MessageTransformConfig := mkMessageTransformConfig {
  mt_enabled : bool;
  rules : list ErrorTransformRule
}.

Record TransformationConfig := mkTransformationConfig {
  error : MessageTransformConfig;
  response : option MessageTransformConfig
}.

(** The [matches] test of one rule. *)
Definition rule_matches (rule : ErrorTransformRule) (status : Z) : bool :=
  match statusCode rule with
  | StatusAny => true
  | StatusExact n => n =? status
  | StatusList l => existsb (fun n => n =? status) l
  end.

(** The body of [if (matches) { ... }]. *)
Definition apply_rule (rule : ErrorTransformRule) (err : value) (status : Z)
    : Res (value * Z) :=
  match (match transform rule with Some f => f err | None => Ok err end) with
  | Throw e => Throw e
  | Ok transformedError =>
      let transformedStatus := default status (transformedStatusCode rule) in
      match message rule with
      | Some (c :: m) =>
          if typeof_object transformedError
          then match set_prop transformedError (lit "message") (VStr (c :: m)) with
               | Ok b => Ok (b, transformedStatus)
               | Throw e => Throw e
               end
          else Ok (transformedError, transformedStatus)
      | _ => Ok (transformedError, transformedStatus)
      end
  end.

(** The [for (const rule of config.error.rules)] loop. *)
Fixpoint transformError_loop (rules : list ErrorTransformRule)
    (err : value) (status : Z) : Res (value * Z) :=
  match rules with
  | [] => Ok (err, status)
  | rule :: rest =>
      if rule_matches rule status then apply_rule rule err status
      else transformError_loop rest err status
  end.

Definition transformError (err : value) (status : Z)
    (config : TransformationConfig) : Res (value * Z) :=
  if negb (mt_enabled (error config)) then Ok (err, status)
  else transformError_loop (rules (error config)) err status.

(** The rule table of config/error.ts.  Each message is given by its code
    units; the comment shows the text. *)

(* 认证失败，请检查您的访问凭证 *)
Definition msg_401 : jsstring :=
  [35748; 35777; 22833; 36133; 65292; 35831; 26816; 26597; 24744; 30340;
   35775; 38382; 20973; 35777].
(* 请求无效，请检查您的输入 *)
Definition msg_400 : jsstring :=
  [35831; 27714; 26080; 25928; 65292; 35831; 26816; 26597; 24744; 30340;
   36755; 20837].
(* 禁止访问，您没有权限 *)
Definition msg_403 : jsstring :=
  [31105; 27490; 35775; 38382; 65292; 24744; 27809; 26377; 26435; 38480].
(* 请求的资源未找到 *)
Definition msg_404 : jsstring :=
  [35831; 27714; 30340; 36164; 28304; 26410; 25214; 21040].
(* 请求过于频繁，请稍后再试 *)
Definition msg_429 : jsstring :=
  [35831; 27714; 36807; 20110; 39057; 32321; 65292; 35831; 31245; 21518;
   20877; 35797].
(* 服务暂时不可用，请稍后重试 *)
Definition msg_5xx : jsstring :=
  [26381; 21153; 26242; 26102; 19981; 21487; 29992; 65292; 35831; 31245;
   21518; 37325; 35797].
(* 发生未知错误 *)
Definition msg_unknown : jsstring :=
  [21457; 29983; 26410; 30693; 38169; 35823].

(** [() => ({ code, message })]. *)
Definition coded (code : string) (m : jsstring) : value -> Res value :=
  fun _ => Ok (VObj [(lit "code", VStr (lit code)); (lit "message", VStr m)]).

Definition defaultTransformConfig : TransformationConfig :=
  mkTransformationConfig
    (mkMessageTransformConfig true
       [ mkRule (StatusExact 401) (Some msg_401) None
           (Some (coded "AUTH_ERROR" msg_401));
         mkRule (StatusExact 400) (Some msg_400) None
           (Some (coded "BAD_REQUEST" msg_400));
         mkRule (StatusExact 403) (Some msg_403) None
           (Some (coded "FORBIDDEN" msg_403));
         mkRule (StatusExact 404) (Some msg_404) None
           (Some (coded "NOT_FOUND" msg_404));
         mkRule (StatusExact 429) (Some msg_429) None
           (Some (coded "TOO_MANY_REQUESTS" msg_429));
         mkRule (StatusList [500; 501; 502; 503; 504]) (Some msg_5xx) None
           (Some (fun err =>
              match get_prop err (lit "requestId") with
              | Throw e => Throw e
              | Ok requestId =>
                  Ok (VObj [(lit "code", VStr (lit "SERVICE_ERROR"));
                            (lit "message", VStr msg_5xx);
                            (lit "requestId", requestId)])
              end));
         mkRule StatusAny None None
           (Some (fun _ => Ok (VObj [(lit "message", VStr msg_unknown)]))) ])
    None.

(** A rule matches a status, in the words of the specification: by
    equality with its exact status, by membership in its status set, or
    always when it is the wildcard. *)
Definition spec_matches (rule : ErrorTransformRule) (status : Z) : Prop :=
  match statusCode rule with
  | StatusAny => True
  | StatusExact n => n = status
  | StatusList l => status ∈ l
  end.

(** A table with one wildcard rule that only configures a message. *)
Definition message_only_config (m : jsstring) : TransformationConfig :=
  mkTransformationConfig
    (mkMessageTransformConfig true [mkRule StatusAny (Some m) None None])
    None.

(** ** ResponseTransformer, non-streaming (routes/chat.ts) *)

Definition think_open : jsstring := lit "<think>".
Definition think_close : jsstring := lit "</think>".

(** [isSpecialThinkingModel]. *)
Definition isSpecialThinkingModel (modelName : jsstring) : bool :=
  includes (lit "Qwen/QwQ-32B") modelName
  || includes (lit "Qwen/QwQ-32B-fast") modelName.

(** [parts[i] || ''] on the result of a split. *)
Definition part_or_empty (parts : list jsstring) (i : nat) : jsstring :=
  nth i parts [].

(** The thinking-default branch, on the content string: the new content
    and the reasoning content. *)
Definition special_fields (content : jsstring) : jsstring * jsstring :=
  if includes think_close content then
    let parts := split think_close content in
    let thinkContent := trim (part_or_empty parts 0) in
    let afterThink := part_or_empty parts 1 in
    (trim afterThink, thinkContent)
  else ([], trim content).

(** [content.match(/<think>([\s\S]*?)<\/think>/)]: the leftmost position
    where the opening marker is followed, at any distance, by a closing
    marker, with the shortest text in between.  The result is the index
    of the match, its captured group and its length. *)
Fixpoint match_think (s : jsstring) : option (nat * jsstring * nat) :=
  let next :=
    match s with
    | [] => None
    | _ :: s' =>
        match match_think s' with
        | Some (i, g, n) => Some (S i, g, n)
        | None => None
        end
    end in
  if startsWith think_open s then
    match indexOf think_close (drop (length think_open) s) with
    | Some j =>
        Some (0%nat, take j (drop (length think_open) s),
              (length think_open + j + length think_close)%nat)
    | None => next
    end
  else next.

(** The regular branch, on the content string: [None] when the pattern
    does not match, and otherwise the new content and the reasoning
    content. *)
Definition regular_fields (content : jsstring) : option (jsstring * jsstring) :=
  match match_think content with
  | Some (i, g, n) =>
      let thinkContent := trim g in
      let newContent := trim (take i content ++ drop (i + n) content) in
      Some (newContent, thinkContent)
  | None => None
  end.

(** [{ ...v }]: the own enumerable properties, index keys first. *)
Definition spread (v : value) : list (jsstring * value) :=
  match v with
  | VObj props => props
  | VArr elems named =>
      imap (fun i x => (lit (pretty i), x)) elems ++ named
  | _ => []
  end.

(** [{ ...message, content: c, reasoning_content: r }]. *)
Definition with_reasoning (message : value) (c r : jsstring) : value :=
  VObj (assoc_set (lit "reasoning_content") (VStr r)
          (assoc_set (lit "content") (VStr c) (spread message))).

(** The callback of [data.choices.map]. *)
Definition transformChoice (isSpecialModel : bool) (choice : value)
    : Res value :=
  match get_prop choice (lit "message") with
  | Throw e => Throw e
  | Ok message =>
      if negb (truthy message) then Ok choice else
      match get_prop message (lit "content") with
      | Throw e => Throw e
      | Ok content =>
          if negb (truthy content) then Ok choice else
          match content with
          | VStr c =>
              if isSpecialModel then
                let '(newContent, thinkContent) := special_fields c in
                set_prop choice (lit "message")
                  (with_reasoning message newContent thinkContent)
              else
                match regular_fields c with
                | Some (newContent, thinkContent) =>
                    set_prop choice (lit "message")
                      (with_reasoning message newContent thinkContent)
                | None => Ok choice
                end
          | _ => Throw TypeError
          end
      end
  end.

(** A marker whose first code unit does not occur again in it cannot
    overlap a copy of itself; both think markers are of this kind. *)
Definition marker (p : jsstring) : Prop :=
  exists c t, p = c :: t /\ c ∉ t.

(** [choice.message.content] and [choice.message.reasoning_content] of a
    choice, as a client reads them. *)
Definition message_field (choice : value) (name : jsstring) : value :=
  get_opt (get_opt choice (lit "message")) name.

(** A choice with the given message content and nothing else of note. *)
Definition sample_message (content : string) : list (jsstring * value) :=
  [(lit "role", VStr (lit "assistant")); (lit "content", VStr (lit content))].

Definition sample_choice_props (content : string) : list (jsstring * value) :=
  [(lit "index", VNum 0);
   (lit "message", VObj (sample_message content));
   (lit "finish_reason", VStr (lit "stop"))].

Definition sample_choice (content : string) : value :=
  VObj (sample_choice_props content).

(** ** UTF-8 (TextDecoder, TextEncoder) *)

(** Bytes are integers in 0..255.  The decoder is the WHATWG UTF-8
    decoder with replacement: a malformed or truncated sequence yields
    U+FFFD.  Its state is the code point under construction, the number of
    continuation bytes still needed and the bounds of the next byte. *)
Record Utf8State := mkUtf8State {
  u_code_point : Z;
  u_needed : nat;
  u_lower : Z;
  u_upper : Z
}.

Definition utf8_start : Utf8State := mkUtf8State 0 0 128 191.

(** A byte met while no sequence is open. *)
Definition utf8_lead (b : Z) : list Z * Utf8State :=
  if (0 <=? b) && (b <=? 127) then ([b], utf8_start)
  else if (194 <=? b) && (b <=? 223) then
    ([], mkUtf8State (Z.land b 31) 1 128 191)
  else if (224 <=? b) && (b <=? 239) then
    ([], mkUtf8State (Z.land b 15) 2
           (if b =? 224 then 160 else 128) (if b =? 237 then 159 else 191))
  else if (240 <=? b) && (b <=? 244) then
    ([], mkUtf8State (Z.land b 7) 3
           (if b =? 240 then 144 else 128) (if b =? 244 then 143 else 191))
  else ([65533], utf8_start).

(** One byte: the code points it completes and the next state.  A byte
    that breaks an open sequence gives U+FFFD and is read again as a
    leading byte. *)
Definition utf8_step (st : Utf8State) (b : Z) : list Z * Utf8State :=
  match u_needed st with
  | O => utf8_lead b
  | S n =>
      if (u_lower st <=? b) && (b <=? u_upper st) then
        let cp := Z.lor (Z.shiftl (u_code_point st) 6) (Z.land b 63) in
        match n with
        | O => ([cp], utf8_start)
        | S _ => ([], mkUtf8State cp n 128 191)
        end
      else
        let '(out, st') := utf8_lead b in (65533 :: out, st')
  end.

Fixpoint utf8_run (st : Utf8State) (bytes : list Z) : list Z :=
  match bytes with
  | [] => match u_needed st with O => [] | S _ => [65533] end
  | b :: rest =>
      let '(out, st') := utf8_step st b in out ++ utf8_run st' rest
  end.

(** The UTF-16 code units of a code point. *)
Definition utf16_units (cp : Z) : list Z :=
  if cp <? 65536 then [cp]
  else [55296 + Z.shiftr (cp - 65536) 10; 56320 + Z.land (cp - 65536) 1023].

(** [new TextDecoder().decode(chunk)]: a fresh decoder each time, not in
    streaming mode, so the sequence open at the end of the chunk is closed
    with U+FFFD, and a leading byte order mark is dropped. *)
Definition TextDecoder_decode (chunk : list Z) : jsstring :=
  let cps := utf8_run utf8_start chunk in
  let cps := match cps with
             | cp :: rest => if cp =? 65279 then rest else cps
             | [] => []
             end in
  concat (map utf16_units cps).

(** The UTF-8 bytes of a code point. *)
Definition utf8_bytes (cp : Z) : list Z :=
  if cp <? 128 then [cp]
  else if cp <? 2048 then
    [192 + Z.shiftr cp 6; 128 + Z.land cp 63]
  else if cp <? 65536 then
    [224 + Z.shiftr cp 12; 128 + Z.land (Z.shiftr cp 6) 63; 128 + Z.land cp 63]
  else
    [240 + Z.shiftr cp 18; 128 + Z.land (Z.shiftr cp 12) 63;
     128 + Z.land (Z.shiftr cp 6) 63; 128 + Z.land cp 63].

Definition is_high_surrogate (c : Z) : bool := (55296 <=? c) && (c <=? 56319).
Definition is_low_surrogate (c : Z) : bool := (56320 <=? c) && (c <=? 57343).

(** [new TextEncoder().encode(s)]: surrogate pairs are joined, a lone
    surrogate becomes U+FFFD. *)
Fixpoint TextEncoder_encode (s : jsstring) : list Z :=
  match s with
  | [] => []
  | c :: rest =>
      if is_high_surrogate c then
        match rest with
        | d :: rest' =>
            if is_low_surrogate d then
              utf8_bytes (65536 + (c - 55296) * 1024 + (d - 56320))
                ++ TextEncoder_encode rest'
            else utf8_bytes 65533 ++ TextEncoder_encode rest
        | [] => utf8_bytes 65533
        end
      else if is_low_surrogate c then utf8_bytes 65533 ++ TextEncoder_encode rest
      else utf8_bytes c ++ TextEncoder_encode rest
  end.

(** ** The engine *)

(** Built-in operations the program calls and this development does not
    define: the JSON codec, the conversion of a value that is not a string
    to a string (as [+] applies it), the comparison [v > 0] for a value
    that is not a number, and the message text of the built-in errors. *)
Record Engine := mkEngine {
  JSON_parse : jsstring -> Res value;
  JSON_stringify : value -> jsstring;
  ToString : value -> jsstring;
  gt_zero : value -> bool;
  runtime_message : Exn -> jsstring
}.

(** [e.message]. *)
Definition exn_message (eng : Engine) (e : Exn) : jsstring :=
  match e with
  | Error m => m
  | _ => runtime_message eng e
  end.

(** [v.includes(p)]: on a string the substring test, on an array the
    membership test; any other value has no such method. *)
Definition js_includes (p : jsstring) (v : value) : Res bool :=
  match v with
  | VStr s => Ok (includes p s)
  | VArr elems _ =>
      Ok (existsb (fun x => match x with
                            | VStr s => jsstring_eqb s p
                            | _ => false
                            end) elems)
  | _ => Throw TypeError
  end.

(** [v.split(sep)]: only strings have the method. *)
Definition js_split (sep : jsstring) (v : value) : Res (list jsstring) :=
  match v with
  | VStr s => Ok (split sep s)
  | _ => Throw TypeError
  end.

(** [s.trim()] read as a condition. *)
Definition nonblank (s : jsstring) : bool :=
  match trim s with [] => false | _ => true end.

(** [v ?? 0] for a token counter; the counters are numbers
    (types/api.ts), and a value of another type counts as 0 here. *)
Definition counter (v : value) : Z :=
  match v with VNum n => n | _ => 0 end.

(** ** ResponseTransformer, streaming (routes/chat.ts) *)

(** The variables shared by the invocations of [transform] and by
    [flush].  [chunkCount] and [firstChunkTime] only feed the log and are
    left out. *)
Record StreamState := mkStreamState {
  buffer : jsstring;
  isProcessingReasoning : bool;
  s_totalTokens : Z;
  s_promptTokens : Z;
  s_completionTokens : Z
}.

Definition stream_start (bodyModel : jsstring) : StreamState :=
  mkStreamState [] (isSpecialThinkingModel bodyModel) 0 0 0.

(** The state with another buffer. *)
Definition with_buffer (b : jsstring) (st : StreamState) : StreamState :=
  mkStreamState b (isProcessingReasoning st) (s_totalTokens st)
    (s_promptTokens st) (s_completionTokens st).

(** [data.choices && data.choices.length > 0], and then
    [data.choices[0]]. *)
Definition first_choice (eng : Engine) (choices : value) : option value :=
  match choices with
  | VArr (c :: _) _ => Some c
  | VStr (c :: _) => Some (VStr [c])
  | VObj props =>
      let len := default VUndefined (assoc_get (lit "length") props) in
      let positive :=
        match len with
        | VNum n => 0 <? n
        | VUndefined | VNull => false
        | VBool b => b
        | v => gt_zero eng v
        end in
      if positive then Some (default VUndefined (assoc_get (lit "0") props))
      else None
  | _ => None
  end.

(** The in-place update of [data.choices[0].delta], written back along
    the path. *)
Definition with_first_delta (data choices choice delta : value) : Res value :=
  match set_prop choice (lit "delta") delta with
  | Throw e => Throw e
  | Ok choice' =>
      match choices with
      | VArr (_ :: rest) named =>
          set_prop data (lit "choices") (VArr (choice' :: rest) named)
      | VObj props =>
          set_prop data (lit "choices") (VObj (assoc_set (lit "0") choice' props))
      | _ => Ok data
      end
  end.

(** The three branches on [choice.delta.content]: the new delta and the
    new value of [isProcessingReasoning].  The flag is assigned before
    the split, so it keeps its new value when the split throws. *)
Definition transform_delta (isSpecialModel flag : bool) (delta content : value)
    : Res value * bool :=
  match js_includes think_close content with
  | Throw e => (Throw e, flag)
  | Ok true =>
      match js_split think_close content with
      | Throw e => (Throw e, false)
      | Ok parts =>
          let thinkContent := part_or_empty parts 0 in
          let afterThink := part_or_empty parts 1 in
          match (if nonblank thinkContent
                 then set_prop delta (lit "reasoning_content") (VStr thinkContent)
                 else Ok delta) with
          | Throw e => (Throw e, false)
          | Ok d =>
              if nonblank afterThink
              then (set_prop d (lit "content") (VStr afterThink), false)
              else (Ok (delete_prop d (lit "content")), false)
          end
      end
  | Ok false =>
      match (if isSpecialModel then Ok false
             else js_includes think_open content) with
      | Throw e => (Throw e, flag)
      | Ok true =>
          match js_split think_open content with
          | Throw e => (Throw e, true)
          | Ok parts =>
              let beforeThink := part_or_empty parts 0 in
              let thinkContent := part_or_empty parts 1 in
              match (if nonblank beforeThink
                     then set_prop delta (lit "content") (VStr beforeThink)
                     else Ok (delete_prop delta (lit "content"))) with
              | Throw e => (Throw e, true)
              | Ok d =>
                  if nonblank thinkContent
                  then (set_prop d (lit "reasoning_content") (VStr thinkContent),
                        true)
                  else (Ok d, true)
              end
          end
      | Ok false =>
          if flag then
            match set_prop delta (lit "reasoning_content") content with
            | Throw e => (Throw e, flag)
            | Ok d => (Ok (delete_prop d (lit "content")), flag)
            end
          else (Ok delta, flag)
      end
  end.

(** The block [if (data.choices && data.choices.length > 0) { ... }]. *)
Definition transform_choices (eng : Engine) (bodyModel : jsstring)
    (flag : bool) (data : value) : Res value * bool :=
  match get_prop data (lit "choices") with
  | Throw e => (Throw e, flag)
  | Ok choices =>
      match first_choice eng choices with
      | None => (Ok data, flag)
      | Some choice =>
          match get_prop data (lit "model") with
          | Throw e => (Throw e, flag)
          | Ok m =>
              let modelName := if truthy m then m else VStr bodyModel in
              match js_includes (lit "Qwen/QwQ-32B") modelName with
              | Throw e => (Throw e, flag)
              | Ok i1 =>
                  match (if i1 then Ok true
                         else js_includes (lit "Qwen/QwQ-32B-fast") modelName) with
                  | Throw e => (Throw e, flag)
                  | Ok isSpecialModel =>
                      match get_prop choice (lit "delta") with
                      | Throw e => (Throw e, flag)
                      | Ok delta =>
                          match get_prop delta (lit "content") with
                          | Throw e => (Throw e, flag)
                          | Ok VUndefined => (Ok data, flag)
                          | Ok content =>
                              match transform_delta isSpecialModel flag delta content with
                              | (Throw e, flag') => (Throw e, flag')
                              | (Ok delta', flag') =>
                                  (with_first_delta data choices choice delta', flag')
                              end
                          end
                      end
                  end
              end
          end
      end
  end.

(** The [try] block of a [data: ] frame: the text to send when it
    completes, and the state it leaves in either case. *)
Definition transform_data (eng : Engine) (bodyModel : jsstring)
    (st : StreamState) (payload : jsstring) : Res jsstring * StreamState :=
  match JSON_parse eng payload with
  | Throw e => (Throw e, st)
  | Ok data =>
      match get_prop data (lit "usage") with
      | Throw e => (Throw e, st)
      | Ok u =>
          let st1 :=
            if truthy u then
              mkStreamState (buffer st) (isProcessingReasoning st)
                (counter (get_opt u (lit "total_tokens")))
                (counter (get_opt u (lit "prompt_tokens")))
                (counter (get_opt u (lit "completion_tokens")))
            else st in
          match transform_choices eng bodyModel (isProcessingReasoning st1) data with
          | (r, flag) =>
              let st2 :=
                mkStreamState (buffer st1) flag (s_totalTokens st1)
                  (s_promptTokens st1) (s_completionTokens st1) in
              match r with
              | Throw e => (Throw e, st2)
              | Ok data' =>
                  (Ok (lit "data: " ++ JSON_stringify eng data' ++ [10; 10]), st2)
              end
          end
      end
  end.

(** The body of the loop over the complete frames: what is enqueued for
    one frame, and the state after it. *)
Definition transform_message (eng : Engine) (bodyModel : jsstring)
    (st : StreamState) (message : jsstring) : list (list Z) * StreamState :=
  let trimmedMessage := trim message in
  match trimmedMessage with
  | [] => ([], st)
  | _ =>
      if jsstring_eqb trimmedMessage (lit "data: [DONE]") then
        ([TextEncoder_encode (message ++ [10; 10])], st)
      else if startsWith (lit "data: ") trimmedMessage then
        match transform_data eng bodyModel st (drop 6 trimmedMessage) with
        | (Ok text, st') => ([TextEncoder_encode text], st')
        | (Throw _, st') => ([TextEncoder_encode (message ++ [10; 10])], st')
        end
      else ([TextEncoder_encode (message ++ [10; 10])], st)
  end.

Fixpoint transform_messages (eng : Engine) (bodyModel : jsstring)
    (st : StreamState) (messages : list jsstring)
    : list (list Z) * StreamState :=
  match messages with
  | [] => ([], st)
  | message :: rest =>
      let '(out, st') := transform_message eng bodyModel st message in
      let '(outs, st'') := transform_messages eng bodyModel st' rest in
      (out ++ outs, st'')
  end.

(** [transform(chunk, controller)]: the chunks enqueued and the state
    left for the next invocation. *)
Definition transform_chunk (eng : Engine) (bodyModel : jsstring)
    (st : StreamState) (chunk : list Z) : list (list Z) * StreamState :=
  let text := TextDecoder_decode chunk in
  let buf := buffer st ++ text in
  let messages := split [10; 10] buf in
  let st' :=
    mkStreamState (default [] (last messages)) (isProcessingReasoning st)
      (s_totalTokens st) (s_promptTokens st) (s_completionTokens st) in
  transform_messages eng bodyModel st' (removelast messages).

(** The part of [flush(controller)] that writes to the stream. *)
Definition flush_chunk (st : StreamState) : list (list Z) :=
  if nonblank (buffer st) then [TextEncoder_encode (buffer st)] else [].

(** The transform fed with the chunks of the upstream body, one after the
    other. *)
Fixpoint transform_chunks (eng : Engine) (bodyModel : jsstring)
    (st : StreamState) (chunks : list (list Z))
    : list (list Z) * StreamState :=
  match chunks with
  | [] => ([], st)
  | chunk :: rest =>
      let '(out, st') := transform_chunk eng bodyModel st chunk in
      let '(outs, st'') := transform_chunks eng bodyModel st' rest in
      (out ++ outs, st'')
  end.

(** ** The chat-completions route (routes/chat.ts) *)

(** A message of the request (types/api.ts); the route also accepts a
    content given as an array of parts and reads the [text] of each. *)
Inductive Content :=
| ContentText (s : jsstring)
| ContentParts (texts : list (option jsstring)).

Record Message := mkMessage {
  role : jsstring;
  content : Content;
  name : option jsstring
}.

Record ChatMessage := mkChatMessage {
  cm_role : jsstring;
  cm_content : jsstring;
  cm_name : option jsstring
}.

(** The fields of the request body the route reads.  [messages] is [None]
    when the field is absent or not an array. *)
Record ChatCompletionRequest := mkRequest {
  messages : option (list Message);
  model : option jsstring;
  stream : option bool
}.

(** An upstream response: its status, what [json()] resolves to ([None]
    when the body is not JSON) and the chunks of its body stream ([None]
    when it has no body). *)
Record Response := mkResponse {
  resp_status : Z;
  resp_json : option value;
  resp_body : option (list (list Z))
}.

(** [resp.ok]. *)
Definition resp_ok (r : Response) : bool :=
  (200 <=? resp_status r) && (resp_status r <=? 299).

Inductive ClientBody :=
| BodyText (text : jsstring)
| BodyJson (v : value)
| BodyStream (chunks : list (list Z)).

Record ClientResponse := mkClientResponse {
  c_status : Z;
  c_body : ClientBody
}.

(** What surrounds a request: the clock, the engine, the upstream (the
    answer to the n-th call, made with a given credential) and the
    tokenizer. *)
Record Env := mkEnv {
  env_clock : Clock;
  env_engine : Engine;
  fetch : nat -> jsstring -> Res Response;
  encodeChat : list ChatMessage -> Res (list Z)
}.

Definition lift {A} (r : Res A) : M A := fun w => (r, w).

Definition fetch_upstream (env : Env) (k : jsstring) : M Response :=
  fun w => (fetch env (length (fetched w)) k,
            mkWorld (pool w) (ticks w) (fetched w ++ [k])).

(** [await resp.json()]. *)
Definition json_of (r : Response) : Res value :=
  match resp_json r with
  | Some v => Ok v
  | None => Throw SyntaxError
  end.

(** The map over [body.messages] that feeds the tokenizer. *)
Definition chat_message (msg : Message) : ChatMessage :=
  mkChatMessage
    (if jsstring_eqb (role msg) (lit "tool") then lit "assistant" else role msg)
    (match content msg with
     | ContentText s => s
     | ContentParts texts => concat (map (default []) texts)
     end)
    (name msg).

(** [resp.status === 402 &&
     errorData?.details?.detail?.includes("exhausted your budget")]. *)
Definition isKeyExhausted (status : Z) (errorData : value) : Res bool :=
  if status =? 402 then
    match get_opt (get_opt errorData (lit "details")) (lit "detail") with
    | VUndefined | VNull => Ok false
    | detail => js_includes (lit "exhausted your budget") detail
    end
  else Ok false.

(* 余额耗尽:  *)
Definition msg_exhausted_prefix : jsstring :=
  [20313; 39069; 32791; 23613; 58; 32].

(** ["余额耗尽: " + (errorData.details?.detail || "Payment Required")]. *)
Definition disable_reason (eng : Engine) (errorData : value) : Res jsstring :=
  match get_prop errorData (lit "details") with
  | Throw e => Throw e
  | Ok details =>
      let detail := get_opt details (lit "detail") in
      Ok (msg_exhausted_prefix ++
          (if truthy detail
           then match detail with VStr s => s | v => ToString eng v end
           else lit "Payment Required"))
  end.

Definition MAX_RETRY_ATTEMPTS : nat := 3.

(* 超过最大重试次数 3 *)
Definition msg_max_retries : jsstring :=
  [36229; 36807; 26368; 22823; 37325; 35797; 27425; 25968; 32; 51].

(** [sendRequest(key, retryAttempt)].  The recursion is bounded by
    [MAX_RETRY_ATTEMPTS + 1 - retryAttempt], which [budget] stands for: a
    call with [budget > MAX_RETRY_ATTEMPTS - retryAttempt] never reaches
    the case [budget = 0].  The result pairs the response with the
    credential that obtained it (the variable [apiKey] of the route). *)
Fixpoint sendRequest_rec (budget : nat) (env : Env)
    (cfg : option KeyPoolConfig) (k : jsstring) (retryAttempt : nat)
    : M (Response * jsstring) :=
  if (MAX_RETRY_ATTEMPTS <? retryAttempt)%nat
  then throw (Error msg_max_retries)
  else
    match budget with
    | O => throw (Error msg_max_retries)
    | S budget' =>
        resp <- fetch_upstream env k ;;
        if resp_ok resp then ret (resp, k) else
        errorData <- lift (json_of resp) ;;
        isExhausted <- lift (isKeyExhausted (resp_status resp) errorData) ;;
        if isExhausted : bool then
          reason <- lift (disable_reason (env_engine env) errorData) ;;
          disableKey (env_clock env) k reason ;;;
          newApiKey <-
            try_catch (retryWithFreshKey (env_clock env) cfg k)
              (fun retryError =>
                 throw (Error (exn_message (env_engine env) retryError))) ;;
          sendRequest_rec budget' env cfg newApiKey (S retryAttempt)
        else ret (resp, k)
    end.

Definition sendRequest (env : Env) (cfg : option KeyPoolConfig)
    (k : jsstring) : M (Response * jsstring) :=
  sendRequest_rec (S MAX_RETRY_ATTEMPTS) env cfg k 0.

(** [v ?? d]. *)
Definition nullish_or (v d : value) : value :=
  match v with
  | VUndefined | VNull => d
  | _ => v
  end.

Fixpoint map_res {A B} (f : A -> Res B) (l : list A) : Res (list B) :=
  match l with
  | [] => Ok []
  | x :: rest =>
      match f x with
      | Throw e => Throw e
      | Ok y =>
          match map_res f rest with
          | Throw e => Throw e
          | Ok ys => Ok (y :: ys)
          end
      end
  end.

(** The rewrite of [data.choices] in a buffered response. *)
Definition transform_response (bodyModel : jsstring) (data : value)
    : Res value :=
  match get_prop data (lit "choices") with
  | Throw e => Throw e
  | Ok (VArr elems _) =>
      match map_res (transformChoice (isSpecialThinkingModel bodyModel)) elems with
      | Throw e => Throw e
      | Ok elems' => set_prop data (lit "choices") (VArr elems' [])
      end
  | Ok _ => Ok data
  end.

(** The block [if (data.usage) { ... }] of a buffered response: the data
    with the three camel-case counters added, and the counters to record,
    if any. *)
Definition response_usage (data : value) : Res (value * option Usage) :=
  match get_prop data (lit "usage") with
  | Throw e => Throw e
  | Ok u =>
      if negb (truthy u) then Ok (data, None) else
      let total := nullish_or (get_opt u (lit "total_tokens")) (VNum 0) in
      let prompt := nullish_or (get_opt u (lit "prompt_tokens")) (VNum 0) in
      let completion := nullish_or (get_opt u (lit "completion_tokens")) (VNum 0) in
      match set_prop u (lit "totalTokens") total with
      | Throw e => Throw e
      | Ok u1 =>
          match set_prop u1 (lit "promptTokens") prompt with
          | Throw e => Throw e
          | Ok u2 =>
              match set_prop u2 (lit "completionTokens") completion with
              | Throw e => Throw e
              | Ok u3 =>
                  match set_prop data (lit "usage") u3 with
                  | Throw e => Throw e
                  | Ok data' =>
                      Ok (data', Some (mkUsage (counter total) (counter prompt)
                                         (counter completion)))
                  end
              end
          end
      end
  end.

Definition text_response (status : Z) (text : string) : ClientResponse :=
  mkClientResponse status (BodyText (lit text)).

(** The route after a credential has been acquired: dispatch with retry,
    then the error transformer or the response transformer. *)
Definition dispatch (env : Env) (cfg : option KeyPoolConfig)
    (bodyModel : jsstring) (isStream : bool) (apiKey : jsstring)
    : M ClientResponse :=
  sent <-
    try_catch
      (r <- sendRequest env cfg apiKey ;; ret (inl r))
      (fun sendError =>
         ret (inr (mkClientResponse 503
                     (BodyJson (VObj [(lit "error",
                        VStr (exn_message (env_engine env) sendError))]))))) ;;
  match sent with
  | inr failed => ret failed
  | inl (response, apiKey') =>
      if negb (resp_ok response) then
        err <- lift (json_of response) ;;
        t <- lift (transformError err (resp_status response)
                     defaultTransformConfig) ;;
        ret (mkClientResponse (snd t) (BodyJson (fst t)))
      else if isStream then
        match resp_body response with
        | None => ret (text_response 500 "No response stream available")
        | Some chunks =>
            let '(out, st) :=
              transform_chunks (env_engine env) bodyModel
                (stream_start bodyModel) chunks in
            updateKeyStats apiKey'
              (mkUsage (s_totalTokens st) (s_promptTokens st)
                 (s_completionTokens st)) ;;;
            ret (mkClientResponse 200 (BodyStream (out ++ flush_chunk st)))
        end
      else
        data <- lift (json_of response) ;;
        data1 <- lift (transform_response bodyModel data) ;;
        du <- lift (response_usage data1) ;;
        (match snd du with
         | Some u => updateKeyStats apiKey' u
         | None => ret tt
         end) ;;;
        ret (mkClientResponse 200 (BodyJson (fst du)))
  end.

(** The handler of [POST /chat/completions] from the validation on, for
    a body read at its declared type; [post_chat_completions] below puts
    the reading of the body before it. *)
Definition chat_completions (env : Env) (cfg : option KeyPoolConfig)
    (body : ChatCompletionRequest) : M ClientResponse :=
  try_catch
    (match messages body with
     | None | Some [] =>
         ret (text_response 400 "Messages array is required and cannot be empty")
     | Some msgs =>
         match model body with
         | None | Some [] => ret (text_response 400 "Model field is required")
         | Some bodyModel =>
             chatTokens <- lift (encodeChat env (map chat_message msgs)) ;;
             if 128000 <? Z.of_nat (length chatTokens) then
               ret (text_response 400
                      "Input exceeds maximum token limit of 128000")
             else
               acquired <-
                 try_catch
                   (k <- getKey (env_clock env) cfg None ;; ret (inl k))
                   (fun e =>
                      ret (inr (mkClientResponse 429
                                  (BodyText (exn_message (env_engine env) e))))) ;;
               match acquired with
               | inr failed => ret failed
               | inl apiKey =>
                   dispatch env cfg bodyModel (default false (stream body)) apiKey
               end
         end
     end)
    (fun e =>
       ret (mkClientResponse 500
              (BodyText (lit "Internal server error: "
                         ++ exn_message (env_engine env) e)))).

(** An adjacent pair of equal elements is absent from the list. *)
Fixpoint adjacent_distinct (l : list jsstring) : Prop :=
  match l with
  | a :: ((b :: _) as rest) => a <> b /\ adjacent_distinct rest
  | _ => True
  end.

(** ** Sample surroundings, used to run the route *)

Definition sample_engine : Engine :=
  mkEngine (fun _ => Throw SyntaxError) (fun _ => []) (fun _ => [])
    (fun _ => false) (fun _ => lit "runtime error").

(** 402 with [{"details": {"detail": "You have exhausted your budget"}}]. *)
Definition exhausted_body : value :=
  VObj [(lit "details",
         VObj [(lit "detail", VStr (lit "You have exhausted your budget"))])].

Definition exhausted_response : Response :=
  mkResponse 402 (Some exhausted_body) None.

(** 500 with [{"requestId": "r1"}]. *)
Definition server_error_body : value :=
  VObj [(lit "requestId", VStr (lit "r1"))].

Definition server_error_response : Response :=
  mkResponse 500 (Some server_error_body) None.

(** 502 with a body that is not JSON. *)
Definition bad_gateway_response : Response := mkResponse 502 None None.

(** 500 with the JSON body [null]. *)
Definition null_error_response : Response := mkResponse 500 (Some VNull) None.

(** A tokenizer of 64001 tokens per message. *)
Definition sample_tokenizer (msgs : list ChatMessage) : Res (list Z) :=
  Ok (replicate (Z.to_nat (64001 * Z.of_nat (length msgs))) 0).

(** The first upstream call hits an exhausted budget, the later ones a
    server error. *)
Definition sample_env : Env :=
  mkEnv sample_clock sample_engine
    (fun i _ => match i with
                | O => Ok exhausted_response
                | S _ => Ok server_error_response
                end)
    sample_tokenizer.

(** Every upstream call answers the same. *)
Definition constant_env (resp : Response) : Env :=
  mkEnv sample_clock sample_engine (fun _ _ => Ok resp) sample_tokenizer.

(** A and B enabled and below their limits, A used longest ago. *)
Definition sample_world_two : World :=
  mkWorld (<[lit "A" := sample_key "A" 2 1 0 1 true]>
             (<[lit "B" := sample_key "B" 2 0 0 5 true]> ∅)) 0 [].

Definition sample_message_user : Message :=
  mkMessage (lit "user") (ContentText (lit "hello")) None.

(** The bytes of the frame [: é] with its terminator; the letter takes
    the two bytes 195 and 169. *)
Definition sample_frame : list Z := [58; 32; 195; 169; 10; 10].

(** The bytes of a text in the ASCII range. *)
Definition ascii_bytes (chunk : list Z) : Prop :=
  Forall (fun c => 0 <= c <= 127) chunk.

(* ================================================================= *)
(** * Further definitions *)

(** ** Statements about the pool *)

(** The field an algorithm compares; an algorithm it does not know
    compares nothing. *)
Definition metric (alg : jsstring) (v : ApiKey) : Z :=
  if jsstring_eqb alg (lit "round-robin") then lastUsed (usage v)
  else if jsstring_eqb alg (lit "least-used") then totalRequests (usage v)
  else if jsstring_eqb alg (lit "token-balanced") then totalTokens (usage v)
  else 0.

(** ** Statements about a request *)

(** The records stored under the given identifiers, if any, are
    disabled. *)
Definition all_disabled (p : gmap jsstring ApiKey) (ids : list jsstring)
    : Prop :=
  forall t, t ∈ ids -> forall v, p !! t = Some v -> enabled v = false.

(** The status is that of an upstream answer outside 200 to 299. *)
Definition relayed (env : Env) (status : Z) : Prop :=
  exists i k up, fetch env i k = Ok up /\ resp_ok up = false /\
                 status = resp_status up.

(** 200 with [{"usage": {"total_tokens": 7, "prompt_tokens": 3,
    "completion_tokens": 4}}]. *)
Definition usage_fields : list (jsstring * value) :=
  [(lit "total_tokens", VNum 7); (lit "prompt_tokens", VNum 3);
   (lit "completion_tokens", VNum 4)].

Definition usage_body : list (jsstring * value) :=
  [(lit "usage", VObj usage_fields)].

Definition usage_response : Response :=
  mkResponse 200 (Some (VObj usage_body)) None.

Definition sample_request : ChatCompletionRequest :=
  mkRequest (Some [sample_message_user]) (Some (lit "m")) None.

(** ** Authentication (middleware/auth.ts, config/constants.ts) *)

(** [s.replace(p, "")] for a string pattern [p]: the first occurrence of
    [p] is removed. *)
Definition replace_empty (p s : jsstring) : jsstring :=
  match indexOf p s with
  | None => s
  | Some i => take i s ++ drop (i + length p) s
  end.

(** [Deno.env.get('RELAY_API_KEY') ?? 'your_fixed_api_key_here']. *)
Definition API_KEY (relay_api_key : option jsstring) : jsstring :=
  default (lit "your_fixed_api_key_here") relay_api_key.

(* 无效的密钥，访问被拒绝 *)
Definition msg_invalid_key : jsstring :=
  [26080; 25928; 30340; 23494; 38053; 65292; 35775; 38382; 34987; 25298;
   32477].

(** [apiKeyMiddleware], for the configured key and the [Authorization]
    header of the request: [None] stands for the call of [next], a
    response for the rejection. *)
Definition apiKeyMiddleware (apiKey : jsstring) (authHeader : option jsstring)
    : option ClientResponse :=
  let providedKey := replace_empty (lit "Bearer ") <$> authHeader in
  match providedKey with
  | Some k =>
      if jsstring_eqb k apiKey then None
      else Some (mkClientResponse 403 (BodyText msg_invalid_key))
  | None => Some (mkClientResponse 403 (BodyText msg_invalid_key))
  end.

(** ** The configuration and the admin routes (services/keyPool.ts,
       routes/admin.ts) *)

(** [redis.del] on the pool namespace. *)
Definition redis_del (k : jsstring) : M unit :=
  fun w => (Ok tt, mkWorld (delete k (pool w)) (ticks w) (fetched w)).

(** [c.json({ error: text }, status)] and [c.json({ message: text })]. *)
Definition json_error (status : Z) (text : string) : ClientResponse :=
  mkClientResponse status (BodyJson (VObj [(lit "error", VStr (lit text))])).

Definition json_message (text : string) : ClientResponse :=
  mkClientResponse 200 (BodyJson (VObj [(lit "message", VStr (lit text))])).

(** [PUT /admin/keys/:key].  [body] is what [c.req.json()] gives: a value,
    or an exception when the request body is not JSON. *)
Definition put_key (keyId : jsstring) (body : Res value) : M ClientResponse :=
  try_catch
    (b <- lift body ;;
     rpm_arg <- lift (get_prop b (lit "rpm")) ;;
     enabled_arg <- lift (get_prop b (lit "enabled")) ;;
     keyData <- redis_get keyId ;;
     match keyData with
     | None => ret (json_error 404 "Key not found")
     | Some d =>
         let d1 :=
           match rpm_arg with
           | VNum n =>
               mkApiKey (key d)
                 (mkRateLimit n (current (rateLimit d)) (lastReset (rateLimit d)))
                 (usage d) (algorithm d) (enabled d) (disabledReason d)
                 (disabledAt d)
           | _ => d
           end in
         let d2 :=
           match enabled_arg with
           | VBool e =>
               mkApiKey (key d1) (rateLimit d1) (usage d1) (algorithm d1) e
                 (disabledReason d1) (disabledAt d1)
           | _ => d1
           end in
         redis_set keyId d2 ;;;
         ret (json_message "Key updated successfully")
     end)
    (fun _ => ret (json_error 500 "Failed to update key")).

(** [DELETE /admin/keys/:key]. *)
Definition delete_key (keyId : jsstring) : M ClientResponse :=
  keyData <- redis_get keyId ;;
  match keyData with
  | None => ret (json_error 404 "Key not found")
  | Some _ =>
      redis_del keyId ;;;
      ret (json_message "Key deleted successfully")
  end.

(** What the service keeps beside the pool: the entry [<prefix>:config]
    of the store and the copy of it that [initialize] leaves in the
    manager ([this.config]), which [getKey], [retryWithFreshKey] and
    [addKey] read. *)
Record Service := mkService {
  stored_config : option KeyPoolConfig;
  manager_config : option KeyPoolConfig;
  world : World
}.

(** [initialize()], as main.ts calls it.  The timer it starts runs
    [resetRateLimits]. *)
Definition initialize (s : Service) : Service :=
  let cfg :=
    match stored_config s with
    | Some configRes => configRes
    | None => mkKeyPoolConfig (lit "round-robin") 60
    end in
  mkService (Some cfg) (Some cfg) (world s).



(** [["round-robin", "least-used", "token-balanced"].includes(v)]. *)
Definition known_algorithm (v : value) : option jsstring :=
  match v with
  | VStr a =>
      if jsstring_eqb a (lit "round-robin") || jsstring_eqb a (lit "least-used")
         || jsstring_eqb a (lit "token-balanced")
      then Some a else None
  | _ => None
  end.

(** [PUT /admin/config]. *)
Definition put_config (body : Res value) (s : Service)
    : ClientResponse * Service :=
  let failed := (json_error 500 "Failed to update configuration", s) in
  match body with
  | Throw _ => failed
  | Ok b =>
      match get_prop b (lit "currentAlgorithm"), get_prop b (lit "defaultRpm") with
      | Ok currentAlgorithm_arg, Ok defaultRpm_arg =>
          match stored_config s with
          | None => (json_error 404 "Configuration not found", s)
          | Some configRes =>
              let with_rpm (c : KeyPoolConfig) :=
                match defaultRpm_arg with
                | VNum n =>
                    if 0 <? n then mkKeyPoolConfig (currentAlgorithm c) n else c
                | _ => c
                end in
              let store (c : KeyPoolConfig) :=
                (json_message "Configuration updated successfully",
                 mkService (Some (with_rpm c)) (manager_config s) (world s)) in
              if truthy currentAlgorithm_arg then
                match known_algorithm currentAlgorithm_arg with
                | None => (json_error 400 "Invalid algorithm", s)
                | Some a => store (mkKeyPoolConfig a (defaultRpm configRes))
                end
              else store configRes
          end
      | _, _ => failed
      end
  end.

(** A configuration the admin route would accept. *)
Definition config_valid (c : KeyPoolConfig) : Prop :=
  (currentAlgorithm c = lit "round-robin" \/
   currentAlgorithm c = lit "least-used" \/
   currentAlgorithm c = lit "token-balanced") /\ 0 < defaultRpm c.

(** A record as [addKey] writes it. *)
Definition fresh_record (k : jsstring) (v : ApiKey) : Prop :=
  key v = k /\ enabled v = true /\ usage v = mkKeyUsage 0 0 0 0 0 /\
  current (rateLimit v) = 0 /\ disabledReason v = None /\ disabledAt v = None.

(** ** The chat-completions route from the body of the request *)

(** What [await c.req.json()] resolves to: [null], or a value read at the
    declared type [ChatCompletionRequest]; a number, string, boolean or
    array has none of the fields and reads as a request without them.
    The call rejects when the body is not JSON. *)
Inductive JsonBody :=
| JsonNull
| JsonRequest (r : ChatCompletionRequest).

(** The handler as the router calls it.  The reading of the body and the
    filling of the request log ([body.stream ?? false], which throws on
    [null]) stand in the same [try] block as the rest, so their
    exceptions reach the same [catch]. *)
Definition post_chat_completions (env : Env) (cfg : option KeyPoolConfig)
    (body : Res JsonBody) : M ClientResponse :=
  try_catch
    (b <- lift body ;;
     match b with
     | JsonNull => throw TypeError
     | JsonRequest r => chat_completions env cfg r
     end)
    (fun e =>
       ret (mkClientResponse 500
              (BodyText (lit "Internal server error: "
                         ++ exn_message (env_engine env) e)))).
(* ================================================================= *)
(** * Properties *)

(** ** Facts about the sort and the selection *)

Lemma sort_insert_elem {A} (cmp : A -> A -> Z) (x y : A) (l : list A) :
  y ∈ sort_insert cmp x l <-> y = x \/ y ∈ l.
Proof.
  induction l as [|z l IH]; simpl.
  - rewrite list_elem_of_singleton, elem_of_nil. tauto.
  - destruct (cmp x z <=? 0).
    + rewrite !elem_of_cons. tauto.
    + rewrite !elem_of_cons, IH. tauto.
Qed.

Lemma sort_elem {A} (cmp : A -> A -> Z) (y : A) (l : list A) :
  y ∈ sort cmp l <-> y ∈ l.
Proof.
  induction l as [|x l IH]; simpl; [done|].
  rewrite sort_insert_elem, elem_of_cons, IH. tauto.
Qed.

Lemma sort_nonempty {A} (cmp : A -> A -> Z) (l : list A) :
  l <> [] -> sort cmp l <> [].
Proof.
  destruct l as [|x l]; [done|]. intros _ Hs.
  assert (x ∈ sort cmp (x :: l)) as Hx by (apply sort_elem; left).
  rewrite Hs in Hx. by apply not_elem_of_nil in Hx.
Qed.

Lemma head_elem {A} (l : list A) (x : A) : head l = Some x -> x ∈ l.
Proof. destruct l; simpl; [done|]. intros [= ->]. left. Qed.

Lemma select_elem alg l k : select alg l = Some k -> k ∈ l.
Proof.
  unfold select.
  repeat case_match; intros Hh; apply head_elem in Hh;
    rewrite ?sort_elem in Hh; done.
Qed.

Lemma select_nonempty alg l : l <> [] -> is_Some (select alg l).
Proof.
  intros Hl. unfold select.
  repeat case_match; apply head_is_Some; try apply sort_nonempty; done.
Qed.

Lemma listKeys_elem (p : gmap jsstring ApiKey) (v : ApiKey) :
  v ∈ (map_to_list p).*2 <-> exists k, p !! k = Some v.
Proof.
  rewrite list_elem_of_fmap. split.
  - intros [[k v'] [-> Hkv]]. exists k. by apply elem_of_map_to_list.
  - intros [k Hkv]. exists (k, v). split; [done|]. by apply elem_of_map_to_list.
Qed.

Lemma listKeys_nil (p : gmap jsstring ApiKey) :
  (map_to_list p).*2 = [] <-> p = ∅.
Proof.
  rewrite <- map_to_list_empty_iff. split.
  - apply fmap_nil_inv.
  - by intros ->.
Qed.

(** ** Selection from the pool *)

Lemma enabledKeys_elem (p : gmap jsstring ApiKey) (v : ApiKey) :
  v ∈ enabledKeys_of p <-> enabled v = true /\ exists k, p !! k = Some v.
Proof.
  unfold enabledKeys_of. by rewrite list_elem_of_filter, listKeys_elem.
Qed.

Lemma getKey_unfold ck cfg w :
  pool w <> ∅ -> enabledKeys_of (pool w) <> [] ->
  getKey ck cfg None w =
  take_key ck msg_select_failed msg_rate_limit
    (select (algorithm_of cfg) (enabledKeys_of (pool w))) w.
Proof.
  intros Hne Hen. unfold getKey, bind, listKeys at 1. simpl.
  fold (enabledKeys_of (pool w)).
  destruct ((map_to_list (pool w)).*2) eqn:Hl.
  - by apply listKeys_nil in Hl.
  - by destruct (enabledKeys_of (pool w)).
Qed.

Lemma take_key_ok ck m1 m2 sel w id w' :
  take_key ck m1 m2 sel w = (Ok id, w') ->
  exists k, sel = Some k /\ key k = id /\
    current (rateLimit k) < rpm (rateLimit k) /\
    w' = mkWorld (<[key k := mark_used (clock ck (ticks w)) k]> (pool w))
           (S (ticks w)) (fetched w).
Proof.
  unfold take_key. destruct sel as [k|]; [|done].
  destruct (current (rateLimit k) >=? rpm (rateLimit k)) eqn:Hc; [done|].
  unfold bind, date_now, redis_set, ret; simpl. intros [= <- <-].
  exists k. repeat split; try done. rewrite Z.geb_leb in Hc. lia.
Qed.

(** C1 (amended). Called without an explicit key, [getKey] never returns
    a disabled credential: an empty store gives the pool-empty error, a
    store with no enabled record gives the none-enabled error, and every
    identifier returned is that of a record of the store with
    [enabled = true].  When enabled records exist the outcome is decided
    by the one the configured algorithm selects among them: at its limit
    ([current >= rpm]) the call fails with the rate-limit error, whether
    or not another enabled record has room, and below its limit the call
    returns the identifier of that record. *)
Theorem getKey_never_disabled (ck : Clock) (cfg : option KeyPoolConfig)
    (w : World) :
  (pool w = ∅ -> getKey ck cfg None w = (Throw (Error msg_no_keys), w)) /\
  (pool w <> ∅ ->
   (forall k v, pool w !! k = Some v -> enabled v = false) ->
   getKey ck cfg None w = (Throw (Error msg_none_enabled), w)) /\
  (forall id w', getKey ck cfg None w = (Ok id, w') ->
   exists k v, pool w !! k = Some v /\ enabled v = true /\ key v = id) /\
  (pool w <> ∅ ->
   (exists k v, pool w !! k = Some v /\ enabled v = true) ->
   exists chosen k,
     select (algorithm_of cfg) (enabledKeys_of (pool w)) = Some chosen /\
     pool w !! k = Some chosen /\ enabled chosen = true /\
     (rpm (rateLimit chosen) <= current (rateLimit chosen) ->
      getKey ck cfg None w = (Throw (Error msg_rate_limit), w)) /\
     (current (rateLimit chosen) < rpm (rateLimit chosen) ->
      exists w', getKey ck cfg None w = (Ok (key chosen), w'))).
Proof.
  assert (Hempty : pool w = ∅ ->
            getKey ck cfg None w = (Throw (Error msg_no_keys), w)).
  { intros He. unfold getKey, bind, listKeys. simpl.
    by rewrite (proj2 (listKeys_nil _) He). }
  assert (Hnone : pool w <> ∅ -> enabledKeys_of (pool w) = [] ->
            getKey ck cfg None w = (Throw (Error msg_none_enabled), w)).
  { intros Hne Hen. unfold getKey, bind, listKeys. simpl.
    fold (enabledKeys_of (pool w)). rewrite Hen.
    destruct ((map_to_list (pool w)).*2) eqn:Hl; [|done].
    by apply listKeys_nil in Hl. }
  assert (Hsel : pool w <> ∅ -> enabledKeys_of (pool w) <> [] ->
            exists v, select (algorithm_of cfg) (enabledKeys_of (pool w)) = Some v /\
              enabled v = true /\ (exists k, pool w !! k = Some v) /\
              getKey ck cfg None w =
              take_key ck msg_select_failed msg_rate_limit (Some v) w).
  { intros Hne Hen.
    destruct (select_nonempty (algorithm_of cfg) _ Hen) as [v Hv].
    exists v. split; [done|].
    pose proof (select_elem _ _ _ Hv) as Hin.
    apply enabledKeys_elem in Hin as [He Hk].
    repeat split; try done. by rewrite getKey_unfold, Hv. }
  split; [done|]. split; [|split].
  - intros Hne Hall. apply Hnone; [done|].
    destruct (decide (enabledKeys_of (pool w) = [])) as [Hl|Hl]; [done|].
    destruct (enabledKeys_of (pool w)) as [|v l] eqn:Hl'; [done|].
    assert (v ∈ enabledKeys_of (pool w)) as Hin by (rewrite Hl'; left).
    apply enabledKeys_elem in Hin as [He [k Hk]].
    rewrite (Hall _ _ Hk) in He. done.
  - intros id w' Hok.
    destruct (decide (pool w = ∅)) as [He|Hne].
    { rewrite (Hempty He) in Hok. done. }
    destruct (decide (enabledKeys_of (pool w) = [])) as [Hl|Hl].
    { rewrite (Hnone Hne Hl) in Hok. done. }
    destruct (Hsel Hne Hl) as (v & _ & He & [k Hk] & Hg).
    rewrite Hg in Hok.
    apply take_key_ok in Hok as (v' & [= <-] & Hid & _).
    by exists k, v.
  - intros Hne (k0 & v0 & Hk0 & He0).
    destruct (Hsel Hne) as (v & Hv & He & [k Hk] & Hg).
    { intros Hnil.
      assert (v0 ∈ enabledKeys_of (pool w)) as Hin
        by (apply enabledKeys_elem; eauto).
      rewrite Hnil in Hin. by apply not_elem_of_nil in Hin. }
    exists v, k. split; [done|]. split; [done|]. split; [done|].
    rewrite Hg. unfold take_key. split.
    + intros Hlim.
      destruct (current (rateLimit v) >=? rpm (rateLimit v)) eqn:Hc; [done|].
      rewrite Z.geb_leb in Hc. apply Z.leb_gt in Hc. lia.
    + intros Hroom.
      destruct (current (rateLimit v) >=? rpm (rateLimit v)) eqn:Hc.
      { rewrite Z.geb_leb in Hc. apply Z.leb_le in Hc. lia. }
      unfold bind, date_now, redis_set, ret; simpl. by eexists.
Qed.

Lemma getKey_never_disabled_witness :
  getKey sample_clock None None sample_world_empty
    = (Throw (Error msg_no_keys), sample_world_empty) /\
  getKey sample_clock None None sample_world_disabled
    = (Throw (Error msg_none_enabled), sample_world_disabled) /\
  (exists k v,
     pool sample_world !! k = Some v /\ enabled v = true /\ key v = lit "A") /\
  (exists chosen w',
     select (algorithm_of None) (enabledKeys_of (pool sample_world_two))
       = Some chosen /\
     current (rateLimit chosen) < rpm (rateLimit chosen) /\
     getKey sample_clock None None sample_world_two = (Ok (key chosen), w')).
Proof.
  assert (Hne : forall p (k : jsstring) (v : ApiKey),
            p !! k = Some v -> p <> (∅ : gmap jsstring ApiKey)).
  { intros p k v Hk ->. by rewrite lookup_empty in Hk. }
  split; [|split; [|split]].
  - exact (proj1 (getKey_never_disabled sample_clock None sample_world_empty)
             eq_refl).
  - apply (proj1 (proj2
             (getKey_never_disabled sample_clock None sample_world_disabled))).
    + exact (Hne (pool sample_world_disabled) (lit "B")
               (sample_key "B" 2 0 0 1 false) eq_refl).
    + intros k v. simpl. rewrite lookup_insert. case_decide.
      * by intros [= <-].
      * by rewrite lookup_empty.
  - eapply (proj1 (proj2 (proj2
             (getKey_never_disabled sample_clock None sample_world)))).
    vm_compute. reflexivity.
  - destruct (proj2 (proj2 (proj2
               (getKey_never_disabled sample_clock None sample_world_two)))
               (Hne (pool sample_world_two) (lit "A")
                  (sample_key "A" 2 1 0 1 true) eq_refl)
               (ex_intro _ (lit "A")
                  (ex_intro _ (sample_key "A" 2 1 0 1 true)
                     (conj eq_refl eq_refl))))
      as (chosen & k & Hsel & Hk & Hen & _ & Hroom).
    pose proof Hsel as Hc. vm_compute in Hc. injection Hc as <-.
    destruct (Hroom ltac:(simpl; lia)) as [w' Hrun].
    exists (sample_key "A" 2 1 0 1 true), w'.
    split; [done|]. split; [simpl; lia|done].
Defined.

(** The claim as first stated fails: in a store whose enabled record B
    is below its limit, [getKey] returns no credential, because the
    record the algorithm selects, A, is at its limit. *)
Lemma getKey_never_disabled_counterexample :
  pool sample_world_limited <> ∅ /\
  (exists v,
     pool sample_world_limited !! lit "B" = Some v /\ enabled v = true /\
     current (rateLimit v) < rpm (rateLimit v)) /\
  getKey sample_clock None None sample_world_limited
    = (Throw (Error msg_rate_limit), sample_world_limited) /\
  ~ (exists id w',
       getKey sample_clock None None sample_world_limited = (Ok id, w')).
Proof.
  split; [|split; [|split]].
  - intros He.
    pose proof (lookup_empty (lit "A")
                : (∅ : gmap jsstring ApiKey) !! lit "A" = None) as Hl.
    rewrite <- He in Hl. vm_compute in Hl. discriminate Hl.
  - exists (sample_key "B" 2 0 0 5 true). split; [reflexivity|].
    split; [reflexivity|simpl; lia].
  - reflexivity.
  - intros (id & w' & Hrun). vm_compute in Hrun. discriminate Hrun.
Qed.

(** ** Rate limiting at selection *)

Lemma select_nil alg : select alg [] = None.
Proof. unfold select. by repeat case_match. Qed.

(** C4. When the credential chosen by the configured algorithm has
    [current >= rpm], [getKey] fails with the rate-limit error and leaves
    the world as it was, so no other credential is taken in its place;
    otherwise it returns the chosen identifier, and the store then holds,
    under that identifier, the chosen record with [current] and
    [totalRequests] one higher, [lastUsed] set to the clock reading, and
    every other field as before. *)
Theorem getKey_rate_limit (ck : Clock) (cfg : option KeyPoolConfig)
    (w : World) (chosen : ApiKey) :
  select (algorithm_of cfg) (enabledKeys_of (pool w)) = Some chosen ->
  (rpm (rateLimit chosen) <= current (rateLimit chosen) ->
   getKey ck cfg None w = (Throw (Error msg_rate_limit), w)) /\
  (current (rateLimit chosen) < rpm (rateLimit chosen) ->
   exists stored,
     getKey ck cfg None w =
       (Ok (key chosen),
        mkWorld (<[key chosen := stored]> (pool w)) (S (ticks w)) (fetched w)) /\
     current (rateLimit stored) = current (rateLimit chosen) + 1 /\
     totalRequests (usage stored) = totalRequests (usage chosen) + 1 /\
     lastUsed (usage stored) = clock ck (ticks w) /\
     key stored = key chosen /\
     rpm (rateLimit stored) = rpm (rateLimit chosen) /\
     lastReset (rateLimit stored) = lastReset (rateLimit chosen) /\
     totalTokens (usage stored) = totalTokens (usage chosen) /\
     promptTokens (usage stored) = promptTokens (usage chosen) /\
     completionTokens (usage stored) = completionTokens (usage chosen) /\
     algorithm stored = algorithm chosen /\
     enabled stored = enabled chosen /\
     disabledReason stored = disabledReason chosen /\
     disabledAt stored = disabledAt chosen).
Proof.
  intros Hsel.
  assert (Hen : enabledKeys_of (pool w) <> []).
  { intros Hnil. rewrite Hnil, select_nil in Hsel. done. }
  assert (Hne : pool w <> ∅).
  { intros He. apply Hen. unfold enabledKeys_of.
    by rewrite (proj2 (listKeys_nil _) He). }
  rewrite (getKey_unfold ck cfg w Hne Hen), Hsel. unfold take_key.
  split.
  - intros Hge.
    destruct (current (rateLimit chosen) >=? rpm (rateLimit chosen)) eqn:Hc;
      [done|]. rewrite Z.geb_leb in Hc. lia.
  - intros Hlt.
    destruct (current (rateLimit chosen) >=? rpm (rateLimit chosen)) eqn:Hc.
    { rewrite Z.geb_leb in Hc. lia. }
    exists (mark_used (clock ck (ticks w)) chosen).
    repeat split.
Qed.

Lemma getKey_rate_limit_witness :
  (exists other,
     pool sample_world_limited !! lit "B" = Some other /\
     enabled other = true /\
     current (rateLimit other) < rpm (rateLimit other) /\
     getKey sample_clock None None sample_world_limited
       = (Throw (Error msg_rate_limit), sample_world_limited)) /\
  (exists w' stored,
     getKey sample_clock None None sample_world = (Ok (lit "A"), w') /\
     pool w' !! lit "A" = Some stored /\
     current (rateLimit stored) = 1 /\
     totalRequests (usage stored) = 1 /\
     lastUsed (usage stored) = 100000).
Proof.
  split.
  - exists (sample_key "B" 2 0 0 5 true).
    split; [reflexivity|]. split; [reflexivity|]. split; [reflexivity|].
    apply (proj1 (getKey_rate_limit sample_clock None sample_world_limited
                    (sample_key "A" 2 2 0 1 true) eq_refl)).
    vm_compute. discriminate.
  - destruct (proj2 (getKey_rate_limit sample_clock None sample_world
                       (sample_key "A" 2 0 0 5 true) eq_refl))
      as (stored & Hg & Hc & Ht & Hl & _); [reflexivity|].
    eexists _, stored. split; [exact Hg|].
    split; [apply lookup_insert_eq|]. repeat split; assumption.
Defined.

(** ** Well-formed stores *)

Lemma pool_wf_empty : pool_wf ∅.
Proof. intros k v. by rewrite lookup_empty. Qed.

Lemma pool_wf_insert (p : gmap jsstring ApiKey) (v : ApiKey) :
  pool_wf p -> pool_wf (<[key v := v]> p).
Proof.
  intros Hwf k v'. rewrite lookup_insert. case_decide.
  - intros [= <-]. done.
  - apply Hwf.
Qed.

Lemma sample_world_wf : pool_wf (pool sample_world).
Proof.
  apply (pool_wf_insert _ (sample_key "A" 2 0 0 5 true)).
  apply (pool_wf_insert _ (sample_key "B" 2 0 0 1 false)).
  apply pool_wf_empty.
Qed.

Lemma sample_world_windows_wf : pool_wf (pool sample_world_windows).
Proof.
  apply (pool_wf_insert _ (sample_key "A" 2 2 0 1 true)).
  apply (pool_wf_insert _ (sample_key "B" 2 1 90000 5 true)).
  apply pool_wf_empty.
Qed.

(** Every operation of the manager keeps the store well formed. *)

Lemma take_key_wf ck m1 m2 sel w r w' :
  pool_wf (pool w) -> take_key ck m1 m2 sel w = (r, w') -> pool_wf (pool w').
Proof.
  intros Hwf. unfold take_key. destruct sel as [k|]; [|by intros [= _ <-]].
  destruct (_ >=? _); [by intros [= _ <-]|].
  unfold bind, date_now, redis_set, ret; simpl. intros [= _ <-]. simpl.
  by apply (pool_wf_insert _ (mark_used _ k)).
Qed.

Lemma getKey_wf ck cfg userKey w r w' :
  pool_wf (pool w) -> getKey ck cfg userKey w = (r, w') -> pool_wf (pool w').
Proof.
  intros Hwf. unfold getKey.
  assert (Hpool : (keys <- listKeys ;;
            match keys with
            | [] => throw (Error msg_no_keys)
            | _ =>
                match filter (fun k => enabled k = true) keys with
                | [] => throw (Error msg_none_enabled)
                | _ => take_key ck msg_select_failed msg_rate_limit
                         (select (algorithm_of cfg)
                            (filter (fun k => enabled k = true) keys))
                end
            end) w = (r, w') -> pool_wf (pool w')).
  { unfold bind, listKeys. simpl.
    destruct ((map_to_list (pool w)).*2); [by intros [= _ <-]|].
    destruct (filter _ _); [by intros [= _ <-]|]. by apply take_key_wf. }
  destruct userKey as [[|c u]|]; try exact Hpool. by intros [= _ <-].
Qed.

Lemma retryWithFreshKey_wf ck cfg k w r w' :
  pool_wf (pool w) -> retryWithFreshKey ck cfg k w = (r, w') ->
  pool_wf (pool w').
Proof.
  intros Hwf. unfold retryWithFreshKey, bind, listKeys. simpl.
  destruct (filter _ _); [by intros [= _ <-]|]. by apply take_key_wf.
Qed.

Lemma addKey_wf ck cfg k r w res w' :
  pool_wf (pool w) -> addKey ck cfg k r w = (res, w') -> pool_wf (pool w').
Proof.
  intros Hwf. unfold addKey, bind, date_now, redis_set. simpl.
  intros [= _ <-]. simpl.
  by apply (pool_wf_insert _ (mkApiKey k _ _ _ _ _ _)).
Qed.

Lemma disableKey_wf ck k reason w r w' :
  pool_wf (pool w) -> disableKey ck k reason w = (r, w') -> pool_wf (pool w').
Proof.
  intros Hwf. unfold disableKey, bind, redis_get, date_now, redis_set. simpl.
  destruct (pool w !! k) as [d|] eqn:Hk; simpl; intros [= _ <-]; [|done].
  simpl. rewrite <- (Hwf _ _ Hk) at 1.
  by apply (pool_wf_insert _ (mkApiKey (key d) _ _ _ _ _ _)).
Qed.

Lemma updateKeyStats_wf k u w r w' :
  pool_wf (pool w) -> updateKeyStats k u w = (r, w') -> pool_wf (pool w').
Proof.
  intros Hwf. unfold updateKeyStats, bind, redis_get, redis_set. simpl.
  destruct (pool w !! k) as [d|] eqn:Hk; simpl; intros [= _ <-]; [|done].
  simpl. rewrite <- (Hwf _ _ Hk) at 1.
  by apply (pool_wf_insert _ (mkApiKey (key d) _ _ _ _ _ _)).
Qed.

(** The head of the sort is a least element for the field compared. *)
Lemma sort_insert_head {A} (f : A -> Z) (x : A) (l : list A) (h : A) :
  head (sort_insert (fun a b => f a - f b) x l) = Some h ->
  (forall h0, head l = Some h0 -> forall y, y ∈ l -> f h0 <= f y) ->
  forall y, y ∈ x :: l -> f h <= f y.
Proof.
  destruct l as [|z l]; simpl.
  - intros [= <-] _ y Hy. apply list_elem_of_singleton in Hy as ->. lia.
  - intros Hh Hmin y Hy. specialize (Hmin z eq_refl).
    destruct (f x - f z <=? 0) eqn:Hc; simpl in Hh; injection Hh as <-.
    + apply Z.leb_le in Hc. apply elem_of_cons in Hy as [->|Hy]; [lia|].
      specialize (Hmin y Hy). lia.
    + apply Z.leb_gt in Hc. apply elem_of_cons in Hy as [->|Hy]; [lia|].
      by apply Hmin.
Qed.

Lemma sort_head_min {A} (f : A -> Z) (l : list A) (h : A) :
  head (sort (fun a b => f a - f b) l) = Some h ->
  forall y, y ∈ l -> f h <= f y.
Proof.
  revert h. induction l as [|x l IH]; intros h; simpl; [done|].
  intros Hh y Hy. eapply sort_insert_head in Hh; [exact Hh| |].
  - intros h0 Hh0 y0 Hy0. apply IH; [done|]. by apply sort_elem in Hy0.
  - apply elem_of_cons in Hy as [->|Hy]; [left|right]. by apply sort_elem.
Qed.

(** Under each of the three algorithms the record selected is least for
    the field the algorithm names. *)
Lemma select_least (cfg : option KeyPoolConfig) (l : list ApiKey)
    (chosen : ApiKey) :
  select (algorithm_of cfg) l = Some chosen ->
  forall y, y ∈ l ->
    (algorithm_of cfg = lit "round-robin" ->
     lastUsed (usage chosen) <= lastUsed (usage y)) /\
    (algorithm_of cfg = lit "least-used" ->
     totalRequests (usage chosen) <= totalRequests (usage y)) /\
    (algorithm_of cfg = lit "token-balanced" ->
     totalTokens (usage chosen) <= totalTokens (usage y)).
Proof.
  intros Hsel y Hy. unfold select, jsstring_eqb in Hsel.
  repeat split; intros Ha; rewrite Ha in Hsel; simpl in Hsel.
  - by apply (sort_head_min (fun k => lastUsed (usage k)) l chosen).
  - by apply (sort_head_min (fun k => totalRequests (usage k)) l chosen).
  - by apply (sort_head_min (fun k => totalTokens (usage k)) l chosen).
Qed.

(** ** The periodic sweep *)

(** What the sweep does to one record at time [now]. *)
Lemma reset_loop_lookup (now : Z) (l : list ApiKey) (w : World) :
  exists w', reset_loop now l w = (Ok tt, w') /\
    ticks w' = ticks w /\ fetched w' = fetched w /\
    (NoDup (key <$> l) ->
     forall k, pool w' !! k =
       match list_find (fun v => key v = k) l with
       | Some (_, v) =>
           if now - lastReset (rateLimit v) >=? 60000
           then Some (reset_window now v) else pool w !! k
       | None => pool w !! k
       end).
Proof.
  revert w. induction l as [|a l IH]; intros w.
  - exists w. by repeat split.
  - simpl. unfold bind at 1.
    set (step := if now - lastReset (rateLimit a) >=? 60000
                 then redis_set (key a) (reset_window now a) else ret tt).
    assert (exists w1, step w = (Ok tt, w1) /\ ticks w1 = ticks w /\
              fetched w1 = fetched w /\
              pool w1 = if now - lastReset (rateLimit a) >=? 60000
                        then <[key a := reset_window now a]> (pool w)
                        else pool w) as (w1 & Hs & Ht & Hf & Hp).
    { subst step. destruct (now - lastReset (rateLimit a) >=? 60000);
        eexists; repeat split. }
    rewrite Hs. destruct (IH w1) as (w' & Hr & Ht' & Hf' & Hl).
    exists w'. split; [done|]. split; [congruence|]. split; [congruence|].
    intros Hnd%NoDup_cons k. destruct Hnd as [Hnotin Hnd].
    rewrite (Hl Hnd k). clear Hl IH. cbn [list_find].
    destruct (decide (key a = k)) as [Hak|Hak].
    + simpl.
      destruct (list_find (fun v => key v = k) l) as [[i v]|] eqn:Hfind.
      { apply list_find_Some in Hfind as (Hi & Hv & _).
        exfalso. apply Hnotin. rewrite Hak, <- Hv.
        apply list_elem_of_fmap. exists v. split; [done|].
        by eapply list_elem_of_lookup_2. }
      rewrite Hp.
      destruct (now - lastReset (rateLimit a) >=? 60000); [|done].
      rewrite Hak. apply lookup_insert_eq.
    + assert (pool w1 !! k = pool w !! k) as ->.
      { rewrite Hp. destruct (now - lastReset (rateLimit a) >=? 60000); [|done].
        by rewrite lookup_insert_ne. }
      by destruct (list_find (fun v => key v = k) l) as [[i v]|].
Qed.

Lemma pool_wf_keys (p : gmap jsstring ApiKey) :
  pool_wf p -> key <$> (map_to_list p).*2 = (map_to_list p).*1.
Proof.
  intros Hwf. rewrite <- list_fmap_compose.
  apply list_fmap_ext. intros i [k v] Hi. simpl.
  apply Hwf. apply elem_of_map_to_list. by eapply list_elem_of_lookup_2.
Qed.

Lemma pool_wf_find (p : gmap jsstring ApiKey) (k : jsstring) :
  pool_wf p ->
  snd <$> list_find (fun v => key v = k) ((map_to_list p).*2) = p !! k.
Proof.
  intros Hwf.
  destruct (list_find _ _) as [[i v]|] eqn:Hfind; simpl.
  - apply list_find_Some in Hfind as (Hi & Hv & _).
    apply list_elem_of_lookup_2, listKeys_elem in Hi as [k' Hk'].
    rewrite <- Hv, (Hwf _ _ Hk'). done.
  - destruct (p !! k) as [v|] eqn:Hk; [|done].
    eapply list_find_None, Forall_forall in Hfind.
    + exfalso. apply Hfind. by apply Hwf in Hk.
    + apply listKeys_elem. by exists k.
Qed.

Lemma resetRateLimits_lookup (ck : Clock) (w : World) :
  pool_wf (pool w) ->
  exists w', resetRateLimits ck w = (Ok tt, w') /\
    ticks w' = S (ticks w) /\ fetched w' = fetched w /\
    forall k, pool w' !! k = sweep_record (clock ck (ticks w)) <$> pool w !! k.
Proof.
  intros Hwf. unfold resetRateLimits, bind, listKeys, date_now. simpl.
  destruct (reset_loop_lookup (clock ck (ticks w)) ((map_to_list (pool w)).*2)
              (mkWorld (pool w) (S (ticks w)) (fetched w)))
    as (w' & Hr & Ht & Hf & Hl).
  exists w'. repeat split; try done.
  intros k. rewrite Hl; simpl.
  - pose proof (pool_wf_find (pool w) k Hwf) as Hfind.
    destruct (list_find _ _) as [[i v]|]; simpl in Hfind; rewrite <- Hfind; simpl.
    + unfold sweep_record.
      destruct (clock ck (ticks w) - lastReset (rateLimit v) >=? 60000); [done|].
      done.
    + done.
  - rewrite (pool_wf_keys _ Hwf). apply NoDup_fst_map_to_list.
Qed.

Lemma sweep_record_key now v : key (sweep_record now v) = key v.
Proof. unfold sweep_record. by case_match. Qed.

(** C9. The sweep (run on a well-formed store, at clock reading [now])
    rewrites a record exactly when [now - lastReset >= 60000]: such a record
    gets [current = 0] and [lastReset = now] with its other fields kept,
    every other record and every absent identifier is left as it was; and
    a record reset by one sweep is left unchanged by the next sweep when
    less than 60000 ms separate the two. *)
Theorem resetRateLimits_window (ck : Clock) (w : World) :
  pool_wf (pool w) ->
  exists w',
    resetRateLimits ck w = (Ok tt, w') /\
    pool_wf (pool w') /\
    (forall k v, pool w !! k = Some v ->
     60000 <= clock ck (ticks w) - lastReset (rateLimit v) ->
     pool w' !! k =
       Some (mkApiKey (key v)
               (mkRateLimit (rpm (rateLimit v)) 0 (clock ck (ticks w)))
               (usage v) (algorithm v) (enabled v)
               (disabledReason v) (disabledAt v))) /\
    (forall k v, pool w !! k = Some v ->
     clock ck (ticks w) - lastReset (rateLimit v) < 60000 ->
     pool w' !! k = Some v) /\
    (forall k, pool w !! k = None -> pool w' !! k = None) /\
    (forall k v, pool w !! k = Some v ->
     60000 <= clock ck (ticks w) - lastReset (rateLimit v) ->
     clock ck (ticks w') - clock ck (ticks w) < 60000 ->
     exists w'', resetRateLimits ck w' = (Ok tt, w'') /\
       pool w'' !! k = pool w' !! k).
Proof.
  intros Hwf.
  destruct (resetRateLimits_lookup ck w Hwf) as (w' & Hr & Ht & Hf & Hl).
  assert (Hwf' : pool_wf (pool w')).
  { intros k v. rewrite Hl. destruct (pool w !! k) as [v0|] eqn:Hk; [|done].
    simpl. intros [= <-]. rewrite sweep_record_key. by apply Hwf. }
  assert (Hreset : forall k v, pool w !! k = Some v ->
            60000 <= clock ck (ticks w) - lastReset (rateLimit v) ->
            pool w' !! k = Some (reset_window (clock ck (ticks w)) v)).
  { intros k v Hk Hge. rewrite Hl, Hk. simpl. unfold sweep_record.
    destruct (_ >=? _) eqn:Hc; [done|]. rewrite Z.geb_leb in Hc. lia. }
  exists w'. split; [done|]. split; [done|]. split; [exact Hreset|].
  split; [|split].
  - intros k v Hk Hlt. rewrite Hl, Hk. simpl. unfold sweep_record.
    destruct (_ >=? _) eqn:Hc; [|done]. rewrite Z.geb_leb in Hc. lia.
  - intros k Hk. by rewrite Hl, Hk.
  - intros k v Hk Hge Hsoon.
    destruct (resetRateLimits_lookup ck w' Hwf') as (w'' & Hr' & _ & _ & Hl').
    exists w''. split; [done|].
    rewrite Hl', (Hreset k v Hk Hge). simpl. unfold sweep_record. simpl.
    destruct (_ >=? _) eqn:Hc; [|done]. rewrite Z.geb_leb in Hc. lia.
Qed.

Lemma resetRateLimits_window_witness :
  exists w' w'',
    resetRateLimits sample_clock sample_world_windows = (Ok tt, w') /\
    pool w' !! lit "A" = Some (sample_key "A" 2 0 100000 1 true) /\
    pool w' !! lit "B" = Some (sample_key "B" 2 1 90000 5 true) /\
    resetRateLimits sample_clock w' = (Ok tt, w'') /\
    pool w'' !! lit "A" = Some (sample_key "A" 2 0 100000 1 true).
Proof.
  destruct (resetRateLimits_window sample_clock sample_world_windows
              sample_world_windows_wf)
    as (w' & Hr & _ & Hreset & Hkeep & _ & Honce).
  assert (HA : pool w' !! lit "A" = Some (sample_key "A" 2 0 100000 1 true)).
  { apply (Hreset (lit "A") (sample_key "A" 2 2 0 1 true));
      [reflexivity | simpl; lia]. }
  destruct (Honce (lit "A") (sample_key "A" 2 2 0 1 true))
    as (w'' & Hr' & Hsame); [reflexivity | simpl; lia | |].
  { assert (ticks w' = 1%nat) as ->; [|simpl; lia].
    pose proof Hr as Hrun. vm_compute in Hrun.
    injection Hrun as Hw. by rewrite <- Hw. }
  exists w', w''. split; [exact Hr|]. split; [exact HA|]. split.
  - apply (Hkeep (lit "B") (sample_key "B" 2 1 90000 5 true));
      [reflexivity | simpl; lia].
  - split; [exact Hr'|]. rewrite Hsame. exact HA.
Defined.

(** ** Adding a credential *)

Lemma addKey_stores (ck : Clock) (cfg : option KeyPoolConfig) (w : World)
    (k : jsstring) (r : option Z) :
  exists w' v,
    addKey ck cfg k r w = (Ok tt, w') /\ pool w' !! k = Some v /\
    rpm (rateLimit v) = num_or r (num_or (defaultRpm <$> cfg) 60) /\
    key v = k /\ enabled v = true /\ current (rateLimit v) = 0.
Proof.
  unfold addKey, bind, date_now, redis_set. simpl.
  eexists _, _. split; [reflexivity|]. simpl.
  split; [apply lookup_insert_eq|]. repeat split.
Qed.

(** C10. [addKey] called with [rpm = 0] succeeds and stores the
    configuration's [defaultRpm] as the credential's [rpm] (the fallback
    tests falsiness); any other supplied number, negative ones included,
    is stored as given, so a supplied [rpm] is never checked for being
    positive. *)
Theorem addKey_zero_rpm (ck : Clock) (c : KeyPoolConfig) (w : World)
    (k : jsstring) :
  defaultRpm c <> 0 ->
  (exists w' v,
     addKey ck (Some c) k (Some 0) w = (Ok tt, w') /\
     pool w' !! k = Some v /\ rpm (rateLimit v) = defaultRpm c) /\
  (forall r, r <> 0 ->
   exists w' v,
     addKey ck (Some c) k (Some r) w = (Ok tt, w') /\
     pool w' !! k = Some v /\ rpm (rateLimit v) = r).
Proof.
  intros Hd. split.
  - destruct (addKey_stores ck (Some c) w k (Some 0))
      as (w' & v & Hrun & Hk & Hr & _).
    exists w', v. repeat split; try done.
    rewrite Hr. simpl. destruct (defaultRpm c =? 0) eqn:Hz; [|done].
    apply Z.eqb_eq in Hz. done.
  - intros r Hr0.
    destruct (addKey_stores ck (Some c) w k (Some r))
      as (w' & v & Hrun & Hk & Hr & _).
    exists w', v. repeat split; try done.
    rewrite Hr. simpl. destruct (r =? 0) eqn:Hz; [|done].
    apply Z.eqb_eq in Hz. done.
Qed.

Lemma addKey_zero_rpm_witness :
  (exists w' v,
     addKey sample_clock (Some (mkKeyPoolConfig (lit "round-robin") 60))
       (lit "C") (Some 0) sample_world = (Ok tt, w') /\
     pool w' !! lit "C" = Some v /\ rpm (rateLimit v) = 60) /\
  (exists w' v,
     addKey sample_clock (Some (mkKeyPoolConfig (lit "round-robin") 60))
       (lit "C") (Some (-5)) sample_world = (Ok tt, w') /\
     pool w' !! lit "C" = Some v /\ rpm (rateLimit v) = -5).
Proof.
  destruct (addKey_zero_rpm sample_clock
              (mkKeyPoolConfig (lit "round-robin") 60) sample_world (lit "C"))
    as [Hzero Hother]; [simpl; lia|].
  split; [exact Hzero|]. apply Hother. lia.
Defined.

(** ** The error transformer *)

Lemma rule_matches_spec (rule : ErrorTransformRule) (status : Z) :
  rule_matches rule status = true <-> spec_matches rule status.
Proof.
  unfold rule_matches, spec_matches. destruct (statusCode rule) as [n|l|].
  - apply Z.eqb_eq.
  - rewrite existsb_exists. split.
    + intros (n & Hin & ->%Z.eqb_eq). by apply list_elem_of_In.
    + intros Hin. exists status. split; [by apply list_elem_of_In|].
      apply Z.eqb_refl.
  - done.
Qed.

(** The loop stops at the first rule that matches. *)
Lemma transformError_loop_first (pre post : list ErrorTransformRule)
    (rule : ErrorTransformRule) (err : value) (status : Z) :
  (forall r, r ∈ pre -> ~ spec_matches r status) ->
  spec_matches rule status ->
  transformError_loop (pre ++ rule :: post) err status
    = apply_rule rule err status.
Proof.
  intros Hpre Hrule. induction pre as [|r pre IH]; simpl.
  - by rewrite (proj2 (rule_matches_spec _ _) Hrule).
  - destruct (rule_matches r status) eqn:Hr.
    + exfalso. apply (Hpre r); [left|]. by apply rule_matches_spec.
    + apply IH. intros r' Hr'. apply Hpre. by right.
Qed.

Lemma transformError_loop_none (l : list ErrorTransformRule)
    (err : value) (status : Z) :
  (forall r, r ∈ l -> ~ spec_matches r status) ->
  transformError_loop l err status = Ok (err, status).
Proof.
  intros Hl. induction l as [|r l IH]; simpl; [done|].
  destruct (rule_matches r status) eqn:Hr.
  - exfalso. apply (Hl r); [left|]. by apply rule_matches_spec.
  - apply IH. intros r' Hr'. apply Hl. by right.
Qed.

Lemma assoc_get_set (name : jsstring) (x : value)
    (props : list (jsstring * value)) :
  assoc_get name (assoc_set name x props) = Some x.
Proof.
  induction props as [|[n v] props IH]; simpl.
  - unfold jsstring_eqb. by rewrite bool_decide_eq_true_2.
  - destruct (jsstring_eqb n name) eqn:Hn; simpl; by rewrite Hn.
Qed.

Lemma assoc_get_set_ne (name name' : jsstring) (x : value)
    (props : list (jsstring * value)) :
  name <> name' ->
  assoc_get name' (assoc_set name x props) = assoc_get name' props.
Proof.
  intros Hne. induction props as [|[n v] props IH]; simpl.
  - unfold jsstring_eqb. by rewrite bool_decide_eq_false_2.
  - destruct (jsstring_eqb n name) eqn:Hn; simpl.
    + apply bool_decide_eq_true_1 in Hn. subst n.
      unfold jsstring_eqb. by rewrite bool_decide_eq_false_2.
    + by rewrite IH.
Qed.

(** On a body that its rule can take, the transformer does what C8
    describes.  With the table disabled it returns body and status
    unchanged.  With it enabled, the first rule that matches the status (by
    equality, membership or wildcard) decides: once its transform (the
    identity if it has none) has produced a body, the result carries the
    status override if there is one and the status otherwise, and the body
    with its [message] field set to the rule's message when that message
    is non-empty and the body is an object or an array; with no message,
    an empty one, or a body that is not of type object, the body is
    returned as the transform left it.  No later rule is consulted.  With
    the default table, status 404 yields the body with code NOT_FOUND and
    status 418 the body of the trailing wildcard. *)
Lemma transformError_first_match (err : value) (status : Z)
    (config : TransformationConfig) :
  (mt_enabled (error config) = false ->
   transformError err status config = Ok (err, status)) /\
  (mt_enabled (error config) = true ->
   forall pre rule post t,
     rules (error config) = pre ++ rule :: post ->
     (forall r, r ∈ pre -> ~ spec_matches r status) ->
     spec_matches rule status ->
     match transform rule with Some f => f err | None => Ok err end = Ok t ->
     (forall m props,
        message rule = Some m -> m <> [] -> t = VObj props ->
        transformError err status config =
          Ok (VObj (assoc_set (lit "message") (VStr m) props),
              default status (transformedStatusCode rule))) /\
     (forall m elems named,
        message rule = Some m -> m <> [] -> t = VArr elems named ->
        transformError err status config =
          Ok (VArr elems (assoc_set (lit "message") (VStr m) named),
              default status (transformedStatusCode rule))) /\
     (message rule = None \/ message rule = Some [] \/ typeof_object t = false ->
      transformError err status config =
        Ok (t, default status (transformedStatusCode rule)))) /\
  transformError err 404 defaultTransformConfig =
    Ok (VObj [(lit "code", VStr (lit "NOT_FOUND")); (lit "message", VStr msg_404)],
        404) /\
  transformError err 418 defaultTransformConfig =
    Ok (VObj [(lit "message", VStr msg_unknown)], 418).
Proof.
  split; [|split; [|split]].
  - intros Hoff. unfold transformError. by rewrite Hoff.
  - intros Hon pre rule post t Hrules Hpre Hrule Ht.
    assert (Hrun : transformError err status config = apply_rule rule err status).
    { unfold transformError. rewrite Hon, Hrules. simpl.
      by apply transformError_loop_first. }
    rewrite Hrun. unfold apply_rule. rewrite Ht.
    split; [|split].
    + intros m props Hm Hne ->. rewrite Hm. by destruct m.
    + intros m elems named Hm Hne ->. rewrite Hm. by destruct m.
    + intros [Hm|[Hm|Hty]].
      * by rewrite Hm.
      * by rewrite Hm.
      * rewrite Hty. by destruct (message rule) as [[|c m]|].
  - reflexivity.
  - reflexivity.
Qed.

Lemma transformError_first_match_witness :
  transformError (VObj [(lit "a", VNum 1)]) 500 (message_only_config (lit "m"))
    = Ok (VObj [(lit "a", VNum 1); (lit "message", VStr (lit "m"))], 500).
Proof.
  refine (proj1 (proj1 (proj2 (transformError_first_match
            (VObj [(lit "a", VNum 1)]) 500 (message_only_config (lit "m"))))
          eq_refl [] (mkRule StatusAny (Some (lit "m")) None None) []
          (VObj [(lit "a", VNum 1)]) eq_refl _ I eq_refl)
          (lit "m") [(lit "a", VNum 1)] eq_refl _ eq_refl).
  - intros r Hr. by apply elem_of_nil in Hr.
  - discriminate.
Defined.

(** An empty message counts as no message. *)
Lemma transformError_empty_message :
  transformError (VObj []) 500 (message_only_config []) = Ok (VObj [], 500).
Proof. reflexivity. Qed.

(** C8, at a failing input.  For the body [null] the transformer throws
    where the claim has it return a body and a status: under the default
    table with status 500 the matching rule's transform reads
    [error.requestId], and under a table whose wildcard rule only
    configures a message the test [typeof transformedError === 'object']
    lets [null] through to the assignment of the message. *)
Theorem transformError_null_body :
  transformError VNull 500 defaultTransformConfig = Throw TypeError /\
  transformError VNull 500 (message_only_config (lit "m")) = Throw TypeError.
Proof. split; reflexivity. Qed.

(** ** Facts about strings *)

Lemma startsWith_app (p s : jsstring) : startsWith p (p ++ s) = true.
Proof. induction p as [|c p IH]; simpl; [done|]. by rewrite Z.eqb_refl. Qed.

Lemma startsWith_true (p s : jsstring) :
  startsWith p s = true -> s = p ++ drop (length p) s.
Proof.
  revert s. induction p as [|c p IH]; intros [|d s]; simpl; try done.
  intros [->%Z.eqb_eq Hs]%andb_prop. f_equal. by apply IH.
Qed.

Lemma startsWith_overlap (p a q : jsstring) (c : Z) :
  startsWith p (a ++ c :: q) = true ->
  startsWith p a = true \/ p !! length a = Some c.
Proof.
  revert p. induction a as [|x a IH]; intros [|y p]; simpl; try (by left).
  - intros [->%Z.eqb_eq _]%andb_prop. by right.
  - intros [Hyx Hp]%andb_prop. rewrite Hyx. simpl.
    destruct (IH p Hp) as [H|H]; [by left|by right].
Qed.

Lemma marker_no_overlap (p a s : jsstring) :
  marker p -> a <> [] -> startsWith p (a ++ p ++ s) = true ->
  startsWith p a = true.
Proof.
  intros (c & t & -> & Hc) Ha Hs.
  change (a ++ (c :: t) ++ s) with (a ++ c :: (t ++ s)) in Hs.
  apply startsWith_overlap in Hs as [H|H]; [done|].
  destruct a as [|x a]; [done|]. simpl in H.
  exfalso. apply Hc. by eapply list_elem_of_lookup_2.
Qed.

Lemma includes_false_cons (p : jsstring) (x : Z) (a : jsstring) :
  includes p (x :: a) = false ->
  startsWith p (x :: a) = false /\ includes p a = false.
Proof.
  unfold includes. simpl.
  destruct (startsWith p (x :: a)); [done|].
  destruct (indexOf p a); simpl; done.
Qed.

Lemma indexOf_eq (p s : jsstring) :
  indexOf p s =
  if startsWith p s then Some 0%nat
  else match s with
       | [] => None
       | _ :: s' => S <$> indexOf p s'
       end.
Proof. by destruct s. Qed.

Lemma indexOf_first (p a s : jsstring) :
  marker p -> includes p a = false ->
  indexOf p (a ++ p ++ s) = Some (length a).
Proof.
  intros Hp. induction a as [|x a IH]; intros Ha.
  - rewrite app_nil_l, indexOf_eq. by rewrite startsWith_app.
  - apply includes_false_cons in Ha as [Hx Ha].
    rewrite indexOf_eq.
    destruct (startsWith p ((x :: a) ++ p ++ s)) eqn:Hs.
    + apply (marker_no_overlap p (x :: a) s Hp) in Hs; [congruence|done].
    + simpl. rewrite (IH Ha). done.
Qed.

Lemma indexOf_sound (p s : jsstring) (i : nat) :
  indexOf p s = Some i -> s = take i s ++ p ++ drop (i + length p) s.
Proof.
  revert i. induction s as [|x s IH]; intros i; rewrite indexOf_eq.
  - destruct (startsWith p []) eqn:Hs; [|done]. intros [= <-].
    simpl. by apply startsWith_true in Hs.
  - destruct (startsWith p (x :: s)) eqn:Hs.
    + intros [= <-]. rewrite take_0, app_nil_l. simpl.
      by apply startsWith_true in Hs.
    + destruct (indexOf p s) as [j|]; [|done]. simpl. intros [= <-].
      simpl. f_equal. by apply IH.
Qed.

Lemma includes_app (p a s : jsstring) : includes p (a ++ p ++ s) = true.
Proof.
  unfold includes. induction a as [|x a IH].
  - rewrite app_nil_l, indexOf_eq. by rewrite startsWith_app.
  - rewrite indexOf_eq. destruct (startsWith p ((x :: a) ++ p ++ s)); [done|].
    simpl. by destruct (indexOf p (a ++ p ++ s)).
Qed.

Lemma split_none (p s : jsstring) : includes p s = false -> split p s = [s].
Proof.
  unfold includes, split. intros H.
  destruct (length s); simpl; [done|]. by destruct (indexOf p s).
Qed.

Lemma split_one (p a b : jsstring) :
  marker p -> includes p a = false -> includes p b = false ->
  split p (a ++ p ++ b) = [a; b].
Proof.
  intros Hp Ha Hb. unfold split.
  destruct (length (a ++ p ++ b)) as [|n] eqn:Hlen.
  { destruct Hp as (c & t & -> & _). rewrite !length_app in Hlen.
    simpl in Hlen. lia. }
  simpl. rewrite (indexOf_first p a b Hp Ha).
  rewrite take_app_length, <- drop_drop, drop_app_length, drop_app_length.
  f_equal. unfold includes in Hb.
  destruct n; simpl; [done|]. by destruct (indexOf p b).
Qed.

Lemma think_open_marker : marker think_open.
Proof.
  exists 60, (lit "think>"). split; [reflexivity|].
  rewrite list_elem_of_In. simpl. intuition discriminate.
Qed.

Lemma think_close_marker : marker think_close.
Proof.
  exists 60, (lit "/think>"). split; [reflexivity|].
  rewrite list_elem_of_In. simpl. intuition discriminate.
Qed.

Lemma match_think_eq (s : jsstring) :
  match_think s =
  let next :=
    match s with
    | [] => None
    | _ :: s' =>
        match match_think s' with
        | Some (i, g, n) => Some (S i, g, n)
        | None => None
        end
    end in
  if startsWith think_open s then
    match indexOf think_close (drop (length think_open) s) with
    | Some j =>
        Some (0%nat, take j (drop (length think_open) s),
              (length think_open + j + length think_close)%nat)
    | None => next
    end
  else next.
Proof. by destruct s. Qed.

Lemma match_think_first (pre a post : jsstring) :
  includes think_open pre = false -> includes think_close a = false ->
  match_think (pre ++ think_open ++ a ++ think_close ++ post)
    = Some (length pre, a,
            (length think_open + length a + length think_close)%nat).
Proof.
  intros Hpre Ha. induction pre as [|x pre IH]; rewrite match_think_eq.
  - rewrite app_nil_l, startsWith_app, drop_app_length.
    rewrite (indexOf_first _ a post think_close_marker Ha).
    by rewrite take_app_length.
  - apply includes_false_cons in Hpre as [Hx Hpre].
    destruct (startsWith think_open
                ((x :: pre) ++ think_open ++ a ++ think_close ++ post)) eqn:Hs.
    { apply (marker_no_overlap _ (x :: pre) _ think_open_marker) in Hs;
        [congruence|done]. }
    cbv zeta. cbn [app]. by rewrite (IH Hpre).
Qed.

Lemma match_think_sound (s : jsstring) (i : nat) (g : jsstring) (n : nat) :
  match_think s = Some (i, g, n) ->
  s = take i s ++ think_open ++ g ++ think_close ++ drop (i + n) s.
Proof.
  revert i. induction s as [|x s IH]; intros i; rewrite match_think_eq.
  - simpl. done.
  - cbv zeta.
    assert (Hnext : match match_think s with
                    | Some (i0, g0, n0) => Some (S i0, g0, n0)
                    | None => None
                    end = Some (i, g, n) ->
                    x :: s = take i (x :: s) ++ think_open ++ g ++ think_close
                               ++ drop (i + n) (x :: s)).
    { destruct (match_think s) as [[[i0 g0] n0]|]; [|done].
      intros [= <- <- <-]. simpl. f_equal. by apply IH. }
    destruct (startsWith think_open (x :: s)) eqn:Hs; [|done].
    destruct (indexOf think_close (drop (length think_open) (x :: s)))
      as [j|] eqn:Hj; [|done].
    intros [= <- <- <-]. rewrite take_0, app_nil_l.
    apply startsWith_true in Hs. rewrite Hs at 1. f_equal.
    apply indexOf_sound in Hj. rewrite Hj at 1. f_equal. f_equal.
    rewrite drop_drop. reflexivity.
Qed.

Lemma regular_fields_none (content : jsstring) :
  (forall pre a post,
     content <> pre ++ think_open ++ a ++ think_close ++ post) ->
  regular_fields content = None.
Proof.
  intros Hno. unfold regular_fields.
  destruct (match_think content) as [[[i g] n]|] eqn:Hm; [|done].
  apply match_think_sound in Hm. by apply Hno in Hm.
Qed.

Lemma regular_fields_first (pre a post : jsstring) :
  includes think_open pre = false -> includes think_close a = false ->
  regular_fields (pre ++ think_open ++ a ++ think_close ++ post)
    = Some (trim (pre ++ post), trim a).
Proof.
  intros Hpre Ha. unfold regular_fields.
  rewrite (match_think_first pre a post Hpre Ha).
  rewrite take_app_length. do 3 f_equal.
  rewrite <- drop_drop, drop_app_length.
  rewrite <- Nat.add_assoc, <- drop_drop, drop_app_length.
  by rewrite <- drop_drop, drop_app_length, drop_app_length.
Qed.

Lemma assoc_get_content_reasoning (c r : value)
    (props : list (jsstring * value)) :
  assoc_get (lit "content")
    (assoc_set (lit "reasoning_content") r (assoc_set (lit "content") c props))
    = Some c /\
  assoc_get (lit "reasoning_content")
    (assoc_set (lit "reasoning_content") r (assoc_set (lit "content") c props))
    = Some r.
Proof.
  split.
  - rewrite assoc_get_set_ne by discriminate. apply assoc_get_set.
  - apply assoc_get_set.
Qed.

(** What [transformChoice] does to a choice whose message is an object
    with a non-empty string as content. *)
Lemma transformChoice_string (isSpecialModel : bool)
    (cprops mprops : list (jsstring * value)) (content : jsstring) :
  assoc_get (lit "message") cprops = Some (VObj mprops) ->
  assoc_get (lit "content") mprops = Some (VStr content) ->
  content <> [] ->
  transformChoice isSpecialModel (VObj cprops) =
  match (if isSpecialModel then Some (special_fields content)
         else regular_fields content) with
  | Some (newContent, thinkContent) =>
      Ok (VObj (assoc_set (lit "message")
                  (VObj (assoc_set (lit "reasoning_content") (VStr thinkContent)
                           (assoc_set (lit "content") (VStr newContent) mprops)))
                  cprops))
  | None => Ok (VObj cprops)
  end.
Proof.
  intros Hm Hc Hne. unfold transformChoice. simpl. rewrite Hm. simpl.
  rewrite Hc. simpl. destruct content as [|c0 content]; [done|]. simpl.
  destruct isSpecialModel.
  - by destruct (special_fields (c0 :: content)).
  - by destruct (regular_fields (c0 :: content)) as [[]|].
Qed.

(** ** The non-streaming transformer *)

Lemma message_field_set (cprops mp : list (jsstring * value)) (name : jsstring) :
  message_field (VObj (assoc_set (lit "message") (VObj mp) cprops)) name
    = default VUndefined (assoc_get name mp).
Proof.
  unfold message_field, get_opt. cbn [get_prop].
  rewrite assoc_get_set. reflexivity.
Qed.

(** C6 (amended). For a thinking-default model and a message whose
    content is a non-empty string: when the content holds exactly one
    closing marker, the text before it, trimmed of surrounding white
    space, becomes the reasoning field and the text after it, trimmed,
    becomes the content field; when it holds no closing marker, the
    content field becomes the empty string and the reasoning field is the
    trimmed content. *)
Theorem special_model_fields (model : jsstring)
    (cprops mprops : list (jsstring * value)) (content : jsstring) :
  isSpecialThinkingModel model = true ->
  assoc_get (lit "message") cprops = Some (VObj mprops) ->
  assoc_get (lit "content") mprops = Some (VStr content) ->
  content <> [] ->
  (forall a b,
     content = a ++ think_close ++ b ->
     includes think_close a = false -> includes think_close b = false ->
     exists choice',
       transformChoice (isSpecialThinkingModel model) (VObj cprops) = Ok choice' /\
       choice' =
         VObj (assoc_set (lit "message")
                 (VObj (assoc_set (lit "reasoning_content") (VStr (trim a))
                          (assoc_set (lit "content") (VStr (trim b)) mprops)))
                 cprops) /\
       message_field choice' (lit "content") = VStr (trim b) /\
       message_field choice' (lit "reasoning_content") = VStr (trim a)) /\
  (includes think_close content = false ->
   exists choice',
     transformChoice (isSpecialThinkingModel model) (VObj cprops) = Ok choice' /\
     choice' =
       VObj (assoc_set (lit "message")
               (VObj (assoc_set (lit "reasoning_content") (VStr (trim content))
                        (assoc_set (lit "content") (VStr []) mprops)))
               cprops) /\
     message_field choice' (lit "content") = VStr [] /\
     message_field choice' (lit "reasoning_content") = VStr (trim content)).
Proof.
  intros Hmodel Hm Hc Hne. rewrite Hmodel.
  rewrite (transformChoice_string true cprops mprops content Hm Hc Hne).
  split.
  - intros a b -> Ha Hb. unfold special_fields.
    rewrite includes_app, (split_one _ a b think_close_marker Ha Hb).
    cbv zeta. unfold part_or_empty. cbn [nth].
    eexists. split; [reflexivity|]. split; [reflexivity|].
    rewrite !message_field_set.
    destruct (assoc_get_content_reasoning (VStr (trim b)) (VStr (trim a)) mprops)
      as [-> ->]. done.
  - intros Hno. unfold special_fields. rewrite Hno.
    eexists. split; [reflexivity|]. split; [reflexivity|].
    rewrite !message_field_set.
    destruct (assoc_get_content_reasoning (VStr []) (VStr (trim content)) mprops)
      as [-> ->]. done.
Qed.

Lemma special_model_fields_witness :
  (exists choice',
     transformChoice (isSpecialThinkingModel (lit "Qwen/QwQ-32B"))
       (sample_choice "A</think>B") = Ok choice' /\
     message_field choice' (lit "content") = VStr (lit "B") /\
     message_field choice' (lit "reasoning_content") = VStr (lit "A")) /\
  (exists choice',
     transformChoice (isSpecialThinkingModel (lit "Qwen/QwQ-32B"))
       (sample_choice "no marker") = Ok choice' /\
     message_field choice' (lit "content") = VStr [] /\
     message_field choice' (lit "reasoning_content") = VStr (lit "no marker")).
Proof.
  split.
  - destruct (proj1 (special_model_fields (lit "Qwen/QwQ-32B")
                       (sample_choice_props "A</think>B")
                       (sample_message "A</think>B")
                       (lit "A</think>B") eq_refl eq_refl eq_refl
                       ltac:(discriminate))
                (lit "A") (lit "B") eq_refl eq_refl eq_refl)
      as (choice' & Hrun & _ & Hcontent & Hreason).
    exists choice'. split; [exact Hrun|]. split; assumption.
  - destruct (proj2 (special_model_fields (lit "Qwen/QwQ-32B")
                       (sample_choice_props "no marker")
                       (sample_message "no marker")
                       (lit "no marker") eq_refl eq_refl eq_refl
                       ltac:(discriminate)) eq_refl)
      as (choice' & Hrun & _ & Hcontent & Hreason).
    exists choice'. split; [exact Hrun|]. split; assumption.
Defined.

(** The claim as first stated fails: white space around the text before
    the marker does not reach the reasoning field, without a marker the
    reasoning field is not the full original content, and of the text
    after the marker only the part up to a second marker is kept. *)
Lemma special_model_counterexample :
  (exists choice',
     transformChoice true (sample_choice " A</think>B") = Ok choice' /\
     message_field choice' (lit "reasoning_content") = VStr (lit "A") /\
     VStr (lit "A") <> VStr (lit " A")) /\
  (exists choice',
     transformChoice true (sample_choice " A") = Ok choice' /\
     message_field choice' (lit "reasoning_content") = VStr (lit "A") /\
     VStr (lit "A") <> VStr (lit " A")) /\
  (exists choice',
     transformChoice true (sample_choice "A</think>B</think>C") = Ok choice' /\
     message_field choice' (lit "content") = VStr (lit "B") /\
     VStr (lit "B") <> VStr (lit "B</think>C")).
Proof.
  repeat split; eexists; (split; [reflexivity|]); split;
    try reflexivity; discriminate.
Qed.

(** C7 (amended). For a model that is not thinking-default and a message
    whose content is a string: when the content holds a complete pair of
    markers, the text enclosed by the first pair, trimmed of surrounding
    white space, becomes the reasoning field, and the content with that
    pair and its enclosed text removed, trimmed, becomes the content field;
    when the content holds no complete pair the choice is returned as it
    was. *)
Theorem regular_model_fields (model : jsstring)
    (cprops mprops : list (jsstring * value)) (content : jsstring) :
  isSpecialThinkingModel model = false ->
  assoc_get (lit "message") cprops = Some (VObj mprops) ->
  assoc_get (lit "content") mprops = Some (VStr content) ->
  (forall pre a post,
     content = pre ++ think_open ++ a ++ think_close ++ post ->
     includes think_open pre = false -> includes think_close a = false ->
     exists choice',
       transformChoice (isSpecialThinkingModel model) (VObj cprops) = Ok choice' /\
       choice' =
         VObj (assoc_set (lit "message")
                 (VObj (assoc_set (lit "reasoning_content") (VStr (trim a))
                          (assoc_set (lit "content") (VStr (trim (pre ++ post)))
                             mprops)))
                 cprops) /\
       message_field choice' (lit "content") = VStr (trim (pre ++ post)) /\
       message_field choice' (lit "reasoning_content") = VStr (trim a)) /\
  ((forall pre a post,
      content <> pre ++ think_open ++ a ++ think_close ++ post) ->
   transformChoice (isSpecialThinkingModel model) (VObj cprops) = Ok (VObj cprops)).
Proof.
  intros Hmodel Hm Hc. rewrite Hmodel. split.
  - intros pre a post Hcontent Hpre Ha.
    assert (Hne : content <> []).
    { rewrite Hcontent. by destruct pre. }
    rewrite (transformChoice_string false cprops mprops content Hm Hc Hne).
    rewrite Hcontent, (regular_fields_first pre a post Hpre Ha).
    eexists. split; [reflexivity|]. split; [reflexivity|].
    rewrite !message_field_set.
    destruct (assoc_get_content_reasoning (VStr (trim (pre ++ post)))
                (VStr (trim a)) mprops) as [-> ->]. done.
  - intros Hno. destruct content as [|c0 content].
    + unfold transformChoice. simpl. rewrite Hm. simpl. by rewrite Hc.
    + rewrite (transformChoice_string false cprops mprops _ Hm Hc)
        by discriminate.
      by rewrite (regular_fields_none _ Hno).
Qed.

Lemma regular_model_fields_witness :
  (exists choice',
     transformChoice (isSpecialThinkingModel (lit "deepseek-r1"))
       (sample_choice "<think>A</think>B") = Ok choice' /\
     message_field choice' (lit "content") = VStr (lit "B") /\
     message_field choice' (lit "reasoning_content") = VStr (lit "A")) /\
  transformChoice (isSpecialThinkingModel (lit "deepseek-r1")) (sample_choice "")
    = Ok (sample_choice "").
Proof.
  split.
  - destruct (proj1 (regular_model_fields (lit "deepseek-r1")
                       (sample_choice_props "<think>A</think>B")
                       (sample_message "<think>A</think>B")
                       (lit "<think>A</think>B") eq_refl eq_refl eq_refl)
                [] (lit "A") (lit "B") eq_refl eq_refl eq_refl)
      as (choice' & Hrun & _ & Hcontent & Hreason).
    exists choice'. split; [exact Hrun|]. split; assumption.
  - apply (proj2 (regular_model_fields (lit "deepseek-r1")
                    (sample_choice_props "") (sample_message "")
                    [] eq_refl eq_refl eq_refl)).
    intros pre a post H. destruct pre; discriminate.
Defined.

(** The claim as first stated fails: white space next to the markers
    reaches neither the reasoning field nor the content field. *)
Lemma regular_model_counterexample :
  (exists choice',
     transformChoice false (sample_choice "<think> A</think>B") = Ok choice' /\
     message_field choice' (lit "reasoning_content") = VStr (lit "A") /\
     VStr (lit "A") <> VStr (lit " A")) /\
  (exists choice',
     transformChoice false (sample_choice "<think>A</think> B") = Ok choice' /\
     message_field choice' (lit "content") = VStr (lit "B") /\
     VStr (lit "B") <> VStr (lit " B")).
Proof.
  repeat split; eexists; (split; [reflexivity|]); split;
    try reflexivity; discriminate.
Qed.

(** ** Validation *)

(** For a body read at its declared type: a request whose [messages] is
    missing, not an array or empty, whose [model] is missing or empty, or
    whose token estimate exceeds 128000 is answered with status 400 and
    leaves the world as it was: no record of the pool changes, the clock
    is not read and no upstream call is made. *)
Lemma validation_leaves_pool (env : Env) (cfg : option KeyPoolConfig)
    (body : ChatCompletionRequest) (w : World) :
  (messages body = None \/ messages body = Some [] ->
   chat_completions env cfg body w =
     (Ok (text_response 400 "Messages array is required and cannot be empty"),
      w)) /\
  (model body = None \/ model body = Some [] ->
   exists resp,
     chat_completions env cfg body w = (Ok resp, w) /\ c_status resp = 400) /\
  (forall tokens,
     encodeChat env (map chat_message (default [] (messages body))) = Ok tokens ->
     128000 < Z.of_nat (length tokens) ->
     exists resp,
       chat_completions env cfg body w = (Ok resp, w) /\ c_status resp = 400).
Proof.
  unfold chat_completions, try_catch, bind, lift, ret.
  split; [|split].
  - intros [-> | ->]; done.
  - intros Hm. destruct (messages body) as [[|msg msgs]|];
      try (eexists; split; [reflexivity|done]).
    destruct Hm as [-> | ->]; eexists; split; reflexivity || done.
  - intros tokens Henc Hlen.
    destruct (messages body) as [[|msg msgs]|];
      try (eexists; split; [reflexivity|done]).
    destruct (model body) as [[|c m]|];
      try (eexists; split; [reflexivity|done]).
    change (default [] (Some (msg :: msgs))) with (msg :: msgs) in Henc.
    rewrite Henc.
    destruct (128000 <? Z.of_nat (length tokens)) eqn:Hc.
    + eexists; split; [reflexivity|done].
    + apply Z.ltb_ge in Hc. lia.
Qed.

Lemma validation_leaves_pool_witness :
  chat_completions sample_env None
    (mkRequest (Some []) (Some (lit "m")) None) sample_world_two =
    (Ok (text_response 400 "Messages array is required and cannot be empty"),
     sample_world_two) /\
  (exists resp,
     chat_completions sample_env None
       (mkRequest (Some [sample_message_user]) None None) sample_world_two =
       (Ok resp, sample_world_two) /\ c_status resp = 400) /\
  (exists resp,
     chat_completions sample_env None
       (mkRequest (Some [sample_message_user; sample_message_user])
          (Some (lit "m")) None) sample_world_two =
       (Ok resp, sample_world_two) /\ c_status resp = 400).
Proof.
  split; [|split].
  - apply (proj1 (validation_leaves_pool sample_env None
                    (mkRequest (Some []) (Some (lit "m")) None)
                    sample_world_two)).
    by right.
  - apply (proj1 (proj2 (validation_leaves_pool sample_env None
                    (mkRequest (Some [sample_message_user]) None None)
                    sample_world_two))).
    by left.
  - apply (proj2 (proj2 (validation_leaves_pool sample_env None
                    (mkRequest (Some [sample_message_user; sample_message_user])
                       (Some (lit "m")) None)
                    sample_world_two))
             (replicate (Z.to_nat 128002) 0)).
    + reflexivity.
    + rewrite length_replicate. lia.
Defined.

Lemma try_catch_twice {A} (m : M A) (f g : Exn -> A) (w : World) :
  try_catch (try_catch m (fun e => ret (f e))) (fun e => ret (g e)) w =
    try_catch m (fun e => ret (f e)) w.
Proof. unfold try_catch, ret. by destruct (m w) as [[a|e] w']. Qed.

(** A body read at its declared type is handled by [chat_completions]. *)
Lemma post_chat_completions_request (env : Env) (cfg : option KeyPoolConfig)
    (r : ChatCompletionRequest) (w : World) :
  post_chat_completions env cfg (Ok (JsonRequest r)) w =
    chat_completions env cfg r w.
Proof.
  unfold post_chat_completions.
  change (try_catch (chat_completions env cfg r)
            (fun e =>
               ret (mkClientResponse 500
                      (BodyText (lit "Internal server error: "
                                 ++ exn_message (env_engine env) e)))) w
          = chat_completions env cfg r w).
  unfold chat_completions. apply try_catch_twice.
Qed.

(** C5, at a failing input.  A request whose body is the JSON value
    [null] has no [messages], yet it is not answered with 400: reading
    [body.stream] throws before the validation is reached, and the
    client receives 500 with the text of the runtime error.  The same
    happens to a body that is not JSON, with the parser's message.  A
    body without fields, [{}], is answered with 400 by the validation.
    In all three cases the world stays as it was. *)
Theorem chat_completions_null_body (env : Env) (cfg : option KeyPoolConfig)
    (w : World) :
  post_chat_completions env cfg (Ok JsonNull) w =
    (Ok (mkClientResponse 500
           (BodyText (lit "Internal server error: "
                      ++ runtime_message (env_engine env) TypeError))), w) /\
  (forall e,
     post_chat_completions env cfg (Throw e) w =
       (Ok (mkClientResponse 500
              (BodyText (lit "Internal server error: "
                         ++ exn_message (env_engine env) e))), w)) /\
  post_chat_completions env cfg (Ok (JsonRequest (mkRequest None None None))) w =
    (Ok (text_response 400 "Messages array is required and cannot be empty"),
     w).
Proof.
  split; [done|]. split; [done|].
  by rewrite post_chat_completions_request.
Qed.

(** ** Dispatch and retry *)

Lemma disableKey_run (ck : Clock) (k reason : jsstring) (w : World) :
  exists w',
    disableKey ck k reason w = (Ok tt, w') /\
    fetched w' = fetched w /\
    (forall d, pool w !! k = Some d ->
     pool w' !! k =
       Some (mkApiKey (key d) (rateLimit d) (usage d) (algorithm d)
               false (Some reason) (Some (clock ck (ticks w))))) /\
    (forall k', k' <> k -> pool w' !! k' = pool w !! k').
Proof.
  unfold disableKey, bind, redis_get, date_now, redis_set. simpl.
  destruct (pool w !! k) as [d|] eqn:Hk; simpl.
  - eexists. split; [reflexivity|]. simpl. split; [done|]. split.
    + intros d' [= <-]. apply lookup_insert_eq.
    + intros k' Hne. by apply lookup_insert_ne.
  - exists w. by repeat split.
Qed.

Lemma take_key_fetched ck m1 m2 sel w r w' :
  take_key ck m1 m2 sel w = (r, w') -> fetched w' = fetched w.
Proof.
  unfold take_key. destruct sel as [k|]; [|by intros [= _ <-]].
  destruct (_ >=? _); [by intros [= _ <-]|].
  unfold bind, date_now, redis_set, ret; simpl. by intros [= _ <-].
Qed.

Lemma retryWithFreshKey_run (ck : Clock) (cfg : option KeyPoolConfig)
    (k : jsstring) (w : World) (r : Res jsstring) (w' : World) :
  retryWithFreshKey ck cfg k w = (r, w') ->
  fetched w' = fetched w /\
  forall newKey, r = Ok newKey ->
    newKey <> k /\
    exists v, v ∈ (map_to_list (pool w)).*2 /\ enabled v = true /\
              key v = newKey.
Proof.
  unfold retryWithFreshKey, bind, listKeys at 1. simpl.
  set (l := filter _ _).
  destruct l as [|v0 l0] eqn:Hl; [by intros [= <- <-]|].
  intros Hrun. split; [by eapply take_key_fetched|].
  intros newKey ->. apply take_key_ok in Hrun as (v & Hsel & Hid & _).
  apply select_elem in Hsel. rewrite <- Hl in Hsel. subst l.
  apply list_elem_of_filter in Hsel as [[Hen Hne] Hin].
  subst newKey. split; [done|]. by exists v.
Qed.

(** One call of [sendRequest], with the world passed along. *)
Lemma sendRequest_rec_S (b : nat) (env : Env) (cfg : option KeyPoolConfig)
    (k : jsstring) (n : nat) (w : World) :
  (n <= MAX_RETRY_ATTEMPTS)%nat ->
  sendRequest_rec (S b) env cfg k n w =
  let w1 := mkWorld (pool w) (ticks w) (fetched w ++ [k]) in
  match fetch env (length (fetched w)) k with
  | Throw e => (Throw e, w1)
  | Ok resp =>
      if resp_ok resp then (Ok (resp, k), w1) else
      match json_of resp with
      | Throw e => (Throw e, w1)
      | Ok errorData =>
          match isKeyExhausted (resp_status resp) errorData with
          | Throw e => (Throw e, w1)
          | Ok false => (Ok (resp, k), w1)
          | Ok true =>
              match disable_reason (env_engine env) errorData with
              | Throw e => (Throw e, w1)
              | Ok reason =>
                  match disableKey (env_clock env) k reason w1 with
                  | (Throw e, w2) => (Throw e, w2)
                  | (Ok _, w2) =>
                      match retryWithFreshKey (env_clock env) cfg k w2 with
                      | (Throw e, w3) =>
                          (Throw (Error (exn_message (env_engine env) e)), w3)
                      | (Ok newApiKey, w3) =>
                          sendRequest_rec b env cfg newApiKey (S n) w3
                      end
                  end
              end
          end
      end
  end.
Proof.
  intros Hn. cbn [sendRequest_rec].
  destruct (MAX_RETRY_ATTEMPTS <? n)%nat eqn:Hc.
  { apply Nat.ltb_lt in Hc. lia. }
  unfold bind at 1, fetch_upstream at 1. cbv zeta.
  destruct (fetch env (length (fetched w)) k) as [resp|e]; [|done].
  destruct (resp_ok resp); [done|].
  unfold bind at 1, lift at 1.
  destruct (json_of resp) as [errorData|e]; [|done].
  unfold bind at 1, lift at 1.
  destruct (isKeyExhausted (resp_status resp) errorData) as [[|]|e]; try done.
  unfold bind at 1, lift at 1.
  destruct (disable_reason (env_engine env) errorData) as [reason|e]; [|done].
  unfold bind at 1.
  destruct (disableKey _ _ _ _) as [[[]|e] w2]; [|done].
  unfold bind at 1, try_catch at 1.
  destruct (retryWithFreshKey _ _ _ _) as [[newKey|e] w3]; done.
Qed.

Lemma isKeyExhausted_reason (eng : Engine) (status : Z) (errorData : value) :
  isKeyExhausted status errorData = Ok true ->
  exists reason, disable_reason eng errorData = Ok reason.
Proof.
  unfold isKeyExhausted, disable_reason.
  destruct (status =? 402); [|done].
  unfold get_opt at 2. destruct (get_prop errorData (lit "details")); [eauto|].
  done.
Qed.

Lemma sendRequest_rec_ceiling (b : nat) (env : Env)
    (cfg : option KeyPoolConfig) (k : jsstring) (n : nat) (w : World) :
  (MAX_RETRY_ATTEMPTS < n)%nat ->
  sendRequest_rec b env cfg k n w = (Throw (Error msg_max_retries), w).
Proof.
  intros Hn. destruct b; cbn [sendRequest_rec];
    destruct (MAX_RETRY_ATTEMPTS <? n)%nat eqn:Hc; try done;
    apply Nat.ltb_ge in Hc; lia.
Qed.

Ltac log_facts :=
  repeat split; simpl;
  first [ done | lia | by left | by right
        | left; unfold MAX_RETRY_ATTEMPTS in *; simpl; lia
        | idtac ].

(** The upstream calls of one [sendRequest]: at most as many as the
    ceiling leaves, the first with the given credential, and no two in a
    row with the same one. *)
Lemma sendRequest_rec_fetched (b : nat) (env : Env)
    (cfg : option KeyPoolConfig) (k : jsstring) (n : nat) (w : World)
    (r : Res (Response * jsstring)) (w' : World) :
  sendRequest_rec b env cfg k n w = (r, w') ->
  exists ks,
    fetched w' = fetched w ++ ks /\
    (length ks <= b)%nat /\
    (length ks + n <= S MAX_RETRY_ATTEMPTS \/ ks = [])%nat /\
    (ks = [] \/ head ks = Some k) /\
    adjacent_distinct ks.
Proof.
  revert k n w. induction b as [|b IH]; intros k n w Hrun.
  - exists []. rewrite app_nil_r.
    assert (w' = w) as ->; [|log_facts].
    cbn [sendRequest_rec] in Hrun.
    destruct (MAX_RETRY_ATTEMPTS <? n)%nat; by injection Hrun.
  - destruct (decide (MAX_RETRY_ATTEMPTS < n)%nat) as [Hn|Hn].
    { rewrite sendRequest_rec_ceiling in Hrun by done.
      injection Hrun as _ <-. exists []. rewrite app_nil_r.
      log_facts. }
    rewrite sendRequest_rec_S in Hrun by lia. cbv zeta in Hrun.
    assert (Hone : forall r0,
              (r0, mkWorld (pool w) (ticks w) (fetched w ++ [k])) = (r, w') ->
              exists ks, fetched w' = fetched w ++ ks /\ (length ks <= S b)%nat /\
                (length ks + n <= S MAX_RETRY_ATTEMPTS \/ ks = [])%nat /\
                (ks = [] \/ head ks = Some k) /\ adjacent_distinct ks).
    { intros r0 [= _ <-]. exists [k]. log_facts. }
    destruct (fetch env (length (fetched w)) k) as [resp|e]; [|by eapply Hone].
    destruct (resp_ok resp); [by eapply Hone|].
    destruct (json_of resp) as [errorData|e]; [|by eapply Hone].
    destruct (isKeyExhausted _ _) as [[|]|e]; [|by eapply Hone..].
    destruct (disable_reason _ _) as [reason|e]; [|by eapply Hone].
    destruct (disableKey_run (env_clock env) k reason
                (mkWorld (pool w) (ticks w) (fetched w ++ [k])))
      as (w2 & Hd & Hf2 & _).
    rewrite Hd in Hrun. simpl in Hf2.
    destruct (retryWithFreshKey _ _ _ _) as [rk w3] eqn:Hretry.
    apply retryWithFreshKey_run in Hretry as [Hf3 Hnew].
    destruct rk as [newKey|e].
    + destruct (Hnew newKey eq_refl) as [Hne _].
      apply IH in Hrun as (ks & Hf & Hlen & Hceil & Hhead & Hadj).
      exists (k :: ks). rewrite Hf, Hf3, Hf2, <- app_assoc.
      split; [done|]. split; [simpl; lia|]. split; [|split; [by right|]].
      * destruct Hceil as [Hceil| ->]; left; simpl;
          unfold MAX_RETRY_ATTEMPTS in *; lia.
      * destruct ks as [|k1 ks]; [done|].
        destruct Hhead as [Hnil|[= ->]]; [done|]. split; [|done]. congruence.
    + injection Hrun as _ <-. exists [k]. rewrite Hf3, Hf2. log_facts.
Qed.

(** When every upstream answer reports an exhausted budget, the request
    ends with an exception. *)
Lemma sendRequest_rec_all_exhausted (b : nat) (env : Env)
    (cfg : option KeyPoolConfig) (k : jsstring) (n : nat) (w : World) :
  (forall i key, exists resp errorData,
     fetch env i key = Ok resp /\ resp_ok resp = false /\
     resp_json resp = Some errorData /\
     isKeyExhausted (resp_status resp) errorData = Ok true) ->
  exists e w', sendRequest_rec b env cfg k n w = (Throw e, w').
Proof.
  intros Hall. revert k n w. induction b as [|b IH]; intros k n w.
  - cbn [sendRequest_rec]. destruct (MAX_RETRY_ATTEMPTS <? n)%nat; eauto.
  - destruct (decide (MAX_RETRY_ATTEMPTS < n)%nat) as [Hn|Hn].
    { rewrite sendRequest_rec_ceiling by done. eauto. }
    rewrite sendRequest_rec_S by lia. cbv zeta.
    destruct (Hall (length (fetched w)) k)
      as (resp & errorData & -> & -> & Hjson & Hex).
    unfold json_of. rewrite Hjson, Hex.
    destruct (isKeyExhausted_reason (env_engine env) _ _ Hex) as [reason ->].
    destruct (disableKey_run (env_clock env) k reason
                (mkWorld (pool w) (ticks w) (fetched w ++ [k])))
      as (w2 & -> & _).
    destruct (retryWithFreshKey _ _ _ _) as [[newKey|e] w3]; eauto.
Qed.

Lemma dispatch_failed (env : Env) (cfg : option KeyPoolConfig)
    (bodyModel : jsstring) (isStream : bool) (k : jsstring) (w : World)
    (e : Exn) (w' : World) :
  sendRequest env cfg k w = (Throw e, w') ->
  dispatch env cfg bodyModel isStream k w =
    (Ok (mkClientResponse 503
           (BodyJson (VObj [(lit "error",
                             VStr (exn_message (env_engine env) e))]))), w').
Proof.
  intros Hrun. unfold dispatch, bind at 1, try_catch, bind at 1.
  by rewrite Hrun.
Qed.

Lemma dispatch_upstream_error (env : Env) (cfg : option KeyPoolConfig)
    (bodyModel : jsstring) (isStream : bool) (k : jsstring) (w : World)
    (resp : Response) (k' : jsstring) (w' : World) (err : value)
    (t : value * Z) :
  sendRequest env cfg k w = (Ok (resp, k'), w') ->
  resp_ok resp = false ->
  resp_json resp = Some err ->
  transformError err (resp_status resp) defaultTransformConfig = Ok t ->
  dispatch env cfg bodyModel isStream k w =
    (Ok (mkClientResponse (snd t) (BodyJson (fst t))), w').
Proof.
  intros Hrun Hok Hjson Ht. unfold dispatch, bind at 1, try_catch, bind at 1.
  rewrite Hrun. unfold ret at 1. cbv iota beta. rewrite Hok.
  unfold bind, lift, json_of, ret. cbn [negb]. by rewrite Hjson, Ht.
Qed.

(** On upstream answers it can read, the dispatch does what C2 describes.
    (1) An answer that is not 2xx, has a JSON body and is a 402 whose
    [details.detail] holds the budget-exhaustion marker makes
    [sendRequest] disable the serving credential with the reason built
    from that detail and ask for a replacement, which is never the
    credential just disabled, and go on with it as the next attempt; when
    no replacement is obtained the request fails.  (2) One request makes
    at most 4 upstream calls, the original one and 3 retries, and never
    two in a row with the same credential.  (3) When every answer is such
    an exhaustion the client receives status 503; (4) so it does whenever
    [sendRequest] fails.  (5) An answer that is not 2xx, has a JSON body
    and is not a budget exhaustion is returned at once, without disabling
    or retrying, and (6) its body and status go through the error
    transformer with the default table, whose result, when it returns one,
    is the client's response. *)
Lemma dispatch_retry (env : Env) (cfg : option KeyPoolConfig) :
  (forall b n k w resp errorData,
     (n <= MAX_RETRY_ATTEMPTS)%nat ->
     fetch env (length (fetched w)) k = Ok resp ->
     resp_ok resp = false ->
     resp_json resp = Some errorData ->
     isKeyExhausted (resp_status resp) errorData = Ok true ->
     exists reason w1,
       disable_reason (env_engine env) errorData = Ok reason /\
       disableKey (env_clock env) k reason
         (mkWorld (pool w) (ticks w) (fetched w ++ [k])) = (Ok tt, w1) /\
       (forall d, pool w !! k = Some d ->
        exists d', pool w1 !! k = Some d' /\ enabled d' = false /\
                   disabledReason d' = Some reason) /\
       (forall newKey w2,
          retryWithFreshKey (env_clock env) cfg k w1 = (Ok newKey, w2) ->
          newKey <> k /\
          sendRequest_rec (S b) env cfg k n w
            = sendRequest_rec b env cfg newKey (S n) w2) /\
       (forall e w2,
          retryWithFreshKey (env_clock env) cfg k w1 = (Throw e, w2) ->
          sendRequest_rec (S b) env cfg k n w
            = (Throw (Error (exn_message (env_engine env) e)), w2))) /\
  (forall k w r w',
     sendRequest env cfg k w = (r, w') ->
     exists ks,
       fetched w' = fetched w ++ ks /\
       (length ks <= S MAX_RETRY_ATTEMPTS)%nat /\
       adjacent_distinct ks) /\
  ((forall i key, exists resp errorData,
      fetch env i key = Ok resp /\ resp_ok resp = false /\
      resp_json resp = Some errorData /\
      isKeyExhausted (resp_status resp) errorData = Ok true) ->
   forall bodyModel isStream k w,
   exists e w',
     sendRequest env cfg k w = (Throw e, w') /\
     dispatch env cfg bodyModel isStream k w =
       (Ok (mkClientResponse 503
              (BodyJson (VObj [(lit "error",
                                VStr (exn_message (env_engine env) e))]))),
        w')) /\
  (forall bodyModel isStream k w e w',
     sendRequest env cfg k w = (Throw e, w') ->
     dispatch env cfg bodyModel isStream k w =
       (Ok (mkClientResponse 503
              (BodyJson (VObj [(lit "error",
                                VStr (exn_message (env_engine env) e))]))),
        w')) /\
  (forall b n k w resp err,
     (n <= MAX_RETRY_ATTEMPTS)%nat ->
     fetch env (length (fetched w)) k = Ok resp ->
     resp_ok resp = false ->
     resp_json resp = Some err ->
     isKeyExhausted (resp_status resp) err = Ok false ->
     sendRequest_rec (S b) env cfg k n w =
       (Ok (resp, k), mkWorld (pool w) (ticks w) (fetched w ++ [k]))) /\
  (forall bodyModel isStream k w resp k' w' err t,
     sendRequest env cfg k w = (Ok (resp, k'), w') ->
     resp_ok resp = false ->
     resp_json resp = Some err ->
     transformError err (resp_status resp) defaultTransformConfig = Ok t ->
     dispatch env cfg bodyModel isStream k w =
       (Ok (mkClientResponse (snd t) (BodyJson (fst t))), w')).
Proof.
  split; [|split; [|split; [|split; [|split]]]].
  - intros b n k w resp errorData Hn Hfetch Hok Hjson Hex.
    destruct (isKeyExhausted_reason (env_engine env) _ _ Hex) as [reason Hreason].
    destruct (disableKey_run (env_clock env) k reason
                (mkWorld (pool w) (ticks w) (fetched w ++ [k])))
      as (w1 & Hd & _ & Hdis & _).
    assert (Hstep : sendRequest_rec (S b) env cfg k n w =
              match retryWithFreshKey (env_clock env) cfg k w1 with
              | (Throw e, w3) =>
                  (Throw (Error (exn_message (env_engine env) e)), w3)
              | (Ok newApiKey, w3) =>
                  sendRequest_rec b env cfg newApiKey (S n) w3
              end).
    { rewrite sendRequest_rec_S by done. cbv zeta.
      rewrite Hfetch, Hok. unfold json_of.
      by rewrite Hjson, Hex, Hreason, Hd. }
    exists reason, w1. split; [done|]. split; [done|]. split; [|split].
    + intros d Hk. eexists. split; [by apply Hdis|]. done.
    + intros newKey w2 Hretry. rewrite Hstep, Hretry. split; [|done].
      apply retryWithFreshKey_run in Hretry as [_ Hnew].
      by destruct (Hnew newKey eq_refl).
    + intros e w2 Hretry. by rewrite Hstep, Hretry.
  - intros k w r w' Hrun.
    apply sendRequest_rec_fetched in Hrun
      as (ks & Hf & Hlen & _ & _ & Hadj).
    by exists ks.
  - intros Hall bodyModel isStream k w.
    destruct (sendRequest_rec_all_exhausted (S MAX_RETRY_ATTEMPTS) env cfg k
                0 w Hall) as (e & w' & Hrun).
    exists e, w'. split; [done|]. by apply dispatch_failed.
  - intros bodyModel isStream k w e w' Hrun. by apply dispatch_failed.
  - intros b n k w resp err Hn Hfetch Hok Hjson Hex.
    rewrite sendRequest_rec_S by done. cbv zeta.
    rewrite Hfetch, Hok. unfold json_of. by rewrite Hjson, Hex.
  - intros bodyModel isStream k w resp k' w' err t Hrun Hok Hjson Ht.
    by eapply dispatch_upstream_error.
Qed.

Lemma dispatch_retry_witness :
  (exists reason w1 d',
     disable_reason sample_engine exhausted_body = Ok reason /\
     disableKey sample_clock (lit "A") reason
       (mkWorld (pool sample_world_two) 0 [lit "A"]) = (Ok tt, w1) /\
     pool w1 !! lit "A" = Some d' /\ enabled d' = false /\
     disabledReason d' = Some reason) /\
  (exists ks,
     fetched (snd (sendRequest sample_env None (lit "A") sample_world_two))
       = ks /\
     (length ks <= 4)%nat /\ adjacent_distinct ks) /\
  (exists e w',
     dispatch (constant_env exhausted_response) None (lit "m") false
       (lit "A") sample_world_two =
       (Ok (mkClientResponse 503
              (BodyJson (VObj [(lit "error",
                                VStr (exn_message sample_engine e))]))), w')) /\
  (exists w',
     dispatch (constant_env bad_gateway_response) None (lit "m") false
       (lit "A") sample_world_two =
       (Ok (mkClientResponse 503
              (BodyJson (VObj [(lit "error", VStr (lit "runtime error"))]))),
        w')) /\
  sendRequest (constant_env server_error_response) None (lit "A")
    sample_world_two =
    (Ok (server_error_response, lit "A"),
     mkWorld (pool sample_world_two) 0 [lit "A"]) /\
  (exists w',
     dispatch sample_env None (lit "m") false (lit "A") sample_world_two =
       (Ok (mkClientResponse 500
              (BodyJson (VObj [(lit "code", VStr (lit "SERVICE_ERROR"));
                               (lit "message", VStr msg_5xx);
                               (lit "requestId", VStr (lit "r1"))]))), w') /\
     fetched w' = [lit "A"; lit "B"]).
Proof.
  split; [|split; [|split; [|split; [|split]]]].
  - destruct (proj1 (dispatch_retry sample_env None) 3%nat 0%nat (lit "A")
                sample_world_two exhausted_response exhausted_body)
      as (reason & w1 & Hreason & Hd & Hdis & _);
      [unfold MAX_RETRY_ATTEMPTS; lia | reflexivity..|].
    destruct (Hdis (sample_key "A" 2 1 0 1 true) eq_refl)
      as (d' & Hk & Hen & Hr).
    exists reason, w1, d'. repeat split; assumption.
  - destruct (proj1 (proj2 (dispatch_retry sample_env None)) (lit "A")
                sample_world_two _ _ (surjective_pairing _))
      as (ks & Hf & Hlen & Hadj).
    exists ks. repeat split; assumption.
  - destruct (proj1 (proj2 (proj2
                (dispatch_retry (constant_env exhausted_response) None)))
                (fun _ _ => ex_intro _ exhausted_response
                   (ex_intro _ exhausted_body
                      (conj eq_refl (conj eq_refl (conj eq_refl eq_refl)))))
                (lit "m") false (lit "A") sample_world_two)
      as (e & w' & _ & Hdisp).
    by exists e, w'.
  - eexists.
    apply (proj1 (proj2 (proj2 (proj2
             (dispatch_retry (constant_env bad_gateway_response) None))))
             (lit "m") false (lit "A") sample_world_two SyntaxError).
    vm_compute. reflexivity.
  - apply (proj1 (proj2 (proj2 (proj2 (proj2
             (dispatch_retry (constant_env server_error_response) None)))))
             3%nat 0%nat (lit "A") sample_world_two server_error_response
             server_error_body);
      [unfold MAX_RETRY_ATTEMPTS; lia | reflexivity..].
  - eexists. split.
    + apply (proj2 (proj2 (proj2 (proj2 (proj2
               (dispatch_retry sample_env None)))))
               (lit "m") false (lit "A") sample_world_two
               server_error_response (lit "B") _ server_error_body
               (_, 500));
        [vm_compute; reflexivity | reflexivity..].
    + reflexivity.
Defined.

(** C2, at a failing input.  The pool holds the enabled credentials A and
    B and the request is valid.  An upstream 502 whose body is not JSON
    is not a budget exhaustion, yet the client receives 503 with the
    parser's message, the answer meant for exhausted retries, and the
    error transformer, which keeps the status 502, is never reached; one
    upstream call is made.  The same happens to a 402 whose
    [details.detail] is a number. *)
Theorem chat_completions_unreadable_error :
  (let '(r, w) :=
     chat_completions (constant_env bad_gateway_response) None
       (mkRequest (Some [sample_message_user]) (Some (lit "m")) None)
       sample_world_two in
   r = Ok (mkClientResponse 503
             (BodyJson (VObj [(lit "error", VStr (lit "runtime error"))]))) /\
   fetched w = [lit "A"]) /\
  (forall err, exists b,
     transformError (VObj err) 502 defaultTransformConfig = Ok (b, 502)) /\
  fst (chat_completions
         (constant_env
            (mkResponse 402
               (Some (VObj [(lit "details", VObj [(lit "detail", VNum 7)])]))
               None))
         None (mkRequest (Some [sample_message_user]) (Some (lit "m")) None)
         sample_world_two) =
    Ok (mkClientResponse 503
          (BodyJson (VObj [(lit "error", VStr (lit "runtime error"))]))).
Proof.
  split; [|split].
  - vm_compute. split; reflexivity.
  - intros err. eexists. reflexivity.
  - vm_compute. reflexivity.
Qed.

(** ** The streaming transformer *)

(** C3, at a failing input.  The frame [: é] fed in one chunk is forwarded
    byte for byte; fed in two chunks cut between the two bytes of the
    letter, each half is decoded on its own, the broken letter becomes two
    replacement characters, and the bytes sent differ. *)
Theorem transform_chunk_split_utf8 (eng : Engine) (bodyModel : jsstring) :
  fst (transform_chunk eng bodyModel (stream_start bodyModel) sample_frame)
    = [sample_frame] /\
  (let '(out1, st1) :=
     transform_chunk eng bodyModel (stream_start bodyModel)
       (take 3 sample_frame) in
   let '(out2, _) :=
     transform_chunk eng bodyModel st1 (drop 3 sample_frame) in
   out1 ++ out2 = [[58; 32; 239; 191; 189; 239; 191; 189; 10; 10]]) /\
  [[58; 32; 239; 191; 189; 239; 191; 189; 10; 10]] <> [sample_frame].
Proof.
  unfold stream_start. destruct (isSpecialThinkingModel bodyModel);
    (split; [reflexivity|]; split; [reflexivity|discriminate]).
Qed.

(** *** Splitting and re-chunking at the level of text *)

Lemma indexOf_nil_None (p : jsstring) : p <> [] -> indexOf p [] = None.
Proof. by destruct p. Qed.

Lemma indexOf_bound (p s : jsstring) (i : nat) :
  indexOf p s = Some i -> (i + length p <= length s)%nat.
Proof.
  revert i. induction s as [|x s IH]; intros i; rewrite indexOf_eq.
  - destruct (startsWith p []) eqn:Hs; [|done]. intros [= <-].
    apply startsWith_true, (f_equal length) in Hs.
    rewrite length_app in Hs. simpl in *. lia.
  - destruct (startsWith p (x :: s)) eqn:Hs.
    + intros [= <-]. apply startsWith_true, (f_equal length) in Hs.
      rewrite length_app in Hs. simpl in *. lia.
    + destruct (indexOf p s) as [j|]; [|done]. simpl. intros [= <-].
      specialize (IH j eq_refl). simpl. lia.
Qed.

Lemma split_fuel_enough (sep s : jsstring) (n m : nat) :
  sep <> [] -> (length s <= n)%nat -> (length s <= m)%nat ->
  split_fuel n sep s = split_fuel m sep s.
Proof.
  intros Hsep. revert m s. induction n as [|n IH]; intros [|m] s Hn Hm;
    try reflexivity.
  - destruct s; [|simpl in Hn; lia]. cbn [split_fuel].
    by rewrite indexOf_nil_None.
  - destruct s; [|simpl in Hm; lia]. cbn [split_fuel].
    by rewrite indexOf_nil_None.
  - cbn [split_fuel]. destruct (indexOf sep s) as [i|] eqn:Hi; [|done]. f_equal.
    apply indexOf_bound in Hi.
    assert (0 < length sep)%nat by (destruct sep; [done|simpl; lia]).
    apply IH; rewrite length_drop; lia.
Qed.

Lemma split_eq (sep s : jsstring) :
  sep <> [] ->
  split sep s =
  match indexOf sep s with
  | None => [s]
  | Some i => take i s :: split sep (drop (i + length sep) s)
  end.
Proof.
  intros Hsep. unfold split. destruct (length s) as [|n] eqn:Hlen.
  - destruct s; [|done]. cbn [split_fuel]. by rewrite indexOf_nil_None.
  - cbn [split_fuel]. destruct (indexOf sep s) as [i|] eqn:Hi; [|done]. f_equal.
    apply indexOf_bound in Hi.
    assert (0 < length sep)%nat by (destruct sep; [done|simpl; lia]).
    apply split_fuel_enough; [done|rewrite length_drop; lia|done].
Qed.

Lemma split_nonempty (sep s : jsstring) : split sep s <> [].
Proof. unfold split. destruct (length s); simpl; [done|]. by case_match. Qed.

Lemma startsWith_app_long (p s t : jsstring) :
  (length p <= length s)%nat -> startsWith p (s ++ t) = startsWith p s.
Proof.
  revert s. induction p as [|c p IH]; intros [|d s] Hlen; simpl in *;
    try done; try lia.
  f_equal. apply IH. lia.
Qed.

Lemma indexOf_app_Some (p s t : jsstring) (i : nat) :
  indexOf p s = Some i -> indexOf p (s ++ t) = Some i.
Proof.
  revert i. induction s as [|x s IH]; intros i Hi.
  - pose proof (indexOf_bound _ _ _ Hi) as Hb. simpl in Hb.
    assert (p = []) as -> by (destruct p; [done|simpl in Hb; lia]).
    by destruct t.
  - pose proof (indexOf_bound _ _ _ Hi) as Hb.
    rewrite indexOf_eq in Hi. rewrite indexOf_eq.
    rewrite startsWith_app_long by lia.
    destruct (startsWith p (x :: s)); [done|].
    simpl. destruct (indexOf p s) as [j|] eqn:Hj; [|done].
    by rewrite (IH j eq_refl).
Qed.

Lemma removelast_cons {A} (x : A) (l : list A) :
  l <> [] -> removelast (x :: l) = x :: removelast l.
Proof. by destruct l. Qed.

Lemma last_cons_ne {A} (x : A) (l : list A) : l <> [] -> last (x :: l) = last l.
Proof. by destruct l. Qed.

(** Splitting a text that arrives in two parts: the complete pieces of
    the first part stay as they are and its last piece is continued by the
    second part. *)
Lemma split_app (sep s t : jsstring) :
  sep <> [] ->
  split sep (s ++ t) =
    removelast (split sep s) ++ split sep (default [] (last (split sep s)) ++ t).
Proof.
  intros Hsep.
  assert (Hlen : exists n, (length s <= n)%nat) by eauto.
  destruct Hlen as [n Hn]. revert s Hn.
  induction n as [|n IH]; intros s Hn.
  - destruct s; [|simpl in Hn; lia].
    rewrite (split_eq sep []), indexOf_nil_None by done. done.
  - rewrite (split_eq sep s) by done.
    destruct (indexOf sep s) as [i|] eqn:Hi; [|done].
    rewrite (split_eq sep (s ++ t)), (indexOf_app_Some _ _ t _ Hi) by done.
    pose proof (indexOf_bound _ _ _ Hi) as Hb.
    assert (0 < length sep)%nat by (destruct sep; [done|simpl; lia]).
    rewrite removelast_cons, last_cons_ne by apply split_nonempty.
    rewrite take_app_le, drop_app_le by lia. simpl. f_equal.
    apply IH. rewrite length_drop. lia.
Qed.

Lemma transform_data_buffer (eng : Engine) (m : jsstring) (st : StreamState)
    (b payload : jsstring) :
  transform_data eng m (with_buffer b st) payload =
  let '(r, s) := transform_data eng m st payload in (r, with_buffer b s).
Proof.
  unfold transform_data. destruct (JSON_parse eng payload) as [data|e]; [|done].
  destruct (get_prop data (lit "usage")) as [u|e]; [|done].
  destruct (truthy u); simpl;
    destruct (transform_choices _ _ _ _) as [[data'|e] flag]; done.
Qed.

Lemma transform_message_buffer (eng : Engine) (m : jsstring)
    (st : StreamState) (b message : jsstring) :
  transform_message eng m (with_buffer b st) message =
  let '(o, s) := transform_message eng m st message in (o, with_buffer b s).
Proof.
  unfold transform_message. destruct (trim message) as [|c t]; [done|].
  destruct (jsstring_eqb _ _); [done|].
  destruct (startsWith _ _); [|done].
  rewrite transform_data_buffer.
  by destruct (transform_data eng m st _) as [[text|e] s].
Qed.

Lemma transform_messages_buffer (eng : Engine) (m : jsstring)
    (st : StreamState) (b : jsstring) (l : list jsstring) :
  transform_messages eng m (with_buffer b st) l =
  let '(o, s) := transform_messages eng m st l in (o, with_buffer b s).
Proof.
  revert st. induction l as [|message l IH]; intros st; simpl; [done|].
  rewrite transform_message_buffer.
  destruct (transform_message eng m st message) as [o s].
  rewrite IH. by destruct (transform_messages eng m s l).
Qed.

Lemma transform_messages_app (eng : Engine) (m : jsstring)
    (st : StreamState) (l1 l2 : list jsstring) :
  transform_messages eng m st (l1 ++ l2) =
  let '(o1, s1) := transform_messages eng m st l1 in
  let '(o2, s2) := transform_messages eng m s1 l2 in
  (o1 ++ o2, s2).
Proof.
  revert st. induction l1 as [|message l1 IH]; intros st; simpl.
  - by destruct (transform_messages eng m st l2).
  - destruct (transform_message eng m st message) as [o s].
    rewrite IH. destruct (transform_messages eng m s l1) as [o1 s1].
    destruct (transform_messages eng m s1 l2) as [o2 s2].
    by rewrite app_assoc.
Qed.

Lemma with_buffer_twice (b b' : jsstring) (st : StreamState) :
  with_buffer b (with_buffer b' st) = with_buffer b st.
Proof. done. Qed.

Lemma removelast_app_ne {A} (l1 l2 : list A) :
  l2 <> [] -> removelast (l1 ++ l2) = l1 ++ removelast l2.
Proof. intros H. by apply removelast_app. Qed.

Lemma last_app_ne {A} (l1 l2 : list A) :
  l2 <> [] -> last (l1 ++ l2) = last l2.
Proof.
  intros H. rewrite last_app. destruct (last l2) eqn:Hl; [done|].
  by apply last_None in Hl.
Qed.

(** Where decoding the two parts of a chunk one after the other gives the
    text of the whole chunk, feeding the parts one after the other sends
    the same bytes, and leaves the same state, as feeding the chunk
    whole. *)
Lemma transform_chunk_split_text (eng : Engine) (m : jsstring)
    (st : StreamState) (a b : list Z) :
  TextDecoder_decode (a ++ b) = TextDecoder_decode a ++ TextDecoder_decode b ->
  transform_chunk eng m st (a ++ b) =
  let '(o1, s1) := transform_chunk eng m st a in
  let '(o2, s2) := transform_chunk eng m s1 b in
  (o1 ++ o2, s2).
Proof.
  intros Hdec. unfold transform_chunk. cbv zeta.
  fold (with_buffer
          (default [] (last (split [10; 10]
                               (buffer st ++ TextDecoder_decode (a ++ b))))) st).
  fold (with_buffer
          (default [] (last (split [10; 10]
                               (buffer st ++ TextDecoder_decode a)))) st).
  rewrite Hdec, app_assoc, split_app by done.
  set (l1 := split [10; 10] (buffer st ++ TextDecoder_decode a)).
  set (l2 := split [10; 10] (default [] (last l1) ++ TextDecoder_decode b)).
  assert (Hl2 : l2 <> []) by apply split_nonempty.
  rewrite removelast_app_ne, last_app_ne by done.
  rewrite transform_messages_app, !transform_messages_buffer.
  destruct (transform_messages eng m st (removelast l1)) as [o1 s1].
  rewrite transform_messages_buffer.
  change (buffer (with_buffer (default [] (last l1)) s1))
    with (default [] (last l1)).
  fold l2.
  change (mkStreamState (default [] (last l2))
            (isProcessingReasoning (with_buffer (default [] (last l1)) s1))
            (s_totalTokens (with_buffer (default [] (last l1)) s1))
            (s_promptTokens (with_buffer (default [] (last l1)) s1))
            (s_completionTokens (with_buffer (default [] (last l1)) s1)))
    with (with_buffer (default [] (last l2)) s1).
  rewrite transform_messages_buffer.
  by destruct (transform_messages eng m s1 (removelast l2)).
Qed.

Lemma utf8_run_ascii (chunk : list Z) :
  ascii_bytes chunk -> utf8_run utf8_start chunk = chunk.
Proof.
  induction 1 as [|c chunk [Hlo Hhi] _ IH]; [done|].
  cbn [utf8_run]. unfold utf8_step, utf8_lead. cbn [u_needed utf8_start].
  destruct ((0 <=? c) && (c <=? 127)) eqn:Hc.
  - simpl. by rewrite IH.
  - apply andb_false_iff in Hc as [Hc|Hc];
      [apply Z.leb_gt in Hc | apply Z.leb_gt in Hc]; lia.
Qed.

Lemma TextDecoder_decode_ascii (chunk : list Z) :
  ascii_bytes chunk -> TextDecoder_decode chunk = chunk.
Proof.
  intros Hascii. unfold TextDecoder_decode.
  rewrite (utf8_run_ascii _ Hascii). cbv zeta.
  assert (Hunits : concat (map utf16_units chunk) = chunk).
  { induction Hascii as [|c chunk [Hlo Hhi] _ IH]; [done|].
    simpl. rewrite IH. unfold utf16_units.
    destruct (c <? 65536) eqn:Hc; [done|]. apply Z.ltb_ge in Hc. lia. }
  destruct Hascii as [|c chunk [Hlo Hhi] Hrest]; [done|].
  destruct (c =? 65279) eqn:Hc; [apply Z.eqb_eq in Hc; lia|]. exact Hunits.
Qed.

(** A chunk of ASCII bytes cut at any offset: the two parts sent one
    after the other give the output and the state of the whole chunk. *)
Lemma transform_chunk_split_ascii (eng : Engine) (m : jsstring)
    (st : StreamState) (chunk : list Z) (offset : nat) :
  ascii_bytes chunk ->
  transform_chunk eng m st chunk =
  let '(o1, s1) := transform_chunk eng m st (take offset chunk) in
  let '(o2, s2) := transform_chunk eng m s1 (drop offset chunk) in
  (o1 ++ o2, s2).
Proof.
  intros Hascii. rewrite <- (take_drop offset chunk) at 1.
  apply transform_chunk_split_text.
  rewrite !TextDecoder_decode_ascii; [done|..].
  - by apply Forall_drop.
  - by apply Forall_take.
  - by rewrite take_drop.
Qed.

(* ================================================================= *)
(** * Further properties *)

(** ** The manager's operations *)

Lemma select_metric (alg : jsstring) (l : list ApiKey) (chosen : ApiKey) :
  select alg l = Some chosen ->
  forall y, y ∈ l -> metric alg chosen <= metric alg y.
Proof.
  intros Hsel y Hy. unfold select, metric in *.
  destruct (jsstring_eqb alg (lit "round-robin")).
  { by apply (sort_head_min (fun k => lastUsed (usage k)) l chosen). }
  destruct (jsstring_eqb alg (lit "least-used")).
  { by apply (sort_head_min (fun k => totalRequests (usage k)) l chosen). }
  destruct (jsstring_eqb alg (lit "token-balanced")).
  { by apply (sort_head_min (fun k => totalTokens (usage k)) l chosen). }
  done.
Qed.

(** What a successful [getKey] or [retryWithFreshKey] has done. *)
Lemma getKey_ok (ck : Clock) (cfg : option KeyPoolConfig) (w : World)
    (id : jsstring) (w' : World) :
  getKey ck cfg None w = (Ok id, w') ->
  exists chosen,
    select (algorithm_of cfg) (enabledKeys_of (pool w)) = Some chosen /\
    key chosen = id /\
    current (rateLimit chosen) < rpm (rateLimit chosen) /\
    w' = mkWorld (<[id := mark_used (clock ck (ticks w)) chosen]> (pool w))
           (S (ticks w)) (fetched w).
Proof.
  intros Hrun.
  destruct (decide (pool w = ∅)) as [He|Hne].
  { unfold getKey, bind, listKeys in Hrun. simpl in Hrun.
    by rewrite (proj2 (listKeys_nil _) He) in Hrun. }
  destruct (decide (enabledKeys_of (pool w) = [])) as [Hl|Hl].
  { unfold getKey, bind, listKeys in Hrun. simpl in Hrun.
    fold (enabledKeys_of (pool w)) in Hrun. rewrite Hl in Hrun.
    by destruct ((map_to_list (pool w)).*2). }
  rewrite getKey_unfold in Hrun by done.
  apply take_key_ok in Hrun as (chosen & Hsel & Hid & Hlt & ->).
  exists chosen. by rewrite <- Hid.
Qed.

Lemma take_key_cases ck m1 m2 sel w r w' :
  take_key ck m1 m2 sel w = (r, w') ->
  (w' = w /\ exists e, r = Throw e) \/
  (exists chosen,
     sel = Some chosen /\ r = Ok (key chosen) /\
     current (rateLimit chosen) < rpm (rateLimit chosen) /\
     w' = mkWorld (<[key chosen := mark_used (clock ck (ticks w)) chosen]> (pool w))
            (S (ticks w)) (fetched w)).
Proof.
  destruct r as [id|e]; intros Hrun.
  - right. apply take_key_ok in Hrun as (chosen & Hsel & <- & Hlt & ->).
    by exists chosen.
  - left. split; [|by exists e]. unfold take_key in Hrun.
    destruct sel as [chosen|]; [|by injection Hrun].
    destruct (_ >=? _); [by injection Hrun|].
    unfold bind, date_now, redis_set, ret in Hrun; simpl in Hrun. done.
Qed.

Lemma getKey_cases (ck : Clock) (cfg : option KeyPoolConfig) (w : World)
    (r : Res jsstring) (w' : World) :
  getKey ck cfg None w = (r, w') ->
  (w' = w /\ exists e, r = Throw e) \/
  (exists chosen,
     select (algorithm_of cfg) (enabledKeys_of (pool w)) = Some chosen /\
     r = Ok (key chosen) /\
     current (rateLimit chosen) < rpm (rateLimit chosen) /\
     w' = mkWorld (<[key chosen := mark_used (clock ck (ticks w)) chosen]> (pool w))
            (S (ticks w)) (fetched w)).
Proof.
  unfold getKey, bind, listKeys. simpl. fold (enabledKeys_of (pool w)).
  destruct ((map_to_list (pool w)).*2).
  { intros [= <- <-]. left. eauto. }
  destruct (enabledKeys_of (pool w)) eqn:Hl.
  { intros [= <- <-]. left. eauto. }
  rewrite <- Hl. apply take_key_cases.
Qed.

Lemma retryWithFreshKey_cases (ck : Clock) (cfg : option KeyPoolConfig)
    (x : jsstring) (w : World) (r : Res jsstring) (w' : World) :
  retryWithFreshKey ck cfg x w = (r, w') ->
  (w' = w /\ exists e, r = Throw e) \/
  (exists chosen,
     select (algorithm_of cfg)
       (filter (fun k => enabled k = true /\ key k <> x)
          ((map_to_list (pool w)).*2)) = Some chosen /\
     r = Ok (key chosen) /\
     current (rateLimit chosen) < rpm (rateLimit chosen) /\
     w' = mkWorld (<[key chosen := mark_used (clock ck (ticks w)) chosen]> (pool w))
            (S (ticks w)) (fetched w)).
Proof.
  unfold retryWithFreshKey, bind, listKeys. simpl.
  destruct (filter _ _) eqn:Hl.
  { intros [= <- <-]. left. eauto. }
  rewrite <- Hl. apply take_key_cases.
Qed.

(** A record selected from a well-formed store sits under the identifier
    returned. *)
Lemma selected_stored (p : gmap jsstring ApiKey) (l : list ApiKey)
    (alg : jsstring) (chosen : ApiKey) :
  pool_wf p -> (forall v, v ∈ l -> v ∈ (map_to_list p).*2) ->
  select alg l = Some chosen ->
  p !! key chosen = Some chosen.
Proof.
  intros Hwf Hsub Hsel. apply select_elem, Hsub, listKeys_elem in Hsel as [k Hk].
  by rewrite (Hwf _ _ Hk).
Qed.

Lemma enabledKeys_sub (p : gmap jsstring ApiKey) (v : ApiKey) :
  v ∈ enabledKeys_of p -> v ∈ (map_to_list p).*2.
Proof. unfold enabledKeys_of. by intros [_ H]%list_elem_of_filter. Qed.

Lemma disableKey_lookup (ck : Clock) (k reason : jsstring) (w : World)
    (r : Res unit) (w' : World) :
  disableKey ck k reason w = (r, w') ->
  r = Ok tt /\ fetched w' = fetched w /\
  (pool w !! k = None -> w' = w) /\
  pool w' !! k =
    (fun d => mkApiKey (key d) (rateLimit d) (usage d) (algorithm d)
                false (Some reason) (Some (clock ck (ticks w))))
      <$> pool w !! k /\
  (forall k', k' <> k -> pool w' !! k' = pool w !! k').
Proof.
  unfold disableKey, bind, redis_get, date_now, redis_set. simpl.
  destruct (pool w !! k) as [d|] eqn:Hk; simpl; intros [= <- <-]; simpl.
  - repeat split; try done.
    + apply lookup_insert_eq.
    + intros k' Hne. by apply lookup_insert_ne.
  - by rewrite Hk.
Qed.

(** X1. Once [disableKey] has run for an identifier, neither [getKey]
    nor [retryWithFreshKey] returns that identifier (on a well-formed
    store); an identifier that is not stored leaves the world as it was,
    and no other record is touched. *)
Theorem disableKey_excludes (ck : Clock) (cfg : option KeyPoolConfig)
    (k reason : jsstring) (w w1 : World) (r : Res unit) :
  pool_wf (pool w) ->
  disableKey ck k reason w = (r, w1) ->
  (forall id w2, getKey ck cfg None w1 = (Ok id, w2) -> id <> k) /\
  (forall x id w2, retryWithFreshKey ck cfg x w1 = (Ok id, w2) -> id <> k) /\
  (pool w !! k = None -> w1 = w) /\
  (forall k', k' <> k -> pool w1 !! k' = pool w !! k').
Proof.
  intros Hwf Hdis.
  pose proof (disableKey_wf _ _ _ _ _ _ Hwf Hdis) as Hwf1.
  apply disableKey_lookup in Hdis as (_ & _ & Hnone & Hk & Hother).
  assert (Hoff : forall v, pool w1 !! k = Some v -> enabled v = false).
  { intros v. rewrite Hk. destruct (pool w !! k); [|done]. by intros [= <-]. }
  split; [|split; [|done]].
  - intros id w2 Hrun <-. apply getKey_ok in Hrun as (chosen & Hsel & Hid & _).
    pose proof (select_elem _ _ _ Hsel) as Hin.
    apply enabledKeys_elem in Hin as [Hen _].
    apply (selected_stored _ _ _ _ Hwf1 (enabledKeys_sub _)) in Hsel.
    rewrite Hid in Hsel. rewrite (Hoff chosen Hsel) in Hen. done.
  - intros x id w2 Hrun <-.
    apply retryWithFreshKey_cases in Hrun as [[_ [e He]]|(chosen & Hsel & Hr & _)];
      [done|].
    injection Hr as Hid.
    pose proof (select_elem _ _ _ Hsel) as Hin.
    apply list_elem_of_filter in Hin as [[Hen _] Hin].
    apply listKeys_elem in Hin as [k0 Hk0].
    rewrite (Hwf1 _ _ Hk0) in Hid. subst k0.
    rewrite (Hoff chosen Hk0) in Hen. done.
Qed.

Lemma sample_world_two_wf : pool_wf (pool sample_world_two).
Proof.
  apply (pool_wf_insert _ (sample_key "A" 2 1 0 1 true)).
  apply (pool_wf_insert _ (sample_key "B" 2 0 0 5 true)).
  apply pool_wf_empty.
Qed.

Lemma disableKey_excludes_witness :
  exists w1,
    disableKey sample_clock (lit "A") (lit "spent") sample_world_two
      = (Ok tt, w1) /\
    (forall id w2, getKey sample_clock None None w1 = (Ok id, w2) ->
     id <> lit "A") /\
    getKey sample_clock None None w1
      = (Ok (lit "B"), snd (getKey sample_clock None None w1)).
Proof.
  eexists. split; [reflexivity|]. split.
  - exact (proj1 (disableKey_excludes sample_clock None (lit "A")
                    (lit "spent") sample_world_two _ (Ok tt)
                    sample_world_two_wf eq_refl)).
  - vm_compute. reflexivity.
Defined.

(** X2. A disabled credential stays disabled: on a well-formed store
    [getKey] and [retryWithFreshKey] leave its record exactly as it was,
    and [updateKeyStats] and the sweep keep it stored with
    [enabled = false] and its reason. *)
Theorem disabled_stays_disabled (ck : Clock) (cfg : option KeyPoolConfig)
    (w : World) (k : jsstring) (d : ApiKey) :
  pool_wf (pool w) ->
  pool w !! k = Some d ->
  enabled d = false ->
  (forall r w', getKey ck cfg None w = (r, w') -> pool w' !! k = Some d) /\
  (forall x r w', retryWithFreshKey ck cfg x w = (r, w') ->
   pool w' !! k = Some d) /\
  (forall x u r w', updateKeyStats x u w = (r, w') ->
   exists d', pool w' !! k = Some d' /\ enabled d' = false /\
     disabledReason d' = disabledReason d) /\
  (forall r w', resetRateLimits ck w = (r, w') ->
   exists d', pool w' !! k = Some d' /\ enabled d' = false /\
     disabledReason d' = disabledReason d).
Proof.
  intros Hwf Hk Hoff.
  assert (Hmark : forall l chosen,
            (forall v, v ∈ l -> enabled v = true /\ v ∈ (map_to_list (pool w)).*2) ->
            select (algorithm_of cfg) l = Some chosen ->
            (<[key chosen := mark_used (clock ck (ticks w)) chosen]> (pool w))
              !! k = Some d).
  { intros l chosen Hl Hsel.
    pose proof (select_elem _ _ _ Hsel) as Hin. apply Hl in Hin as [Hen _].
    apply (selected_stored (pool w)) in Hsel; [|done|by intros v [_ ?]%Hl].
    rewrite lookup_insert_ne; [done|]. intros Heq. rewrite Heq in Hsel.
    rewrite Hk in Hsel. injection Hsel as ->. congruence. }
  split; [|split; [|split]].
  - intros r w' [[-> _]|(chosen & Hsel & _ & _ & ->)]%getKey_cases; [done|].
    simpl. apply (Hmark (enabledKeys_of (pool w))); [|done].
    intros v Hv. split; [by apply enabledKeys_elem in Hv as [? _]|].
    by apply enabledKeys_sub.
  - intros x r w' [[-> _]|(chosen & Hsel & _ & _ & ->)]%retryWithFreshKey_cases;
      [done|].
    simpl. eapply Hmark; [|exact Hsel].
    by intros v [[? _] ?]%list_elem_of_filter.
  - intros x u r w'. unfold updateKeyStats, bind, redis_get, redis_set. simpl.
    destruct (pool w !! x) as [dx|] eqn:Hx; simpl; intros [= _ <-]; simpl;
      [|by exists d].
    destruct (decide (x = k)) as [->|Hne].
    + rewrite lookup_insert_eq. eexists. split; [done|]. simpl.
      rewrite Hk in Hx. injection Hx as <-. done.
    + rewrite lookup_insert_ne by done. by exists d.
  - intros r w' Hrun.
    destruct (resetRateLimits_lookup ck w Hwf) as (w0 & Hrun0 & _ & _ & Hl).
    rewrite Hrun0 in Hrun. injection Hrun as _ <-.
    rewrite Hl, Hk. simpl. eexists. split; [done|].
    unfold sweep_record. by case_match.
Qed.

Lemma disabled_stays_disabled_witness :
  pool (snd (getKey sample_clock None None sample_world)) !! lit "B"
    = Some (sample_key "B" 2 0 0 1 false) /\
  fst (getKey sample_clock None None sample_world) = Ok (lit "A").
Proof.
  split; [|reflexivity].
  exact (proj1 (disabled_stays_disabled sample_clock None sample_world
                  (lit "B") (sample_key "B" 2 0 0 1 false)
                  sample_world_wf eq_refl eq_refl)
           _ _ (surjective_pairing _)).
Defined.

(** X4. The credential that [getKey] returns is enabled, stored under the
    identifier returned, and least among the enabled records for the field
    of the configured algorithm ([lastUsed], [totalRequests] or
    [totalTokens]); [retryWithFreshKey] returns one that is least among
    the enabled records other than the excluded one. *)
Theorem selection_picks_least (ck : Clock) (cfg : option KeyPoolConfig)
    (w : World) :
  pool_wf (pool w) ->
  (forall id w', getKey ck cfg None w = (Ok id, w') ->
   exists chosen,
     pool w !! id = Some chosen /\ enabled chosen = true /\
     forall k v, pool w !! k = Some v -> enabled v = true ->
       metric (algorithm_of cfg) chosen <= metric (algorithm_of cfg) v) /\
  (forall x id w', retryWithFreshKey ck cfg x w = (Ok id, w') ->
   exists chosen,
     pool w !! id = Some chosen /\ enabled chosen = true /\ id <> x /\
     forall k v, pool w !! k = Some v -> enabled v = true -> k <> x ->
       metric (algorithm_of cfg) chosen <= metric (algorithm_of cfg) v).
Proof.
  intros Hwf. split.
  - intros id w' (chosen & Hsel & <- & _)%getKey_ok.
    exists chosen. split; [|split].
    + apply (selected_stored _ _ _ _ Hwf (enabledKeys_sub _) Hsel).
    + by apply select_elem, enabledKeys_elem in Hsel as [? _].
    + intros k v Hk Hen. apply (select_metric _ _ _ Hsel).
      apply enabledKeys_elem. eauto.
  - intros x id w' Hrun.
    apply retryWithFreshKey_cases in Hrun as [[_ [e He]]|(chosen & Hsel & Hr & _)];
      [done|].
    injection Hr as ->. exists chosen.
    pose proof (select_elem _ _ _ Hsel) as Hin.
    apply list_elem_of_filter in Hin as [[Hen Hne] Hin].
    split; [|split; [done|split; [done|]]].
    + apply (selected_stored (pool w) _ _ _ Hwf) in Hsel; [done|].
      by intros v [_ ?]%list_elem_of_filter.
    + intros k v Hk Hv Hkx. apply (select_metric _ _ _ Hsel).
      apply list_elem_of_filter. split.
      * split; [done|]. by rewrite (Hwf _ _ Hk).
      * apply listKeys_elem. eauto.
Qed.

Lemma selection_picks_least_witness :
  exists chosen,
    pool sample_world_two !! lit "A" = Some chosen /\ enabled chosen = true /\
    forall k v, pool sample_world_two !! k = Some v -> enabled v = true ->
      metric (lit "round-robin") chosen <= metric (lit "round-robin") v.
Proof.
  exact (proj1 (selection_picks_least sample_clock None sample_world_two
                  sample_world_two_wf)
           (lit "A") (snd (getKey sample_clock None None sample_world_two))
           eq_refl).
Defined.

(** X5. Under round-robin two selections in a row never return the same
    credential, provided another enabled credential exists whose last use
    lies before the clock reading of the first selection. *)
Theorem round_robin_alternates (ck : Clock) (cfg : option KeyPoolConfig)
    (w w1 w2 : World) (id1 id2 k : jsstring) (v : ApiKey) :
  pool_wf (pool w) ->
  algorithm_of cfg = lit "round-robin" ->
  getKey ck cfg None w = (Ok id1, w1) ->
  getKey ck cfg None w1 = (Ok id2, w2) ->
  pool w !! k = Some v -> enabled v = true -> k <> id1 ->
  lastUsed (usage v) < clock ck (ticks w) ->
  id2 <> id1.
Proof.
  intros Hwf Halg Hrun1 Hrun2 Hk Hen Hne Hclock Heq.
  pose proof (getKey_wf _ _ _ _ _ _ Hwf Hrun1) as Hwf1.
  apply getKey_ok in Hrun1 as (c1 & _ & _ & _ & ->).
  apply getKey_ok in Hrun2 as (c2 & Hsel & Hid2 & _). simpl in *.
  pose proof (selected_stored _ _ _ _ Hwf1 (enabledKeys_sub _) Hsel) as Hst.
  rewrite Hid2, Heq, lookup_insert_eq in Hst. injection Hst as Hc2.
  assert (Hv : v ∈ enabledKeys_of
                 (<[id1 := mark_used (clock ck (ticks w)) c1]> (pool w))).
  { apply enabledKeys_elem. split; [done|]. exists k.
    by rewrite lookup_insert_ne. }
  pose proof (select_metric _ _ _ Hsel v Hv) as Hle.
  rewrite Halg in Hle. unfold metric, jsstring_eqb in Hle.
  rewrite bool_decide_eq_true_2 in Hle by done.
  rewrite <- Hc2 in Hle. simpl in Hle. lia.
Qed.

Lemma round_robin_alternates_witness :
  let w1 := snd (getKey sample_clock None None sample_world_two) in
  let w2 := snd (getKey sample_clock None None w1) in
  getKey sample_clock None None sample_world_two = (Ok (lit "A"), w1) /\
  getKey sample_clock None None w1 = (Ok (lit "B"), w2) /\
  lit "B" <> lit "A".
Proof.
  intros w1 w2. split; [reflexivity|]. split; [reflexivity|].
  apply (round_robin_alternates sample_clock None sample_world_two w1 w2
           (lit "A") (lit "B") (lit "B") (sample_key "B" 2 0 0 5 true)
           sample_world_two_wf eq_refl eq_refl eq_refl eq_refl eq_refl).
  - discriminate.
  - simpl. lia.
Defined.



Lemma take_key_throw ck m1 m2 chosen w r w' :
  take_key ck m1 m2 (Some chosen) w = (r, w') ->
  forall e, r = Throw e -> e = Error m2 /\ rpm (rateLimit chosen) <= current (rateLimit chosen).
Proof.
  unfold take_key. destruct (_ >=? _) eqn:Hc.
  - intros [= <- _] e [= <-]. split; [done|]. lia.
  - unfold bind, date_now, redis_set, ret; simpl. by intros [= <- _] e.
Qed.

(** X7. The failures of [getKey] without a caller's key: the empty-pool
    error exactly when the store is empty, the none-enabled error exactly
    when the store holds records and all are disabled, otherwise only the
    rate-limit error; the selection-failed error is never raised; and a
    failed call leaves the world as it was. *)
Theorem getKey_failures (ck : Clock) (cfg : option KeyPoolConfig) (w : World)
    (r : Res jsstring) (w' : World) :
  getKey ck cfg None w = (r, w') ->
  (r = Throw (Error msg_no_keys) <-> pool w = ∅) /\
  (r = Throw (Error msg_none_enabled) <->
     pool w <> ∅ /\ forall k v, pool w !! k = Some v -> enabled v = false) /\
  (forall e, r = Throw e ->
     w' = w /\
     (e = Error msg_no_keys \/ e = Error msg_none_enabled \/
      e = Error msg_rate_limit)).
Proof.
  intros Hrun.
  destruct (decide (pool w = ∅)) as [He|Hne].
  { unfold getKey, bind, listKeys in Hrun. simpl in Hrun.
    rewrite (proj2 (listKeys_nil _) He) in Hrun. injection Hrun as <- <-.
    split; [done|]. split.
    - split; [intros H; vm_compute in H; discriminate H|by intros [? _]].
    - intros e [= <-]. auto. }
  destruct (decide (enabledKeys_of (pool w) = [])) as [Hl|Hl].
  { assert (Hoff : forall k v, pool w !! k = Some v -> enabled v = false).
    { intros k v Hk. destruct (enabled v) eqn:Hen; [|done].
      assert (Hv : v ∈ enabledKeys_of (pool w))
        by (apply enabledKeys_elem; eauto).
      rewrite Hl in Hv. by apply elem_of_nil in Hv. }
    unfold getKey, bind, listKeys in Hrun. simpl in Hrun.
    fold (enabledKeys_of (pool w)) in Hrun. rewrite Hl in Hrun.
    destruct ((map_to_list (pool w)).*2) eqn:Hk.
    { by apply listKeys_nil in Hk. }
    injection Hrun as <- <-.
    split; [split; [intros H; vm_compute in H; discriminate H|done]|]. split; [done|].
    intros e [= <-]. auto. }
  rewrite getKey_unfold in Hrun by done.
  destruct (select_nonempty (algorithm_of cfg) _ Hl) as [chosen Hsel].
  rewrite Hsel in Hrun.
  pose proof (take_key_throw _ _ _ _ _ _ _ Hrun) as Hthrow.
  pose proof (select_elem _ _ _ Hsel) as Hin.
  apply enabledKeys_elem in Hin as [Hen [k Hk]].
  split; [|split].
  - split; [|done]. intros Hr. destruct (Hthrow _ Hr) as [H _]. vm_compute in H. discriminate H.
  - split.
    + intros Hr. destruct (Hthrow _ Hr) as [H _]. vm_compute in H. discriminate H.
    + intros [_ Hoff]. apply Hoff in Hk. congruence.
  - intros e Hr. destruct (Hthrow _ Hr) as [-> _]. split; [|auto].
    apply take_key_cases in Hrun as [[-> _]|(c & _ & Hok & _)]; [done|].
    congruence.
Qed.

Lemma getKey_failures_witness :
  getKey sample_clock None None sample_world_disabled
    = (Throw (Error msg_none_enabled), sample_world_disabled) /\
  pool sample_world_disabled <> ∅ /\
  forall k v, pool sample_world_disabled !! k = Some v -> enabled v = false.
Proof.
  split; [reflexivity|].
  exact (proj1 (proj1 (proj2
           (getKey_failures sample_clock None sample_world_disabled
              (Throw (Error msg_none_enabled)) sample_world_disabled eq_refl)))
           eq_refl).
Defined.

(** X8. The failures of [retryWithFreshKey]: the no-available-keys error
    exactly when no enabled record other than the excluded one is stored,
    otherwise only the rate-limit error of the retry; the selection-failed
    error is never raised; and a failed call leaves the world as it was. *)
Theorem retryWithFreshKey_failures (ck : Clock) (cfg : option KeyPoolConfig)
    (x : jsstring) (w : World) (r : Res jsstring) (w' : World) :
  pool_wf (pool w) ->
  retryWithFreshKey ck cfg x w = (r, w') ->
  (r = Throw (Error msg_retry_none) <->
     forall k v, pool w !! k = Some v -> enabled v = true -> k = x) /\
  (forall e, r = Throw e ->
     w' = w /\ (e = Error msg_retry_none \/ e = Error msg_retry_limit)).
Proof.
  intros Hwf Hrun.
  pose proof (retryWithFreshKey_cases _ _ _ _ _ _ Hrun) as Hcases.
  unfold retryWithFreshKey, bind, listKeys in Hrun. simpl in Hrun.
  destruct (filter _ _) as [|a l] eqn:Hl.
  - injection Hrun as <- <-. split.
    + split; [|done]. intros _ k v Hk Hen.
      destruct (decide (k = x)) as [|Hne]; [done|].
      assert (Hv : v ∈ filter (fun k0 : ApiKey => enabled k0 = true /\ key k0 <> x)
                     (map_to_list (pool w)).*2).
      { apply list_elem_of_filter. rewrite (Hwf _ _ Hk).
        split; [done|]. apply listKeys_elem. eauto. }
      rewrite Hl in Hv. by apply elem_of_nil in Hv.
    + intros e [= <-]. auto.
  - assert (Hne : a :: l <> []) by done.
    destruct (select_nonempty (algorithm_of cfg) _ Hne) as [chosen Hsel].
    rewrite Hsel in Hrun.
    pose proof (take_key_throw _ _ _ _ _ _ _ Hrun) as Hthrow.
    split.
    + split.
      * intros Hr. destruct (Hthrow _ Hr) as [H _]. vm_compute in H. discriminate H.
      * intros Hall. exfalso.
        assert (Ha : a ∈ a :: l) by apply list_elem_of_here.
        rewrite <- Hl in Ha.
        apply list_elem_of_filter in Ha as [[Hen Hkey] [k Hk]%listKeys_elem].
        apply Hkey. rewrite (Hwf _ _ Hk). by eapply Hall.
    + intros e Hr. destruct (Hthrow _ Hr) as [-> _]. split; [|auto].
      destruct Hcases as [[-> _]|(c & _ & Hok & _)]; [done|]. congruence.
Qed.

Lemma retryWithFreshKey_failures_witness :
  retryWithFreshKey sample_clock None (lit "A") sample_world
    = (Throw (Error msg_retry_none), sample_world) /\
  forall k v, pool sample_world !! k = Some v -> enabled v = true -> k = lit "A".
Proof.
  split; [reflexivity|].
  exact (proj1 (proj1
           (retryWithFreshKey_failures sample_clock None (lit "A") sample_world
              (Throw (Error msg_retry_none)) sample_world sample_world_wf
              eq_refl))
           eq_refl).
Defined.

(** X9. Adding an identifier again replaces whatever is stored under it:
    after [disableKey] and then [addKey] for the same identifier the
    record is enabled, carries no reason and no time of disabling, and
    all its counters are zero, whatever they were before; the other
    records are untouched and neither call fails. *)
Theorem addKey_after_disableKey (ck : Clock) (cfg : option KeyPoolConfig)
    (k reason : jsstring) (r : option Z) (w : World) :
  exists w' v,
    (disableKey ck k reason ;;; addKey ck cfg k r) w = (Ok tt, w') /\
    pool w' !! k = Some v /\
    key v = k /\ enabled v = true /\
    disabledReason v = None /\ disabledAt v = None /\
    usage v = mkKeyUsage 0 0 0 0 0 /\ current (rateLimit v) = 0 /\
    rpm (rateLimit v) = num_or r (num_or (defaultRpm <$> cfg) 60) /\
    (forall k', k' <> k -> pool w' !! k' = pool w !! k').
Proof.
  unfold bind. destruct (disableKey ck k reason w) as [res w1] eqn:Hd.
  apply disableKey_lookup in Hd as (-> & _ & _ & _ & Hother).
  unfold addKey, bind, date_now, redis_set. simpl.
  eexists _, _. split; [reflexivity|]. simpl.
  split; [apply lookup_insert_eq|]. simpl. repeat split.
  intros k' Hne. rewrite lookup_insert_ne by done. by apply Hother.
Qed.

Lemma addKeys_loop_wf (ck : Clock) (cfg : option KeyPoolConfig)
    (keys : list (jsstring * option Z)) (s f : list jsstring) (w : World)
    (r : Res (list jsstring * list jsstring)) (w' : World) :
  pool_wf (pool w) -> addKeys_loop ck cfg keys s f w = (r, w') ->
  pool_wf (pool w').
Proof.
  revert s f w. induction keys as [|[k rp] rest IH]; intros s f w Hwf.
  - by intros [= _ <-].
  - cbn [addKeys_loop]. unfold bind at 1, try_catch, bind at 1.
    destruct (addKey ck cfg k rp w) as [res w1] eqn:Ha.
    pose proof (addKey_wf _ _ _ _ _ _ _ Hwf Ha) as Hwf1.
    destruct res; simpl; by apply IH.
Qed.

(** X10. Every operation of the manager keeps the store well formed:
    each record stays under the identifier it carries, so [listKeys]
    never shows two records with the same identifier. *)
Theorem manager_keeps_wf (ck : Clock) (cfg : option KeyPoolConfig) (w : World) :
  pool_wf (pool w) ->
  NoDup (key <$> (map_to_list (pool w)).*2) /\
  (forall u r w', getKey ck cfg u w = (r, w') -> pool_wf (pool w')) /\
  (forall x r w', retryWithFreshKey ck cfg x w = (r, w') -> pool_wf (pool w')) /\
  (forall k rp r w', addKey ck cfg k rp w = (r, w') -> pool_wf (pool w')) /\
  (forall ks r w', addKeys ck cfg ks w = (r, w') -> pool_wf (pool w')) /\
  (forall k reason r w', disableKey ck k reason w = (r, w') -> pool_wf (pool w')) /\
  (forall k u r w', updateKeyStats k u w = (r, w') -> pool_wf (pool w')) /\
  (forall r w', resetRateLimits ck w = (r, w') -> pool_wf (pool w')).
Proof.
  intros Hwf. split.
  { rewrite pool_wf_keys by done. apply NoDup_fst_map_to_list. }
  split; [intros; by eapply getKey_wf|].
  split; [intros; by eapply retryWithFreshKey_wf|].
  split; [intros; by eapply addKey_wf|].
  split; [intros; by eapply addKeys_loop_wf|].
  split; [intros; by eapply disableKey_wf|].
  split; [intros; by eapply updateKeyStats_wf|].
  intros r w' Hrun.
  destruct (resetRateLimits_lookup ck w Hwf) as (w1 & Hr & _ & _ & Hl).
  rewrite Hr in Hrun. injection Hrun as _ <-.
  intros k v Hk. rewrite Hl in Hk.
  destruct (pool w !! k) as [d|] eqn:Hd; [|done].
  injection Hk as <-. rewrite <- (Hwf _ _ Hd).
  unfold sweep_record. by destruct (_ >=? _).
Qed.

Lemma manager_keeps_wf_witness :
  pool_wf (pool (snd (getKey sample_clock None None sample_world_two))).
Proof.
  exact (proj1 (proj2 (manager_keeps_wf sample_clock None sample_world_two
                         sample_world_two_wf))
           None _ _ eq_refl).
Defined.

(** ** The request with its retries *)

Lemma all_disabled_insert (p : gmap jsstring ApiKey) (ids : list jsstring)
    (k : jsstring) (v : ApiKey) :
  all_disabled p ids -> (k ∈ ids -> enabled v = false) ->
  all_disabled (<[k := v]> p) ids.
Proof.
  intros Hall Hk t Ht v' Hv'. destruct (decide (t = k)) as [->|Hne].
  - rewrite lookup_insert_eq in Hv'. injection Hv' as <-. by apply Hk.
  - rewrite lookup_insert_ne in Hv' by done. by eapply Hall.
Qed.

(** The credentials of the upstream calls of one [sendRequest], given
    the credentials tried before: none is tried again, all but the last
    end up disabled, and a response comes with the last one. *)
Lemma sendRequest_rec_tried (b : nat) (env : Env)
    (cfg : option KeyPoolConfig) (k : jsstring) (n : nat) (w : World)
    (r : Res (Response * jsstring)) (w' : World) (tried : list jsstring) :
  pool_wf (pool w) -> all_disabled (pool w) tried -> k ∉ tried ->
  sendRequest_rec b env cfg k n w = (r, w') ->
  exists ks,
    fetched w' = fetched w ++ ks /\
    NoDup ks /\ (forall t, t ∈ tried -> t ∉ ks) /\
    pool_wf (pool w') /\
    all_disabled (pool w') (tried ++ removelast ks) /\
    (forall resp k', r = Ok (resp, k') -> last ks = Some k').
Proof.
  revert k n w tried.
  induction b as [|b IH]; intros k n w tried Hwf Hdis Hk Hrun.
  - exists []. rewrite !app_nil_r.
    assert (w' = w /\ exists e, r = Throw e) as [-> [e ->]].
    { cbn [sendRequest_rec] in Hrun.
      destruct (MAX_RETRY_ATTEMPTS <? n)%nat; injection Hrun as <- <-; eauto. }
    repeat split; try done; [constructor | intros t _; apply not_elem_of_nil].
  - destruct (decide (MAX_RETRY_ATTEMPTS < n)%nat) as [Hn|Hn].
    { rewrite sendRequest_rec_ceiling in Hrun by done.
      injection Hrun as <- <-. exists []. rewrite !app_nil_r.
      repeat split; try done; [constructor | intros t _; apply not_elem_of_nil]. }
    rewrite sendRequest_rec_S in Hrun by lia. cbv zeta in Hrun.
    assert (Hone : forall r0,
              (forall resp k', r0 = Ok (resp, k') -> k' = k) ->
              (r0, mkWorld (pool w) (ticks w) (fetched w ++ [k])) = (r, w') ->
              exists ks, fetched w' = fetched w ++ ks /\ NoDup ks /\
                (forall t, t ∈ tried -> t ∉ ks) /\ pool_wf (pool w') /\
                all_disabled (pool w') (tried ++ removelast ks) /\
                (forall resp k', r = Ok (resp, k') -> last ks = Some k')).
    { intros r0 Hr0 [= <- <-]. exists [k]. simpl. rewrite app_nil_r.
      repeat split; try done.
      - apply NoDup_singleton.
      - intros t Ht ->%list_elem_of_singleton. done.
      - intros resp k' Hr. by rewrite (Hr0 _ _ Hr). }
    destruct (fetch env (length (fetched w)) k) as [resp|e];
      [|by apply (Hone (Throw e))].
    destruct (resp_ok resp);
      [apply (Hone (Ok (resp, k))); [by intros ?? [= _ <-]|done]|].
    destruct (json_of resp) as [errorData|e]; [|by apply (Hone (Throw e))].
    destruct (isKeyExhausted _ _) as [[|]|e];
      [|apply (Hone (Ok (resp, k))); [by intros ?? [= _ <-]|done]
       |by apply (Hone (Throw e))].
    destruct (disable_reason _ _) as [reason|e]; [|by apply (Hone (Throw e))].
    destruct (disableKey (env_clock env) k reason
                (mkWorld (pool w) (ticks w) (fetched w ++ [k])))
      as [rd w2] eqn:Hd.
    pose proof (disableKey_wf _ _ _
                  (mkWorld (pool w) (ticks w) (fetched w ++ [k])) _ _ Hwf Hd)
      as Hwf2.
    apply disableKey_lookup in Hd as (-> & Hf2 & _ & Hkd & Hother).
    simpl in Hf2, Hkd, Hother.
    assert (Hdis2 : all_disabled (pool w2) (k :: tried)).
    { intros t Ht v Hv. apply elem_of_cons in Ht as [->|Ht].
      - rewrite Hkd in Hv. destruct (pool w !! k); [|done].
        by injection Hv as <-.
      - rewrite Hother in Hv by (intros ->; done). by eapply Hdis. }
    destruct (retryWithFreshKey _ _ _ _) as [rk w3] eqn:Hretry.
    pose proof (retryWithFreshKey_wf _ _ _ _ _ _ Hwf2 Hretry) as Hwf3.
    pose proof (retryWithFreshKey_run _ _ _ _ _ _ Hretry) as [Hf3 Hnew].
    apply retryWithFreshKey_cases in Hretry
      as [[-> [e ->]]|(chosen & Hsel & -> & _ & ->)].
    + injection Hrun as <- <-. exists [k]. simpl. rewrite app_nil_r, Hf2.
      repeat split; try done.
      * apply NoDup_singleton.
      * intros t Ht ->%list_elem_of_singleton. done.
      * intros t Ht. apply Hdis2. by right.
    + destruct (Hnew _ eq_refl) as (Hne & v & Hv & Hen & Hkey).
      apply listKeys_elem in Hv as [kv Hkv].
      pose proof (Hwf2 _ _ Hkv) as Hkv'. rewrite Hkey in Hkv'. subst kv.
      assert (Hfresh : key chosen ∉ k :: tried).
      { intros Hin. by rewrite (Hdis2 _ Hin _ Hkv) in Hen. }
      assert (Hdis3 : all_disabled
                (<[key chosen := mark_used (clock (env_clock env) (ticks w2))
                                   chosen]> (pool w2)) (k :: tried)).
      { by apply all_disabled_insert. }
      eapply (IH _ _ _ (k :: tried)) in Hrun
        as (ks & Hf & Hnd & Hnot & Hwf' & Hdis' & Hlast); try done.
      simpl in Hf. exists (k :: ks). rewrite Hf, Hf2, <- app_assoc.
      split; [done|]. split; [|split; [|split; [done|split]]].
      * apply NoDup_cons. split; [|done]. apply Hnot. by left.
      * intros t Ht [->|Hin]%elem_of_cons; [done|].
        eapply Hnot; [|done]. by right.
      * destruct ks as [|k1 ks].
        { simpl. rewrite app_nil_r. simpl in Hdis'. rewrite app_nil_r in Hdis'.
          intros t Ht. apply Hdis'. by right. }
        intros t Ht. apply Hdis'.
        change (removelast (k :: k1 :: ks)) with (k :: removelast (k1 :: ks)) in Ht.
        apply elem_of_app in Ht as [Ht|Ht].
        -- apply elem_of_app. left. by right.
        -- apply elem_of_cons in Ht as [->|Ht].
           ++ apply elem_of_app. left. by left.
           ++ apply elem_of_app. by right.
      * intros resp' k' Hr. specialize (Hlast _ _ Hr).
        destruct ks as [|k1 ks]; [done|]. by rewrite last_cons, Hlast.
Qed.

(** X11. One request on a well-formed store makes at most four upstream
    calls and never uses a credential twice; every credential it used
    before the last one is disabled when the request ends; and a
    response is returned together with the credential of the last call,
    the one the usage is then recorded for. *)
Theorem sendRequest_no_repeat (env : Env) (cfg : option KeyPoolConfig)
    (k : jsstring) (w : World) (r : Res (Response * jsstring)) (w' : World) :
  pool_wf (pool w) ->
  sendRequest env cfg k w = (r, w') ->
  exists ks,
    fetched w' = fetched w ++ ks /\
    (length ks <= S MAX_RETRY_ATTEMPTS)%nat /\
    NoDup ks /\
    all_disabled (pool w') (removelast ks) /\
    (forall resp k', r = Ok (resp, k') -> last ks = Some k').
Proof.
  intros Hwf Hrun.
  pose proof (sendRequest_rec_fetched _ _ _ _ _ _ _ _ Hrun)
    as (ks0 & Hf0 & Hlen & _).
  assert (Hnone : all_disabled (pool w) []).
  { intros t Ht. by apply elem_of_nil in Ht. }
  destruct (sendRequest_rec_tried _ _ _ _ _ _ _ _ [] Hwf Hnone
              (not_elem_of_nil k) Hrun)
    as (ks & Hf & Hnd & _ & _ & Hdis & Hlast).
  rewrite Hf in Hf0. apply app_inv_head in Hf0 as <-. by exists ks.
Qed.

Lemma sendRequest_no_repeat_witness :
  exists ks,
    fetched (snd (sendRequest sample_env None (lit "A") sample_world_two))
      = [] ++ ks /\
    (length ks <= 4)%nat /\ NoDup ks /\
    all_disabled
      (pool (snd (sendRequest sample_env None (lit "A") sample_world_two)))
      (removelast ks) /\
    (forall resp k',
       fst (sendRequest sample_env None (lit "A") sample_world_two)
         = Ok (resp, k') -> last ks = Some k').
Proof.
  exact (sendRequest_no_repeat sample_env None (lit "A") sample_world_two
           _ _ sample_world_two_wf (surjective_pairing _)).
Defined.

(** ** The default rule table *)

Lemma assoc_get_set_inv (name n : jsstring) (x v : value)
    (props : list (jsstring * value)) :
  assoc_get name (assoc_set n x props) = Some v ->
  (name = n /\ v = x) \/ assoc_get name props = Some v.
Proof.
  induction props as [|[n0 v0] props IH]; cbn [assoc_set assoc_get];
    unfold jsstring_eqb.
  - destruct (bool_decide (n = name)) eqn:Hn; [|done].
    apply bool_decide_eq_true in Hn as ->. intros [= <-]. by left.
  - destruct (bool_decide (n0 = n)) eqn:Hn; cbn [assoc_get];
      unfold jsstring_eqb.
    + apply bool_decide_eq_true in Hn as ->.
      destruct (bool_decide (n = name)) eqn:Hm; [|by right].
      apply bool_decide_eq_true in Hm as ->. intros [= <-]. by left.
    + destruct (bool_decide (n0 = name)); [by right|]. apply IH.
Qed.

(** The names of the properties of a body built by a rule of the table. *)
Ltac table_fields :=
  let name := fresh "name" in
  let v := fresh "v" in
  let H := fresh "H" in
  intros name v H;
  try (apply assoc_get_set_inv in H as [[-> _]|H]; [by auto|]);
  cbn [assoc_get] in H; unfold jsstring_eqb in H;
  repeat (case_bool_decide; [subst name; injection H as <-; by auto 10|]);
  try discriminate H.

Ltac table_rule :=
  right; eexists; split; [reflexivity|]; split;
  [eexists; split; [vm_compute; reflexivity|discriminate] | table_fields].

(** The default table never changes the status. *)
Lemma default_table_status (err : value) (status : Z) (t : value * Z) :
  transformError err status defaultTransformConfig = Ok t -> snd t = status.
Proof.
  unfold transformError, defaultTransformConfig.
  cbn [error mt_enabled rules negb transformError_loop rule_matches statusCode
       existsb].
  repeat (destruct (_ =? status); [by intros [= <-]|]).
  destruct (_ || _).
  - unfold apply_rule. cbn [transform].
    destruct (get_prop err (lit "requestId")); [|done]. by intros [= <-].
  - by intros [= <-].
Qed.

(** X12. With the default rule table [transformError] keeps the status,
    and the body it returns is a fresh object with a non-empty [message]
    whose only properties are [code], [message] and, for 500 to 504, the
    [requestId] read from the upstream payload: no other field of the
    upstream error reaches the client.  It fails only for a status from
    500 to 504 whose payload is [null] or [undefined]. *)
Theorem default_table_result (err : value) (status : Z) :
  (status ∈ [500; 501; 502; 503; 504] /\ (err = VNull \/ err = VUndefined) /\
   transformError err status defaultTransformConfig = Throw TypeError) \/
  exists props,
    transformError err status defaultTransformConfig = Ok (VObj props, status) /\
    (exists m, assoc_get (lit "message") props = Some (VStr m) /\ m <> []) /\
    (forall name v, assoc_get name props = Some v ->
       name = lit "code" \/ name = lit "message" \/
       (name = lit "requestId" /\ v = get_opt err (lit "requestId") /\
        status ∈ [500; 501; 502; 503; 504])).
Proof.
  unfold transformError, defaultTransformConfig.
  cbn [error mt_enabled rules negb transformError_loop rule_matches statusCode
       existsb].
  destruct (401 =? status) eqn:H401; [table_rule|].
  destruct (400 =? status) eqn:H400; [table_rule|].
  destruct (403 =? status) eqn:H403; [table_rule|].
  destruct (404 =? status) eqn:H404; [table_rule|].
  destruct (429 =? status) eqn:H429; [table_rule|].
  destruct (_ || _) eqn:H5; [|table_rule].
  assert (Hin : status ∈ [500; 501; 502; 503; 504]).
  { repeat (apply orb_prop in H5 as [->%Z.eqb_eq|H5]; [set_solver|]).
    done. }
  unfold apply_rule. cbn [transform].
  destruct err; try (by left; auto); cbn [get_prop].
  all: table_rule.
Qed.

(** ** The handler *)

(** X13. A valid request for which no credential can be taken is
    answered with status 429 and the message of the failure of [getKey];
    a request whose tokenization fails is answered with status 500 and
    the message of the exception; in both cases the world stays as it
    was and no upstream call is made. *)
Theorem chat_completions_no_credential (env : Env)
    (cfg : option KeyPoolConfig) (body : ChatCompletionRequest) (w : World)
    (msg : Message) (msgs : list Message) (c : Z) (m : jsstring) :
  messages body = Some (msg :: msgs) ->
  model body = Some (c :: m) ->
  (forall e, encodeChat env (map chat_message (msg :: msgs)) = Throw e ->
   chat_completions env cfg body w =
     (Ok (mkClientResponse 500
            (BodyText (lit "Internal server error: "
                       ++ exn_message (env_engine env) e))), w)) /\
  (forall tokens e w1,
     encodeChat env (map chat_message (msg :: msgs)) = Ok tokens ->
     Z.of_nat (length tokens) <= 128000 ->
     getKey (env_clock env) cfg None w = (Throw e, w1) ->
     chat_completions env cfg body w =
       (Ok (mkClientResponse 429 (BodyText (exn_message (env_engine env) e))),
        w)).
Proof.
  intros Hm Hmodel. unfold chat_completions. rewrite Hm, Hmodel. split.
  - intros e He. unfold try_catch at 1, bind at 1, lift at 1. by rewrite He.
  - intros tokens e w1 Htok Hlen Hkey.
    unfold try_catch at 1, bind at 1, lift at 1. rewrite Htok.
    destruct (128000 <? Z.of_nat (length tokens)) eqn:Hc;
      [apply Z.ltb_lt in Hc; lia|].
    unfold bind at 1, try_catch, bind at 1. rewrite Hkey.
    apply getKey_cases in Hkey as [[-> _]|(? & _ & [=] & _)]. done.
Qed.

Lemma chat_completions_no_credential_witness :
  chat_completions sample_env None
    (mkRequest (Some [sample_message_user]) (Some (lit "m")) None)
    sample_world_disabled =
    (Ok (mkClientResponse 429 (BodyText msg_none_enabled)),
     sample_world_disabled).
Proof.
  apply (proj2 (chat_completions_no_credential sample_env None
                  (mkRequest (Some [sample_message_user]) (Some (lit "m")) None)
                  sample_world_disabled sample_message_user [] 109 []
                  eq_refl eq_refl)
           (replicate
              (Z.to_nat (64001 * Z.of_nat
                                   (length (map chat_message
                                              [sample_message_user])))) 0)
           (Error msg_none_enabled) sample_world_disabled).
  - reflexivity.
  - rewrite length_replicate. simpl. lia.
  - reflexivity.
Defined.

Lemma sendRequest_rec_response (b : nat) (env : Env)
    (cfg : option KeyPoolConfig) (k : jsstring) (n : nat) (w : World)
    (resp : Response) (k' : jsstring) (w' : World) :
  sendRequest_rec b env cfg k n w = (Ok (resp, k'), w') ->
  exists i, fetch env i k' = Ok resp.
Proof.
  revert k n w. induction b as [|b IH]; intros k n w Hrun.
  - cbn [sendRequest_rec] in Hrun. by destruct (MAX_RETRY_ATTEMPTS <? n)%nat.
  - destruct (decide (MAX_RETRY_ATTEMPTS < n)%nat) as [Hn|Hn].
    { by rewrite sendRequest_rec_ceiling in Hrun. }
    rewrite sendRequest_rec_S in Hrun by lia. cbv zeta in Hrun.
    destruct (fetch env (length (fetched w)) k) as [resp0|e] eqn:Hf; [|done].
    destruct (resp_ok resp0); [injection Hrun as <- <- _; eauto|].
    destruct (json_of resp0) as [errorData|e]; [|done].
    destruct (isKeyExhausted _ _) as [[|]|e];
      [|injection Hrun as <- <- _; eauto|done].
    destruct (disable_reason _ _) as [reason|e]; [|done].
    destruct (disableKey _ _ _ _) as [[[]|e] w2]; [|done].
    destruct (retryWithFreshKey _ _ _ _) as [[newKey|e] w3]; [|done].
    by eapply IH.
Qed.

Ltac in_list :=
  solve [repeat first [apply list_elem_of_here | apply list_elem_of_further]].

Lemma updateKeyStats_ok k u w : exists w', updateKeyStats k u w = (Ok tt, w').
Proof.
  unfold updateKeyStats, bind, redis_get, redis_set, ret. simpl.
  destruct (pool w !! k); eauto.
Qed.

Lemma dispatch_status (env : Env) (cfg : option KeyPoolConfig)
    (bodyModel : jsstring) (isStream : bool) (k : jsstring) (w : World)
    (r : Res ClientResponse) (w' : World) :
  dispatch env cfg bodyModel isStream k w = (r, w') ->
  (exists e, r = Throw e) \/
  exists resp, r = Ok resp /\
    (c_status resp ∈ [200; 500; 503] \/ relayed env (c_status resp)).
Proof.
  unfold dispatch, bind at 1, try_catch, bind at 1.
  destruct (sendRequest env cfg k w) as [[[resp k']|e] w1] eqn:Hs.
  2:{ intros [= <- <-]. right. eexists. split; [done|]. left. in_list. }
  unfold ret at 1. cbv iota beta.
  destruct (resp_ok resp) eqn:Hok; cbn [negb].
  - destruct isStream.
    + destruct (resp_body resp) as [chunks|].
      * destruct (transform_chunks _ _ _ _) as [out st].
        unfold bind.
        destruct (updateKeyStats_ok k'
                    (mkUsage (s_totalTokens st) (s_promptTokens st)
                       (s_completionTokens st)) w1) as [w2 ->].
        intros [= <- <-]. right. eexists. split; [done|]. left. in_list.
      * intros [= <- <-]. right. eexists. split; [done|]. left. in_list.
    + unfold bind, lift.
      destruct (json_of resp); [|intros [= <- <-]; eauto].
      destruct (transform_response _ _); [|intros [= <- <-]; eauto].
      destruct (response_usage _) as [[d [u|]]|]; [| |intros [= <- <-]; eauto];
        cbn [snd fst].
      * destruct (updateKeyStats_ok k' u w1) as [w2 ->].
        intros [= <- <-]. right. eexists. split; [done|]. left. in_list.
      * intros [= <- <-]. right. eexists. split; [done|]. left. in_list.
  - unfold bind, lift.
    destruct (json_of resp); [|intros [= <- <-]; eauto].
    destruct (transformError _ _ _) as [t|] eqn:Ht; [|intros [= <- <-]; eauto].
    intros [= <- <-]. right. eexists. split; [done|]. right. cbn [c_status].
    rewrite (default_table_status _ _ _ Ht).
    apply sendRequest_rec_response in Hs as [i Hi]. by exists i, k', resp.
Qed.

(** X14. The handler of [POST /chat/completions] always answers: no
    exception leaves it.  The status of its answer is 200, 400, 429, 500
    or 503, or else the status of an upstream answer outside 200 to 299,
    which the default rule table passes on unchanged. *)
Theorem chat_completions_answers (env : Env) (cfg : option KeyPoolConfig)
    (body : ChatCompletionRequest) (w : World) :
  exists resp w',
    chat_completions env cfg body w = (Ok resp, w') /\
    (c_status resp ∈ [200; 400; 429; 500; 503] \/ relayed env (c_status resp)).
Proof.
  unfold chat_completions, try_catch at 1.
  match goal with
  | |- context [match ?c w with _ => _ end] =>
      destruct (c w) as [[resp|e] w1] eqn:Hrun
  end.
  2:{ eexists _, _. split; [reflexivity|]. left. in_list. }
  exists resp, w1. split; [done|].
  destruct (messages body) as [[|msg msgs]|];
    try (unfold ret in Hrun; simplify_eq; left; in_list).
  destruct (model body) as [[|c m]|];
    try (unfold ret in Hrun; simplify_eq; left; in_list).
  unfold bind at 1, lift at 1 in Hrun.
  destruct (encodeChat env _) as [toks|]; [|done].
  destruct (_ <? _); [unfold ret in Hrun; simplify_eq; left; in_list|].
  unfold bind at 1, try_catch, bind at 1 in Hrun.
  destruct (getKey _ _ _ _) as [[apiKey|e] w2].
  - unfold ret at 1 in Hrun. cbv iota beta in Hrun.
    apply dispatch_status in Hrun as [[e [=]]|(resp' & [= <-] & [Hin|Hin])].
    + left.
      repeat (apply elem_of_cons in Hin as [Heq|Hin]; [rewrite Heq; in_list|]).
      by apply elem_of_nil in Hin.
    + by right.
  - injection Hrun as <- <-. left. in_list.
Qed.

Lemma transform_response_usage (bodyModel : jsstring)
    (props : list (jsstring * value)) (data1 : value) :
  transform_response bodyModel (VObj props) = Ok data1 ->
  exists props1, data1 = VObj props1 /\
    assoc_get (lit "usage") props1 = assoc_get (lit "usage") props.
Proof.
  unfold transform_response. cbn [get_prop].
  destruct (default VUndefined (assoc_get (lit "choices") props));
    try (intros [= <-]; by eexists).
  destruct (map_res _ _); [|done]. cbn [set_prop]. intros [= <-].
  eexists. split; [done|]. apply assoc_get_set_ne.
  intros H. vm_compute in H. discriminate H.
Qed.

Lemma response_usage_numbers (props uprops : list (jsstring * value))
    (t p c : Z) :
  assoc_get (lit "usage") props = Some (VObj uprops) ->
  assoc_get (lit "total_tokens") uprops = Some (VNum t) ->
  assoc_get (lit "prompt_tokens") uprops = Some (VNum p) ->
  assoc_get (lit "completion_tokens") uprops = Some (VNum c) ->
  response_usage (VObj props) =
    Ok (VObj (assoc_set (lit "usage")
                (VObj (assoc_set (lit "completionTokens") (VNum c)
                         (assoc_set (lit "promptTokens") (VNum p)
                            (assoc_set (lit "totalTokens") (VNum t) uprops))))
                props),
        Some (mkUsage t p c)).
Proof.
  intros Hu Ht Hp Hc. unfold response_usage. cbn [get_prop].
  rewrite Hu. unfold get_opt, default. cbn [from_option id get_prop truthy negb].
  cbv zeta. rewrite Ht, Hp, Hc. reflexivity.
Qed.

(** X15. A valid request that is not streamed and is served at the
    first attempt with a JSON object carrying numeric usage counters:
    the client receives status 200; exactly one upstream call is made,
    with the credential that [getKey] returned; afterwards the record of
    that credential has [current] and [totalRequests] one higher,
    [lastUsed] at the clock reading, and the three token counters raised
    by the reported numbers; every other record is as before; and the
    body sent carries the total under [usage.totalTokens]. *)
Theorem chat_completions_accounting (env : Env) (cfg : option KeyPoolConfig)
    (body : ChatCompletionRequest) (w w1 : World)
    (msg : Message) (msgs : list Message) (c : Z) (m : jsstring)
    (tokens : list Z) (k : jsstring) (up : Response)
    (props uprops : list (jsstring * value)) (data1 : value) (t p cc : Z) :
  pool_wf (pool w) ->
  messages body = Some (msg :: msgs) ->
  model body = Some (c :: m) ->
  default false (stream body) = false ->
  encodeChat env (map chat_message (msg :: msgs)) = Ok tokens ->
  Z.of_nat (length tokens) <= 128000 ->
  getKey (env_clock env) cfg None w = (Ok k, w1) ->
  fetch env (length (fetched w)) k = Ok up ->
  resp_ok up = true ->
  resp_json up = Some (VObj props) ->
  transform_response (c :: m) (VObj props) = Ok data1 ->
  assoc_get (lit "usage") props = Some (VObj uprops) ->
  assoc_get (lit "total_tokens") uprops = Some (VNum t) ->
  assoc_get (lit "prompt_tokens") uprops = Some (VNum p) ->
  assoc_get (lit "completion_tokens") uprops = Some (VNum cc) ->
  exists body' w2 chosen,
    chat_completions env cfg body w =
      (Ok (mkClientResponse 200 (BodyJson body')), w2) /\
    pool w !! k = Some chosen /\
    pool w2 !! k =
      Some (mkApiKey (key chosen)
              (mkRateLimit (rpm (rateLimit chosen))
                 (current (rateLimit chosen) + 1)
                 (lastReset (rateLimit chosen)))
              (mkKeyUsage (totalTokens (usage chosen) + t)
                 (promptTokens (usage chosen) + p)
                 (completionTokens (usage chosen) + cc)
                 (totalRequests (usage chosen) + 1)
                 (clock (env_clock env) (ticks w)))
              (algorithm chosen) (enabled chosen) (disabledReason chosen)
              (disabledAt chosen)) /\
    (forall k', k' <> k -> pool w2 !! k' = pool w !! k') /\
    fetched w2 = fetched w ++ [k] /\
    get_opt (get_opt body' (lit "usage")) (lit "totalTokens") = VNum t.
Proof.
  intros Hwf Hm Hmodel Hstream Htok Hlen Hkey Hfetch Hok Hjson Htr Hu Ht Hp Hc.
  pose proof Hkey as Hkey0.
  apply getKey_ok in Hkey0 as (chosen & Hsel & Hid & _ & Hw1).
  pose proof (selected_stored _ _ _ _ Hwf (enabledKeys_sub _) Hsel) as Hst.
  rewrite Hid in Hst.
  apply transform_response_usage in Htr as Hd1.
  destruct Hd1 as (props1 & -> & Hu1). rewrite Hu in Hu1.
  assert (Hsend : sendRequest env cfg k w1 =
            (Ok (up, k), mkWorld (pool w1) (ticks w1) (fetched w1 ++ [k]))).
  { unfold sendRequest. rewrite sendRequest_rec_S by (unfold MAX_RETRY_ATTEMPTS; lia).
    cbv zeta. rewrite Hw1. cbn [fetched]. by rewrite Hfetch, Hok. }
  eexists _, _, chosen. split; [|split; [done|]].
  - unfold chat_completions. rewrite Hm, Hmodel.
    unfold try_catch at 1, bind at 1, lift at 1. rewrite Htok.
    destruct (128000 <? Z.of_nat (length tokens)) eqn:Hcmp;
      [apply Z.ltb_lt in Hcmp; lia|].
    unfold bind at 1, try_catch at 1, bind at 1. rewrite Hkey.
    unfold ret at 1. cbv iota beta.
    unfold dispatch, bind at 1, try_catch at 1, bind at 1. rewrite Hsend.
    unfold ret at 1. cbv iota beta. rewrite Hok, Hstream. cbn [negb].
    unfold bind at 1, lift at 1, json_of. rewrite Hjson.
    unfold bind at 1, lift at 1. rewrite Htr.
    unfold bind at 1, lift at 1.
    rewrite (response_usage_numbers _ _ _ _ _ Hu1 Ht Hp Hc).
    cbn [snd fst]. unfold bind at 1, updateKeyStats, bind at 1, redis_get.
    rewrite Hw1. cbn [pool ticks fetched]. rewrite lookup_insert_eq.
    unfold redis_set, ret. cbn [pool ticks fetched]. reflexivity.
  - cbn [pool fetched]. rewrite insert_insert_eq.
    split; [|split; [|split]].
    + rewrite lookup_insert_eq. reflexivity.
    + intros k' Hne. by rewrite lookup_insert_ne.
    + done.
    + unfold get_opt. cbn [get_prop]. rewrite assoc_get_set. cbn [default from_option id get_prop].
      do 2 (rewrite assoc_get_set_ne
              by (intros H; vm_compute in H; discriminate H)).
      by rewrite assoc_get_set.
Qed.

Lemma chat_completions_accounting_witness :
  exists body' w2 chosen,
    chat_completions (constant_env usage_response) None sample_request
      sample_world_two =
      (Ok (mkClientResponse 200 (BodyJson body')), w2) /\
    pool sample_world_two !! lit "A" = Some chosen /\
    pool w2 !! lit "A" =
      Some (mkApiKey (key chosen)
              (mkRateLimit (rpm (rateLimit chosen))
                 (current (rateLimit chosen) + 1)
                 (lastReset (rateLimit chosen)))
              (mkKeyUsage (totalTokens (usage chosen) + 7)
                 (promptTokens (usage chosen) + 3)
                 (completionTokens (usage chosen) + 4)
                 (totalRequests (usage chosen) + 1)
                 (clock sample_clock (ticks sample_world_two)))
              (algorithm chosen) (enabled chosen) (disabledReason chosen)
              (disabledAt chosen)) /\
    (forall k', k' <> lit "A" ->
       pool w2 !! k' = pool sample_world_two !! k') /\
    fetched w2 = fetched sample_world_two ++ [lit "A"] /\
    get_opt (get_opt body' (lit "usage")) (lit "totalTokens") = VNum 7.
Proof.
  apply (chat_completions_accounting (constant_env usage_response) None
           sample_request sample_world_two
           (snd (getKey sample_clock None None sample_world_two))
           sample_message_user [] 109 []
           (replicate
              (Z.to_nat (64001 * Z.of_nat
                                   (length (map chat_message
                                              [sample_message_user])))) 0)
           (lit "A") usage_response usage_body usage_fields
           (VObj usage_body) 7 3 4 sample_world_two_wf);
    try reflexivity.
  rewrite length_replicate. simpl. lia.
Defined.

(** ** Authentication *)

Lemma bearer_marker : marker (lit "Bearer ").
Proof.
  exists 66, (lit "earer "). split; [reflexivity|].
  rewrite list_elem_of_In. simpl. intuition discriminate.
Qed.

(** Nothing before the first occurrence holds the pattern. *)
Lemma indexOf_take (p s : jsstring) (i : nat) :
  p <> [] -> indexOf p s = Some i -> includes p (take i s) = false.
Proof.
  intros Hp Hi. unfold includes.
  destruct (indexOf p (take i s)) as [j|] eqn:Hj; [|done].
  pose proof (indexOf_bound _ _ _ Hj) as Hb.
  apply (indexOf_app_Some _ _ (drop i s)) in Hj.
  rewrite take_drop, Hi in Hj. injection Hj as ->.
  rewrite length_take in Hb. destruct p; [done|]. simpl in Hb. lia.
Qed.

(** X16. [apiKeyMiddleware] lets a request through exactly when its
    [Authorization] header is present and either holds no [Bearer ] and
    equals the configured key, or becomes the configured key once its
    first [Bearer ] is removed, wherever in the header that occurrence
    is.  So the header [Bearer ] followed by the key is accepted and a
    missing header is answered with 403; the scheme prefix itself is not
    required. *)
Theorem apiKeyMiddleware_accepts (apiKey : jsstring)
    (authHeader : option jsstring) :
  (apiKeyMiddleware apiKey authHeader = None <->
   exists s, authHeader = Some s /\
     ((includes (lit "Bearer ") s = false /\ s = apiKey) \/
      exists a b, s = a ++ lit "Bearer " ++ b /\
                  includes (lit "Bearer ") a = false /\ a ++ b = apiKey)) /\
  (apiKeyMiddleware apiKey authHeader = None \/
   apiKeyMiddleware apiKey authHeader =
     Some (mkClientResponse 403 (BodyText msg_invalid_key))) /\
  apiKeyMiddleware apiKey (Some (lit "Bearer " ++ apiKey)) = None /\
  apiKeyMiddleware apiKey None <> None.
Proof.
  assert (Hiff : forall h, apiKeyMiddleware apiKey h = None <->
    exists s, h = Some s /\
     ((includes (lit "Bearer ") s = false /\ s = apiKey) \/
      exists a b, s = a ++ lit "Bearer " ++ b /\
                  includes (lit "Bearer ") a = false /\ a ++ b = apiKey)).
  { intros h. unfold apiKeyMiddleware.
    destruct h as [s|]; cbn [fmap option_fmap option_map].
    2:{ split; [done|]. by intros (s & [=] & _). }
    unfold replace_empty, jsstring_eqb. split.
    - destruct (indexOf (lit "Bearer ") s) as [i|] eqn:Hi.
      + case_bool_decide as Hk; [|done]. intros _. exists s. split; [done|].
        right. exists (take i s), (drop (i + length (lit "Bearer ")) s).
        split; [by apply indexOf_sound|]. split; [|done].
        by apply indexOf_take.
      + case_bool_decide as Hk; [|done]. intros _. exists s. split; [done|].
        left. split; [|done]. unfold includes. by rewrite Hi.
    - intros (s' & [= <-] & [[Hno ->]|(a & b & -> & Hno & <-)]).
      + unfold includes in Hno.
        destruct (indexOf (lit "Bearer ") apiKey); [done|].
        by rewrite bool_decide_eq_true_2.
      + rewrite (indexOf_first _ _ _ bearer_marker Hno).
        rewrite take_app_length.
        rewrite (app_assoc a), drop_app_length'
          by (rewrite length_app; lia).
        by rewrite bool_decide_eq_true_2. }
  split; [done|]. split; [|split].
  - unfold apiKeyMiddleware.
    destruct (replace_empty (lit "Bearer ") <$> authHeader); [|by right].
    destruct (jsstring_eqb _ _); [by left|by right].
  - apply Hiff. exists (lit "Bearer " ++ apiKey). split; [done|]. right.
    exists [], apiKey. by repeat split.
  - done.
Qed.

Lemma apiKeyMiddleware_accepts_witness :
  apiKeyMiddleware (lit "xk") (Some (lit "xBearer k")) = None.
Proof.
  apply (proj1 (apiKeyMiddleware_accepts (lit "xk") (Some (lit "xBearer k")))).
  exists (lit "xBearer k"). split; [reflexivity|]. right.
  exists (lit "x"), (lit "k"). repeat split; reflexivity.
Defined.

(** ** The admin routes and the configuration *)

(** An identifier with no enabled record is never selected. *)
Lemma unselectable (ck : Clock) (cfg : option KeyPoolConfig) (k : jsstring)
    (w1 : World) :
  pool_wf (pool w1) ->
  (forall v, pool w1 !! k = Some v -> enabled v = false) ->
  (forall id w2, getKey ck cfg None w1 = (Ok id, w2) -> id <> k) /\
  (forall x id w2, retryWithFreshKey ck cfg x w1 = (Ok id, w2) -> id <> k).
Proof.
  intros Hwf1 Hoff. split.
  - intros id w2 Hrun <-. apply getKey_ok in Hrun as (chosen & Hsel & Hid & _).
    pose proof (select_elem _ _ _ Hsel) as Hin.
    apply enabledKeys_elem in Hin as [Hen _].
    apply (selected_stored _ _ _ _ Hwf1 (enabledKeys_sub _)) in Hsel.
    rewrite Hid in Hsel. rewrite (Hoff chosen Hsel) in Hen. done.
  - intros x id w2 Hrun <-.
    apply retryWithFreshKey_cases in Hrun as [[_ [e He]]|(chosen & Hsel & Hr & _)];
      [done|].
    injection Hr as Hid.
    pose proof (select_elem _ _ _ Hsel) as Hin.
    apply list_elem_of_filter in Hin as [[Hen _] Hin].
    apply listKeys_elem in Hin as [k0 Hk0].
    rewrite (Hwf1 _ _ Hk0) in Hid. subst k0.
    rewrite (Hoff chosen Hk0) in Hen. done.
Qed.

Lemma pool_wf_delete (p : gmap jsstring ApiKey) (k : jsstring) :
  pool_wf p -> pool_wf (delete k p).
Proof.
  intros Hwf k' v Hk'. apply lookup_delete_Some in Hk' as [_ Hk'].
  by apply Hwf.
Qed.

(** X17. [DELETE /admin/keys/:key] answers 404 and changes nothing when
    the identifier is not stored, and otherwise removes exactly that
    record.  After it the identifier is never returned by [getKey] or
    [retryWithFreshKey], and a later [updateKeyStats] or [disableKey] for
    it (from a request still in flight) is dropped without recreating
    the record. *)
Theorem delete_key_excludes (ck : Clock) (cfg : option KeyPoolConfig)
    (k : jsstring) (w w1 : World) (r : Res ClientResponse) :
  pool_wf (pool w) ->
  delete_key k w = (r, w1) ->
  (pool w !! k = None -> r = Ok (json_error 404 "Key not found") /\ w1 = w) /\
  (is_Some (pool w !! k) -> r = Ok (json_message "Key deleted successfully")) /\
  pool w1 !! k = None /\
  (forall k', k' <> k -> pool w1 !! k' = pool w !! k') /\
  (forall id w2, getKey ck cfg None w1 = (Ok id, w2) -> id <> k) /\
  (forall x id w2, retryWithFreshKey ck cfg x w1 = (Ok id, w2) -> id <> k) /\
  (forall u, updateKeyStats k u w1 = (Ok tt, w1)) /\
  (forall reason, disableKey ck k reason w1 = (Ok tt, w1)).
Proof.
  intros Hwf. unfold delete_key, bind, redis_get, redis_del, ret. simpl.
  destruct (pool w !! k) as [d|] eqn:Hk; intros [= <- <-]; simpl.
  - assert (Hnone : delete k (pool w) !! k = None) by apply lookup_delete_eq.
    destruct (unselectable ck cfg k
                (mkWorld (delete k (pool w)) (ticks w) (fetched w)))
      as [Hget Hretry].
    { by apply pool_wf_delete. }
    { simpl. by rewrite Hnone. }
    split; [done|]. split; [done|]. split; [done|].
    split; [intros k' Hne; by apply lookup_delete_ne|].
    split; [done|]. split; [done|]. split.
    + intros u. unfold updateKeyStats, bind, redis_get. simpl. by rewrite Hnone.
    + intros reason. unfold disableKey, bind, redis_get. simpl. by rewrite Hnone.
  - destruct (unselectable ck cfg k w Hwf) as [Hget Hretry].
    { by rewrite Hk. }
    split; [done|]. split; [by intros [? [=]]|]. split; [done|].
    split; [done|]. split; [done|]. split; [done|]. split.
    + intros u. unfold updateKeyStats, bind, redis_get. simpl. by rewrite Hk.
    + intros reason. unfold disableKey, bind, redis_get. simpl. by rewrite Hk.
Qed.

Lemma delete_key_excludes_witness :
  let w1 := snd (delete_key (lit "A") sample_world_two) in
  pool w1 !! lit "A" = None /\
  (forall id w2, getKey sample_clock None None w1 = (Ok id, w2) ->
     id <> lit "A").
Proof.
  intros w1.
  destruct (delete_key_excludes sample_clock None (lit "A") sample_world_two
              w1 (fst (delete_key (lit "A") sample_world_two))
              sample_world_two_wf eq_refl)
    as (_ & _ & Hnone & _ & Hget & _).
  by split.
Defined.

(** X18. [PUT /admin/keys/:key] never fails and never touches another
    record, the clock or the usage: of the record it finds it can only
    change [rateLimit.rpm], to any number given, also zero or negative,
    and [enabled], to any boolean given.  The counters, the window, the
    reason and the time of disabling stay, so a credential enabled again
    through this route still carries the reason it was disabled for.  A
    body that is not JSON, or is [null], is answered with 500, and
    otherwise an identifier that is not stored with 404; an answer other
    than 200 leaves the world as it was. *)
Theorem put_key_changes (keyId : jsstring) (body : Res value) (w : World) :
  exists resp w',
    put_key keyId body w = (Ok resp, w') /\
    ticks w' = ticks w /\ fetched w' = fetched w /\
    (forall k', k' <> keyId -> pool w' !! k' = pool w !! k') /\
    (pool_wf (pool w) -> pool_wf (pool w')) /\
    (c_status resp <> 200 -> w' = w) /\
    ((exists e, body = Throw e) \/ body = Ok VNull \/ body = Ok VUndefined ->
     resp = json_error 500 "Failed to update key") /\
    (forall b, body = Ok b -> b <> VNull -> b <> VUndefined ->
     pool w !! keyId = None -> resp = json_error 404 "Key not found") /\
    (forall d, pool w !! keyId = Some d ->
     exists d',
       pool w' !! keyId = Some d' /\
       key d' = key d /\ usage d' = usage d /\ algorithm d' = algorithm d /\
       current (rateLimit d') = current (rateLimit d) /\
       lastReset (rateLimit d') = lastReset (rateLimit d) /\
       disabledReason d' = disabledReason d /\ disabledAt d' = disabledAt d /\
       (forall props,
          body = Ok (VObj props) ->
          c_status resp = 200 /\
          (forall n, assoc_get (lit "rpm") props = Some (VNum n) ->
             rpm (rateLimit d') = n) /\
          (forall e, assoc_get (lit "enabled") props = Some (VBool e) ->
             enabled d' = e))).
Proof.
  assert (Hfail : (exists e, body = Throw e) \/ body = Ok VNull \/
                  body = Ok VUndefined ->
            exists resp w',
              put_key keyId body w = (Ok resp, w') /\
              resp = json_error 500 "Failed to update key" /\ w' = w).
  { intros [[e ->]|[->| ->]]; by eexists _, _. }
  destruct body as [b|e].
  2:{ destruct Hfail as (resp & w' & Hrun & -> & ->); [left; eauto|].
      exists (json_error 500 "Failed to update key"), w.
      repeat split; try done. intros d Hd. exists d. by repeat split. }
  assert (Hcase : (b = VNull \/ b = VUndefined) \/
                  ~ (b = VNull \/ b = VUndefined)).
  { destruct b; try (by left; auto); right; intros [H|H]; discriminate H. }
  destruct Hcase as [Hb|Hb].
  { destruct Hfail as (resp & w' & Hrun & -> & ->);
      [right; destruct Hb as [->| ->]; auto|].
    exists (json_error 500 "Failed to update key"), w.
    split; [done|]. split; [done|]. split; [done|]. split; [done|].
    split; [done|]. split; [done|]. split; [done|]. split.
    - intros b0 [= <-] H1 H2. by destruct Hb.
    - intros d Hd. exists d. repeat split; try done;
        intros; destruct Hb; simplify_eq. }
  assert (Hrpm : exists rpm_arg, get_prop b (lit "rpm") = Ok rpm_arg).
  { destruct b; try (by eexists); exfalso; apply Hb; auto. }
  assert (Hen : exists enabled_arg,
            get_prop b (lit "enabled") = Ok enabled_arg).
  { destruct b; try (by eexists); exfalso; apply Hb; auto. }
  destruct Hrpm as [rpm_arg Hrpm]. destruct Hen as [enabled_arg Hen].
  unfold put_key, try_catch, bind at 1, lift at 1.
  unfold bind at 1, lift at 1. rewrite Hrpm.
  unfold bind at 1, lift at 1. rewrite Hen.
  unfold bind at 1, redis_get at 1.
  destruct (pool w !! keyId) as [d|] eqn:Hk.
  2:{ exists (json_error 404 "Key not found"), w.
      split; [done|]. split; [done|]. split; [done|]. split; [done|].
      split; [done|]. split; [done|]. split; [|done].
      intros [[e [=]]|[[= ->]|[= ->]]]; destruct Hb; auto. }
  unfold bind, redis_set, ret. cbv zeta.
  eexists _, _. split; [reflexivity|]. cbn [pool ticks fetched].
  split; [done|]. split; [done|].
  split; [intros k' Hne; by apply lookup_insert_ne|].
  split.
  { intros Hwf k v Hkv. destruct (decide (k = keyId)) as [->|Hne].
    - rewrite lookup_insert_eq in Hkv. injection Hkv as <-.
      rewrite <- (Hwf _ _ Hk). by destruct rpm_arg, enabled_arg.
    - rewrite lookup_insert_ne in Hkv by done. by apply Hwf. }
  split; [done|]. split.
  { intros [[e [=]]|[[= ->]|[= ->]]]; destruct Hb; auto. }
  split; [done|].
  intros d0 [= <-]. eexists. split; [apply lookup_insert_eq|].
  split; [by destruct rpm_arg, enabled_arg|].
  split; [by destruct rpm_arg, enabled_arg|].
  split; [by destruct rpm_arg, enabled_arg|].
  split; [by destruct rpm_arg, enabled_arg|].
  split; [by destruct rpm_arg, enabled_arg|].
  split; [by destruct rpm_arg, enabled_arg|].
  split; [by destruct rpm_arg, enabled_arg|].
  intros props [= ->]. split; [done|]. split.
  - intros n Hn. cbn [get_prop] in Hrpm.
    rewrite Hn in Hrpm. injection Hrpm as <-. by destruct enabled_arg.
  - intros e He. cbn [get_prop] in Hen.
    rewrite He in Hen. by injection Hen as <-.
Qed.

Lemma put_key_changes_witness :
  let w := snd (disableKey sample_clock (lit "A") (lit "spent")
                  sample_world_two) in
  exists resp w' d',
    put_key (lit "A") (Ok (VObj [(lit "enabled", VBool true)])) w
      = (Ok resp, w') /\
    pool w' !! lit "A" = Some d' /\
    enabled d' = true /\ disabledReason d' = Some (lit "spent").
Proof.
  intros w.
  destruct (put_key_changes (lit "A")
              (Ok (VObj [(lit "enabled", VBool true)])) w)
    as (resp & w' & Hrun & _ & _ & _ & _ & _ & _ & _ & Hd).
  destruct (Hd (mkApiKey (lit "A") (mkRateLimit 2 1 0)
                  (mkKeyUsage 0 0 0 0 1) (lit "round-robin") false
                  (Some (lit "spent")) (Some 100000)) eq_refl)
    as (d' & Hk & _ & _ & _ & _ & _ & Hreason & _ & Hbody).
  destruct (Hbody _ eq_refl) as (_ & _ & Hen).
  exists resp, w', d'. split; [done|]. split; [done|]. split.
  - by apply Hen.
  - by rewrite Hreason.
Defined.


(** X20. [PUT /admin/config] changes nothing but the stored
    configuration: the pool and the configuration held by the manager
    stay, so a new algorithm is not used by the running manager.  Its
    status is 200, 400, 404 or 500, and unless it is 200 the service is
    as it was.  A stored configuration with a known algorithm and a
    positive [defaultRpm] stays one; an algorithm outside the three known
    ones is refused with 400, while a [defaultRpm] that is not a positive
    number is ignored and still answered with 200. *)
Theorem put_config_keeps (body : Res value) (s : Service) :
  manager_config (snd (put_config body s)) = manager_config s /\
  world (snd (put_config body s)) = world s /\
  c_status (fst (put_config body s)) ∈ [200; 400; 404; 500] /\
  (c_status (fst (put_config body s)) <> 200 -> snd (put_config body s) = s) /\
  (forall c, stored_config s = Some c -> config_valid c ->
   exists c', stored_config (snd (put_config body s)) = Some c' /\
              config_valid c') /\
  (forall b a,
     body = Ok b -> get_prop b (lit "currentAlgorithm") = Ok a ->
     truthy a = true -> known_algorithm a = None ->
     is_Some (stored_config s) ->
     put_config body s = (json_error 400 "Invalid algorithm", s)) /\
  (forall b a v,
     body = Ok b -> get_prop b (lit "currentAlgorithm") = Ok a ->
     truthy a = false ->
     get_prop b (lit "defaultRpm") = Ok v ->
     (forall n, v = VNum n -> n <= 0) ->
     is_Some (stored_config s) ->
     put_config body s =
       (json_message "Configuration updated successfully", s)).
Proof.
  assert (Hknown : forall a x, known_algorithm a = Some x ->
            x = lit "round-robin" \/ x = lit "least-used" \/
            x = lit "token-balanced").
  { intros a x. unfold known_algorithm, jsstring_eqb.
    destruct a as [| | | |a0| |]; try done.
    repeat case_bool_decide; cbn [orb]; intros [= <-]; auto. }
  split; [|split; [|split; [|split; [|split; [|split]]]]].
  - unfold put_config. by repeat case_match.
  - unfold put_config. by repeat case_match.
  - unfold put_config.
    repeat case_match; cbn [fst c_status json_error json_message]; in_list.
  - unfold put_config.
    repeat case_match; cbn [fst snd c_status json_error json_message]; done.
  - intros c Hc Hvalid. unfold put_config. rewrite Hc.
    destruct body as [b|e]; [|by exists c].
    destruct (get_prop b (lit "currentAlgorithm")) as [a|e]; [|by exists c].
    destruct (get_prop b (lit "defaultRpm")) as [v|e]; [|by exists c].
    cbv zeta.
    assert (Hrpm : forall c0, config_valid c0 ->
              config_valid
                match v with
                | VNum n => if 0 <? n
                            then mkKeyPoolConfig (currentAlgorithm c0) n
                            else c0
                | _ => c0
                end).
    { intros c0 Hc0. destruct v as [| | |n| | |]; try done.
      destruct (0 <? n) eqn:Hn; [|done]. apply Z.ltb_lt in Hn.
      split; [apply Hc0|done]. }
    destruct (truthy a).
    + destruct (known_algorithm a) as [x|] eqn:Hx; [|by exists c].
      eexists. split; [reflexivity|]. apply Hrpm.
      split; [by eapply Hknown|apply Hvalid].
    + eexists. split; [reflexivity|]. by apply Hrpm.
  - intros b a -> Ha Htruthy Hnone [c Hc]. unfold put_config.
    rewrite Ha, Hc, Htruthy, Hnone.
    destruct (get_prop b (lit "defaultRpm")) eqn:Hv; [done|].
    destruct b; done.
  - intros b a v -> Ha Htruthy Hv Hn [c Hc]. unfold put_config.
    rewrite Ha, Hv, Hc, Htruthy. f_equal.
    destruct s as [sc mc wd]. cbn in *. subst sc. do 2 f_equal.
    destruct v as [| | |n| | |]; try done.
    destruct (0 <? n) eqn:Hpos; [|done].
    apply Z.ltb_lt in Hpos. specialize (Hn n eq_refl). lia.
Qed.

Lemma put_config_keeps_witness :
  put_config (Ok (VObj [(lit "currentAlgorithm", VStr (lit "fastest"))]))
    (initialize (mkService None None sample_world_two)) =
    (json_error 400 "Invalid algorithm",
     initialize (mkService None None sample_world_two)).
Proof.
  apply (proj1 (proj2 (proj2 (proj2 (proj2 (proj2
           (put_config_keeps
              (Ok (VObj [(lit "currentAlgorithm", VStr (lit "fastest"))]))
              (initialize (mkService None None sample_world_two))))))))
           (VObj [(lit "currentAlgorithm", VStr (lit "fastest"))])
           (VStr (lit "fastest")) eq_refl eq_refl eq_refl eq_refl).
  by eexists.
Defined.

(** ** The streaming transformer, continued *)

Lemma transform_chunks_whole (eng : Engine) (m : jsstring)
    (cs : list (list Z)) (c : list Z) (st : StreamState) :
  ascii_bytes (c ++ concat cs) ->
  transform_chunks eng m st (c :: cs) =
    transform_chunk eng m st (c ++ concat cs).
Proof.
  revert c st. induction cs as [|c2 cs IH]; intros c st Hascii.
  - cbn [transform_chunks concat]. rewrite app_nil_r.
    destruct (transform_chunk eng m st c) as [o s]. by rewrite app_nil_r.
  - apply Forall_app in Hascii as Hparts. destruct Hparts as [Hc Hrest].
    cbn [concat] in *.
    rewrite (transform_chunk_split_text eng m st c (c2 ++ concat cs)).
    + change (transform_chunks eng m st (c :: c2 :: cs)) with
        (let '(out, st') := transform_chunk eng m st c in
         let '(outs, st'') := transform_chunks eng m st' (c2 :: cs) in
         (out ++ outs, st'')).
      destruct (transform_chunk eng m st c) as [o1 s1].
      by rewrite (IH c2 s1 Hrest).
    + by rewrite !TextDecoder_decode_ascii.
Qed.

(** X21. For a stream of ASCII bytes the chunking does not matter: two
    sequences of chunks with the same bytes in all make the transform
    send the same chunks and leave the same state. *)
Theorem transform_chunks_rechunk_ascii (eng : Engine) (m : jsstring)
    (st : StreamState) (c c' : list Z) (cs cs' : list (list Z)) :
  ascii_bytes (c ++ concat cs) ->
  c ++ concat cs = c' ++ concat cs' ->
  transform_chunks eng m st (c :: cs) = transform_chunks eng m st (c' :: cs').
Proof.
  intros Hascii Heq.
  rewrite !transform_chunks_whole; [by rewrite Heq|by rewrite <- Heq|done].
Qed.

Lemma transform_chunks_rechunk_ascii_witness :
  transform_chunks sample_engine (lit "m") (stream_start (lit "m"))
    [lit ": pi"; lit "ng" ++ [10; 10]] =
  transform_chunks sample_engine (lit "m") (stream_start (lit "m"))
    [lit ": ping" ++ [10; 10]].
Proof.
  apply (transform_chunks_rechunk_ascii sample_engine (lit "m")
           (stream_start (lit "m")) (lit ": pi") (lit ": ping" ++ [10; 10])
           [lit "ng" ++ [10; 10]] []).
  - unfold ascii_bytes. simpl. repeat (apply Forall_cons; split; [lia|]).
    apply Forall_nil_2.
  - reflexivity.
Defined.

Lemma transform_message_one (eng : Engine) (m : jsstring) (st : StreamState)
    (message : jsstring) :
  length (fst (transform_message eng m st message)) =
    (if nonblank message then 1%nat else 0%nat) /\
  buffer (snd (transform_message eng m st message)) = buffer st /\
  (startsWith (lit "data: ") (trim message) = false ->
   transform_message eng m st message =
     (if nonblank message then [TextEncoder_encode (message ++ [10; 10])]
      else [], st)).
Proof.
  unfold transform_message, nonblank. cbv zeta.
  destruct (trim message) as [|c t] eqn:Ht; [done|].
  destruct (jsstring_eqb _ _) eqn:Hdone.
  { repeat split; done. }
  destruct (startsWith _ _) eqn:Hs; [|done].
  pose proof (transform_data_buffer eng m st (buffer st) (drop 6 (c :: t))) as Hb.
  assert (Hst : with_buffer (buffer st) st = st) by by destruct st.
  rewrite Hst in Hb.
  destruct (transform_data eng m st (drop 6 (c :: t))) as [[text|e] s];
    cbn [fst snd length]; (split; [done|]; split; [|done]);
    injection Hb as ->; done.
Qed.

Lemma transform_messages_same_buffer (eng : Engine) (m : jsstring)
    (st : StreamState) (l : list jsstring) :
  buffer (snd (transform_messages eng m st l)) = buffer st.
Proof.
  revert st. induction l as [|x l IH]; intros st; [done|].
  cbn [transform_messages].
  destruct (transform_message_one eng m st x) as (_ & Hbuf & _).
  destruct (transform_message eng m st x) as [o s].
  specialize (IH s). destruct (transform_messages eng m s l) as [os s'].
  cbn [fst snd] in *. congruence.
Qed.

(** X22. The loop over the complete frames sends one chunk for every
    frame that is not blank and none for a blank one, so frames are
    neither dropped nor doubled; it leaves the buffer alone; and frames
    that do not start with [data: ] are forwarded as they came, with
    their terminator, without a change of state. *)
Theorem transform_messages_frames (eng : Engine) (m : jsstring)
    (st : StreamState) (l : list jsstring) :
  length (fst (transform_messages eng m st l)) =
    length (filter (fun x => nonblank x = true) l) /\
  buffer (snd (transform_messages eng m st l)) = buffer st /\
  (Forall (fun x => startsWith (lit "data: ") (trim x) = false) l ->
   transform_messages eng m st l =
     (map (fun x => TextEncoder_encode (x ++ [10; 10]))
        (filter (fun x => nonblank x = true) l), st)).
Proof.
  revert st. induction l as [|x l IH]; intros st; [done|].
  cbn [transform_messages].
  destruct (transform_message_one eng m st x) as (Hlen & Hbuf & Hplain).
  destruct (transform_message eng m st x) as [o s] eqn:Hx.
  destruct (IH s) as (IHlen & IHbuf & IHplain).
  destruct (transform_messages eng m s l) as [os s'] eqn:Hl.
  cbn [fst snd] in *. rewrite filter_cons.
  split; [|split].
  - rewrite length_app, Hlen, IHlen.
    destruct (decide (nonblank x = true)) as [->|Hn]; [done|].
    by destruct (nonblank x).
  - congruence.
  - intros Hall. apply Forall_cons in Hall as [Hx0 Hall].
    specialize (IHplain Hall). injection IHplain as -> ->.
    specialize (Hplain Hx0). injection Hplain as -> ->.
    destruct (decide (nonblank x = true)) as [->|Hn]; [done|].
    by destruct (nonblank x).
Qed.

Lemma transform_messages_frames_witness :
  transform_messages sample_engine (lit "m") (stream_start (lit "m"))
    [lit ": ping"; lit "  "; lit "event: x"] =
  ([TextEncoder_encode (lit ": ping" ++ [10; 10]);
    TextEncoder_encode (lit "event: x" ++ [10; 10])],
   stream_start (lit "m")).
Proof.
  apply (proj2 (proj2 (transform_messages_frames sample_engine (lit "m")
                         (stream_start (lit "m"))
                         [lit ": ping"; lit "  "; lit "event: x"]))).
  repeat (apply Forall_cons; split; [reflexivity|]). apply Forall_nil_2.
Defined.

Lemma split_last (sep s : jsstring) :
  sep <> [] -> includes sep (default [] (last (split sep s))) = false.
Proof.
  intros Hsep.
  assert (Hlen : exists n, (length s <= n)%nat) by eauto.
  destruct Hlen as [n Hn]. revert s Hn.
  induction n as [|n IH]; intros s Hn.
  - destruct s; [|simpl in Hn; lia].
    rewrite (split_eq sep []), indexOf_nil_None by done. simpl.
    unfold includes. by rewrite indexOf_nil_None.
  - rewrite (split_eq sep s) by done.
    destruct (indexOf sep s) as [i|] eqn:Hi.
    + rewrite last_cons_ne by apply split_nonempty.
      pose proof (indexOf_bound _ _ _ Hi) as Hb.
      assert (0 < length sep)%nat by (destruct sep; [done|simpl; lia]).
      apply IH. rewrite length_drop. lia.
    + simpl. unfold includes. by rewrite Hi.
Qed.

(** X23. After every invocation of [transform] the buffer holds no
    frame terminator.  A chunk that completes no frame sends nothing and
    is only appended to the buffer; and a text that ends the stream
    without a terminator is sent by [flush] as it came, without the
    rewriting a complete [data: ] frame gets. *)
Theorem transform_chunk_buffer (eng : Engine) (m : jsstring)
    (st : StreamState) (chunk : list Z) :
  includes [10; 10] (buffer (snd (transform_chunk eng m st chunk))) = false /\
  (includes [10; 10] (buffer st ++ TextDecoder_decode chunk) = false ->
   transform_chunk eng m st chunk =
     ([], with_buffer (buffer st ++ TextDecoder_decode chunk) st)) /\
  (includes [10; 10] (TextDecoder_decode chunk) = false ->
   nonblank (TextDecoder_decode chunk) = true ->
   let '(out, st') := transform_chunks eng m (stream_start m) [chunk] in
   out ++ flush_chunk st' = [TextEncoder_encode (TextDecoder_decode chunk)]).
Proof.
  split; [|split].
  - unfold transform_chunk. cbv zeta.
    rewrite transform_messages_same_buffer. cbn [buffer].
    by apply split_last.
  - intros Hno. unfold transform_chunk. cbv zeta. by rewrite (split_none _ _ Hno).
  - intros Hno Hnb. cbn [transform_chunks]. unfold transform_chunk. cbv zeta.
    cbn [stream_start buffer app]. rewrite (split_none _ _ Hno).
    cbn. unfold flush_chunk. cbn [buffer]. by rewrite Hnb.
Qed.

Lemma transform_chunk_buffer_witness :
  let chunk := lit "data: x" in
  let '(out, st') :=
    transform_chunks sample_engine (lit "m") (stream_start (lit "m")) [chunk] in
  out ++ flush_chunk st' = [TextEncoder_encode (TextDecoder_decode chunk)].
Proof.
  exact (proj2 (proj2 (transform_chunk_buffer sample_engine (lit "m")
                         (stream_start (lit "m")) (lit "data: x")))
           eq_refl eq_refl).
Defined.

Lemma assoc_get_del (name : jsstring) (props : list (jsstring * value)) :
  assoc_get name (assoc_del name props) = None.
Proof.
  induction props as [|[n v] props IH]; [done|]. cbn [assoc_del].
  destruct (jsstring_eqb n name) eqn:Hn; [done|]. cbn [assoc_get].
  by rewrite Hn.
Qed.

Lemma assoc_get_del_ne (name name' : jsstring)
    (props : list (jsstring * value)) :
  name <> name' ->
  assoc_get name' (assoc_del name props) = assoc_get name' props.
Proof.
  intros Hne. induction props as [|[n v] props IH]; [done|].
  cbn [assoc_del assoc_get]. unfold jsstring_eqb in *.
  destruct (bool_decide (n = name)) eqn:Hn.
  - apply bool_decide_eq_true in Hn as ->.
    by rewrite bool_decide_eq_false_2.
  - cbn [assoc_get]. unfold jsstring_eqb. by rewrite IH.
Qed.

Lemma content_ne_reasoning : lit "content" <> lit "reasoning_content".
Proof. intros H. vm_compute in H. discriminate H. Qed.

Lemma reasoning_ne_content : lit "reasoning_content" <> lit "content".
Proof. intros H. vm_compute in H. discriminate H. Qed.

(** X24. The flag [isProcessingReasoning] across one delta whose content
    is a string.  A content with the closing marker always ends the
    reasoning.  For a thinking-default model the flag never turns on
    again.  A content without a marker that counts leaves the flag as it
    is: outside the reasoning the delta is passed on untouched, inside
    it the whole content moves to [reasoning_content] and [content] is
    removed. *)
Theorem transform_delta_flag (isSpecialModel flag : bool)
    (delta : value) (s : jsstring) :
  (isSpecialModel = true ->
   snd (transform_delta isSpecialModel flag delta (VStr s)) = true ->
   flag = true) /\
  (includes think_close s = true ->
   snd (transform_delta isSpecialModel flag delta (VStr s)) = false) /\
  (includes think_close s = false ->
   isSpecialModel = true \/ includes think_open s = false ->
   snd (transform_delta isSpecialModel flag delta (VStr s)) = flag /\
   (flag = false ->
    transform_delta isSpecialModel flag delta (VStr s) = (Ok delta, false)) /\
   (flag = true -> forall props, delta = VObj props ->
    transform_delta isSpecialModel flag delta (VStr s) =
      (Ok (VObj (assoc_del (lit "content")
                   (assoc_set (lit "reasoning_content") (VStr s) props))),
       true))).
Proof.
  unfold transform_delta. cbn [js_includes js_split]. cbv zeta.
  split; [|split].
  - intros ->. destruct (includes think_close s).
    + by destruct (if nonblank _ then _ else _); [destruct (nonblank _)|].
    + destruct flag; [done|]. done.
  - intros ->.
    by destruct (if nonblank _ then _ else _); [destruct (nonblank _)|].
  - intros -> Hopen.
    assert (Hmid : (if isSpecialModel then Ok false
                    else Ok (includes think_open s)) = Ok false).
    { destruct Hopen as [->| ->]; [done|]. by destruct isSpecialModel. }
    rewrite Hmid. split; [|split].
    + destruct flag; [|done]. by destruct (set_prop _ _ _).
    + by intros ->.
    + by intros -> props ->.
Qed.

Lemma transform_delta_flag_witness :
  snd (transform_delta false true (VObj [])
         (VStr (lit "plan" ++ think_close ++ lit "answer"))) = false /\
  transform_delta true true (VObj [(lit "content", VStr (lit "plan"))])
    (VStr (lit "plan")) =
    (Ok (VObj [(lit "reasoning_content", VStr (lit "plan"))]), true).
Proof.
  split.
  - apply (proj1 (proj2 (transform_delta_flag false true (VObj [])
                           (lit "plan" ++ think_close ++ lit "answer")))).
    reflexivity.
  - destruct (proj2 (proj2 (transform_delta_flag true true
                 (VObj [(lit "content", VStr (lit "plan"))]) (lit "plan")))
                eq_refl (or_introl eq_refl)) as (_ & _ & Hin).
    exact (Hin eq_refl _ eq_refl).
Defined.

(** X25. A streamed delta whose content holds one closing marker: the
    text before the marker becomes [reasoning_content] and the text after
    it the [content], both as they are, without trimming (an opening
    marker before the closing one stays in the reasoning text); a part
    that is blank is not written, and a blank rest removes [content]. *)
Theorem transform_delta_close (isSpecialModel flag : bool)
    (props : list (jsstring * value)) (a b : jsstring) :
  includes think_close a = false -> includes think_close b = false ->
  exists delta',
    transform_delta isSpecialModel flag (VObj props)
      (VStr (a ++ think_close ++ b)) = (Ok delta', false) /\
    get_opt delta' (lit "reasoning_content") =
      (if nonblank a then VStr a
       else get_opt (VObj props) (lit "reasoning_content")) /\
    get_opt delta' (lit "content") =
      (if nonblank b then VStr b else VUndefined).
Proof.
  intros Ha Hb. unfold transform_delta. cbn [js_includes js_split]. cbv zeta.
  rewrite includes_app, (split_one _ _ _ think_close_marker Ha Hb).
  cbn [part_or_empty nth].
  destruct (nonblank a), (nonblank b); cbn [set_prop delete_prop];
    eexists; (split; [reflexivity|]); unfold get_opt; cbn [get_prop];
    rewrite ?assoc_get_set, ?assoc_get_del,
      ?(assoc_get_set_ne _ _ _ _ content_ne_reasoning),
      ?(assoc_get_del_ne _ _ _ content_ne_reasoning),
      ?assoc_get_set; done.
Qed.

Lemma transform_delta_close_witness :
  exists delta',
    transform_delta false true (VObj [(lit "content", VStr (lit "x"))])
      (VStr (lit "<think>plan " ++ think_close ++ lit " answer"))
      = (Ok delta', false) /\
    get_opt delta' (lit "reasoning_content") = VStr (lit "<think>plan ") /\
    get_opt delta' (lit "content") = VStr (lit " answer").
Proof.
  exact (transform_delta_close false true [(lit "content", VStr (lit "x"))]
           (lit "<think>plan ") (lit " answer") eq_refl eq_refl).
Defined.

(** ** The buffered response, continued *)

Lemma get_opt_set_ne (v v' x : value) (name name' : jsstring) :
  set_prop v name x = Ok v' -> name <> name' ->
  get_opt v' name' = get_opt v name'.
Proof.
  intros Hset Hne. destruct v; try done; injection Hset as <-;
    unfold get_opt; cbn [get_prop]; by rewrite assoc_get_set_ne.
Qed.

Lemma get_opt_set (v v' x : value) (name : jsstring) :
  set_prop v name x = Ok v' -> get_opt v' name = x.
Proof.
  intros Hset. destruct v; try done; injection Hset as <-;
    unfold get_opt; cbn [get_prop]; by rewrite assoc_get_set.
Qed.

(** X26. The rewrite of a choice of a buffered response touches only
    [content] and [reasoning_content] of its message: every other
    property of the choice, and every other property of a message that
    is an object, reads as before. *)
Theorem transformChoice_frame (isSpecialModel : bool) (choice choice' : value) :
  transformChoice isSpecialModel choice = Ok choice' ->
  (forall name, name <> lit "message" ->
     get_opt choice' name = get_opt choice name) /\
  (forall props name,
     get_opt choice (lit "message") = VObj props ->
     name <> lit "content" -> name <> lit "reasoning_content" ->
     get_opt (get_opt choice' (lit "message")) name = get_opt (VObj props) name).
Proof.
  intros Hrun.
  assert (Hwith : forall message c r,
            set_prop choice (lit "message") (with_reasoning message c r)
              = Ok choice' ->
            get_opt choice (lit "message") = message ->
            (forall name, name <> lit "message" ->
               get_opt choice' name = get_opt choice name) /\
            (forall props name,
               get_opt choice (lit "message") = VObj props ->
               name <> lit "content" -> name <> lit "reasoning_content" ->
               get_opt (get_opt choice' (lit "message")) name
                 = get_opt (VObj props) name)).
  { intros message c r Hset Hmsg. split.
    - intros name Hne. by eapply get_opt_set_ne.
    - intros props name Hprops Hc Hr.
      rewrite (get_opt_set _ _ _ _ Hset). rewrite Hprops in Hmsg. subst message.
      unfold with_reasoning, get_opt. cbn [spread get_prop].
      by rewrite !assoc_get_set_ne. }
  unfold transformChoice in Hrun.
  destruct (get_prop choice (lit "message")) as [message|] eqn:Hm; [|done].
  assert (Hmsg : get_opt choice (lit "message") = message).
  { unfold get_opt. by rewrite Hm. }
  destruct (truthy message); cbn [negb] in Hrun;
    [|injection Hrun as <-; split; [done|by intros ?? ->]].
  destruct (get_prop message (lit "content")) as [content|]; [|done].
  destruct (truthy content); cbn [negb] in Hrun;
    [|injection Hrun as <-; split; [done|by intros ?? ->]].
  destruct content as [| | | |c| |]; try done.
  destruct isSpecialModel.
  - destruct (special_fields c) as [newContent thinkContent].
    by eapply Hwith.
  - destruct (regular_fields c) as [[newContent thinkContent]|].
    + by eapply Hwith.
    + injection Hrun as <-. split; [done|by intros ?? ->].
Qed.

Lemma transformChoice_frame_witness :
  exists choice',
    transformChoice false (sample_choice "<think>A</think>B") = Ok choice' /\
    get_opt choice' (lit "finish_reason") = VStr (lit "stop") /\
    get_opt (get_opt choice' (lit "message")) (lit "role")
      = VStr (lit "assistant").
Proof.
  eexists. split; [reflexivity|].
  match goal with
  | |- get_opt ?c _ = _ /\ _ =>
      destruct (transformChoice_frame false
                  (sample_choice "<think>A</think>B") c eq_refl)
        as [Hother Hmessage]
  end.
  split.
  - rewrite Hother; [reflexivity|].
    intros H. vm_compute in H. discriminate H.
  - rewrite (Hmessage (sample_message "<think>A</think>B"));
      [reflexivity..| |]; intros H; vm_compute in H; discriminate H.
Defined.

Lemma map_res_lookup {A B} (f : A -> Res B) (l : list A) (l' : list B) :
  map_res f l = Ok l' ->
  length l' = length l /\
  forall i x, l !! i = Some x -> exists y, l' !! i = Some y /\ f x = Ok y.
Proof.
  revert l'. induction l as [|a l IH]; intros l'; cbn [map_res].
  - intros [= <-]. split; [done|]. by intros i x.
  - destruct (f a) as [b|] eqn:Hb; [|done].
    destruct (map_res f l) as [ys|]; [|done]. intros [= <-].
    destruct (IH ys eq_refl) as [Hlen Hl]. split; [simpl; lia|].
    intros [|i] x; simpl.
    + intros [= <-]. eauto.
    + apply Hl.
Qed.

(** X27. The rewrite of a buffered response keeps every property of
    the body other than [choices]; an array of choices is replaced by an
    array of the same length whose entries are the rewritten choices in
    the same order; and a body whose [choices] is not an array is
    returned as it came. *)
Theorem transform_response_choices (bodyModel : jsstring) (data data' : value) :
  transform_response bodyModel data = Ok data' ->
  (forall name, name <> lit "choices" ->
     get_opt data' name = get_opt data name) /\
  (forall elems named,
     get_opt data (lit "choices") = VArr elems named ->
     exists elems',
       get_opt data' (lit "choices") = VArr elems' [] /\
       length elems' = length elems /\
       forall i c, elems !! i = Some c ->
         exists c', elems' !! i = Some c' /\
           transformChoice (isSpecialThinkingModel bodyModel) c = Ok c') /\
  ((forall elems named, get_opt data (lit "choices") <> VArr elems named) ->
   data' = data).
Proof.
  unfold transform_response.
  destruct (get_prop data (lit "choices")) as [choices|] eqn:Hc; [|done].
  assert (Hopt : get_opt data (lit "choices") = choices).
  { unfold get_opt. by rewrite Hc. }
  rewrite Hopt.
  destruct choices as [| | | | |elems named|];
    try (intros [= <-]; split; [done|split; [done|done]]).
  destruct (map_res _ elems) as [elems'|] eqn:Hmap; [|done].
  intros Hset. split; [|split].
  - intros name Hne. by eapply get_opt_set_ne.
  - intros elems0 named0 [= <- <-]. exists elems'.
    split; [by eapply get_opt_set|]. by apply map_res_lookup.
  - intros Hnot. by destruct (Hnot elems named).
Qed.

Lemma transform_response_choices_witness :
  exists data' elems',
    transform_response (lit "m")
      (VObj [(lit "choices", VArr [sample_choice "x"] [])]) = Ok data' /\
    get_opt data' (lit "choices") = VArr elems' [] /\
    length elems' = 1%nat.
Proof.
  set (data := VObj [(lit "choices", VArr [sample_choice "x"] [])]).
  set (data' := match transform_response (lit "m") data with
                | Ok d => d
                | Throw _ => VNull
                end).
  destruct (transform_response_choices (lit "m") data data' eq_refl)
    as (_ & Harr & _).
  destruct (Harr [sample_choice "x"] [] eq_refl) as (elems' & Hget & Hlen & _).
  exists data', elems'. split; [reflexivity|done].
Defined.

Lemma includes_prefix (p q s : jsstring) :
  includes (p ++ q) s = true -> includes p s = true.
Proof.
  unfold includes at 1.
  destruct (indexOf (p ++ q) s) as [i|] eqn:Hi; [|done]. intros _.
  apply indexOf_sound in Hi. rewrite Hi, <- (app_assoc p q).
  apply includes_app.
Qed.

(** X28. The second test of [isSpecialThinkingModel] never decides: a
    model name that holds [Qwen/QwQ-32B-fast] holds [Qwen/QwQ-32B], so
    the function is the first test alone. *)
Theorem isSpecialThinkingModel_one_test (modelName : jsstring) :
  isSpecialThinkingModel modelName = includes (lit "Qwen/QwQ-32B") modelName.
Proof.
  unfold isSpecialThinkingModel.
  destruct (includes (lit "Qwen/QwQ-32B") modelName) eqn:H1; [done|].
  cbn [orb]. destruct (includes (lit "Qwen/QwQ-32B-fast") modelName) eqn:H2;
    [|done].
  change (lit "Qwen/QwQ-32B-fast") with (lit "Qwen/QwQ-32B" ++ lit "-fast") in H2.
  apply includes_prefix in H2. congruence.
Qed.

(** ** The sweep and the selection *)

(** X29. The sweep makes credentials usable again: when it runs at a
    time at which the window of every enabled credential has elapsed,
    and these have a positive [rpm], the next [getKey] returns an
    enabled credential of the store instead of failing, whatever the
    counters were before. *)
Theorem sweep_lifts_rate_limit (ck : Clock) (cfg : option KeyPoolConfig)
    (w w1 : World) (r : Res unit) :
  pool_wf (pool w) ->
  resetRateLimits ck w = (r, w1) ->
  (forall k v, pool w !! k = Some v -> enabled v = true ->
     60000 <= clock ck (ticks w) - lastReset (rateLimit v) /\
     0 < rpm (rateLimit v)) ->
  (exists k v, pool w !! k = Some v /\ enabled v = true) ->
  exists v w2,
    getKey ck cfg None w1 = (Ok (key v), w2) /\
    pool w !! key v = Some v /\ enabled v = true.
Proof.
  intros Hwf Hrun Hall (k0 & v0 & Hk0 & Hen0).
  destruct (resetRateLimits_lookup ck w Hwf) as (w' & Hr & _ & _ & Hl).
  rewrite Hr in Hrun. injection Hrun as _ <-.
  assert (Hin0 : sweep_record (clock ck (ticks w)) v0 ∈ enabledKeys_of (pool w')).
  { apply enabledKeys_elem. split.
    - unfold sweep_record. by destruct (_ >=? _).
    - exists k0. by rewrite Hl, Hk0. }
  assert (Hne : pool w' <> ∅).
  { intros He. specialize (Hl k0). rewrite He, Hk0 in Hl. done. }
  assert (Hen : enabledKeys_of (pool w') <> []).
  { intros He. rewrite He in Hin0. by apply elem_of_nil in Hin0. }
  rewrite getKey_unfold by done.
  destruct (select_nonempty (algorithm_of cfg) _ Hen) as [chosen Hsel].
  rewrite Hsel.
  pose proof (select_elem _ _ _ Hsel) as Hin.
  apply enabledKeys_elem in Hin as [Hce [k Hk]].
  rewrite Hl in Hk. destruct (pool w !! k) as [v|] eqn:Hv; [|done].
  injection Hk as Hchosen.
  assert (Hev : enabled v = true).
  { rewrite <- Hchosen in Hce. unfold sweep_record in Hce.
    by destruct (_ >=? _). }
  destruct (Hall k v Hv Hev) as [Hwin Hrpm].
  assert (Hreset : chosen = reset_window (clock ck (ticks w)) v).
  { rewrite <- Hchosen. unfold sweep_record.
    destruct (_ >=? _) eqn:Hc; [done|]. rewrite Z.geb_leb in Hc.
    apply Z.leb_gt in Hc. exfalso. lia. }
  exists v. unfold take_key.
  destruct (current (rateLimit chosen) >=? rpm (rateLimit chosen)) eqn:Hc.
  { rewrite Z.geb_leb in Hc. apply Z.leb_le in Hc. rewrite Hreset in Hc.
    simpl in Hc. exfalso. lia. }
  unfold bind, date_now, redis_set, ret. cbn [pool ticks fetched].
  eexists. split.
  - by rewrite Hreset.
  - split; [|done]. by rewrite (Hwf _ _ Hv).
Qed.

Lemma sample_world_limited_wf : pool_wf (pool sample_world_limited).
Proof.
  apply (pool_wf_insert _ (sample_key "A" 2 2 0 1 true)).
  apply (pool_wf_insert _ (sample_key "B" 2 0 0 5 true)).
  apply pool_wf_empty.
Qed.

Lemma sweep_lifts_rate_limit_witness :
  getKey sample_clock None None sample_world_limited
    = (Throw (Error msg_rate_limit), sample_world_limited) /\
  exists v w2,
    getKey sample_clock None None
      (snd (resetRateLimits sample_clock sample_world_limited))
      = (Ok (key v), w2) /\
    pool sample_world_limited !! key v = Some v /\ enabled v = true.
Proof.
  split; [reflexivity|].
  apply (sweep_lifts_rate_limit sample_clock None sample_world_limited
           (snd (resetRateLimits sample_clock sample_world_limited))
           (fst (resetRateLimits sample_clock sample_world_limited))
           sample_world_limited_wf eq_refl).
  - intros k v Hk _. unfold sample_world_limited in Hk. cbn [pool] in Hk.
    apply lookup_insert_Some in Hk as [[_ <-]|[_ Hk]]; [simpl; lia|].
    apply lookup_insert_Some in Hk as [[_ <-]|[_ Hk]]; [simpl; lia|].
    by rewrite lookup_empty in Hk.
  - exists (lit "A"), (sample_key "A" 2 2 0 1 true). split; reflexivity.
Defined.

(** ** Adding credentials in a batch *)

Lemma addKeys_loop_run (ck : Clock) (cfg : option KeyPoolConfig)
    (keys : list (jsstring * option Z)) (s f : list jsstring) (w : World) :
  exists w',
    addKeys_loop ck cfg keys s f w = (Ok (s ++ keys.*1, f), w') /\
    ticks w' = (ticks w + length keys)%nat /\ fetched w' = fetched w /\
    (forall k, k ∈ keys.*1 -> exists v, pool w' !! k = Some v /\ fresh_record k v) /\
    (forall k, k ∉ keys.*1 -> pool w' !! k = pool w !! k).
Proof.
  revert s f w. induction keys as [|[k r] rest IH]; intros s f w.
  - exists w. rewrite app_nil_r. cbn [addKeys_loop length].
    split; [done|]. split; [lia|]. split; [done|]. split; [|done].
    intros k Hk. by apply elem_of_nil in Hk.
  - cbn [addKeys_loop]. unfold bind at 1, try_catch, bind at 1.
    unfold addKey at 1, bind at 1, date_now at 1, redis_set at 1.
    cbn [pool ticks fetched]. unfold ret at 1. cbv iota beta.
    set (newKey := mkApiKey k _ _ _ _ _ _).
    destruct (IH (s ++ [k]) f
                (mkWorld (<[k := newKey]> (pool w)) (S (ticks w)) (fetched w)))
      as (w' & Hrun & Ht & Hf & Hin & Hout).
    exists w'. cbn [pool ticks fetched] in *.
    split; [by rewrite Hrun, <- app_assoc|].
    split; [simpl; lia|]. split; [done|]. split.
    + intros k' Hk'. rewrite fmap_cons in Hk'. cbn [fst] in Hk'.
      destruct (decide (k' ∈ rest.*1)) as [Hr|Hr]; [by apply Hin|].
      apply elem_of_cons in Hk' as [->|Hk']; [|done].
      exists newKey. rewrite (Hout _ Hr), lookup_insert_eq. by repeat split.
    + intros k' Hk'. rewrite fmap_cons in Hk'. cbn [fst] in Hk'.
      apply not_elem_of_cons in Hk' as [Hne Hr].
      by rewrite (Hout _ Hr), lookup_insert_ne.
Qed.

(** X30. [addKeys] goes through the whole list: on a store that takes
    every write it reports each identifier as added, in the order given,
    and none as failed; afterwards every identifier of the list is
    stored as a fresh enabled record, whatever was stored under it
    before, and every other record is untouched. *)
Theorem addKeys_stores (ck : Clock) (cfg : option KeyPoolConfig)
    (keys : list (jsstring * option Z)) (w : World) :
  exists w',
    addKeys ck cfg keys w = (Ok (keys.*1, []), w') /\
    (forall k, k ∈ keys.*1 -> exists v, pool w' !! k = Some v /\ fresh_record k v) /\
    (forall k, k ∉ keys.*1 -> pool w' !! k = pool w !! k).
Proof.
  destruct (addKeys_loop_run ck cfg keys [] [] w)
    as (w' & Hrun & _ & _ & Hin & Hout).
  by exists w'.
Qed.
